(** * ccstatusline: the session-block locator and its cache

    A shallow embedding of the block-metrics module (the file that
    defines [getCachedBlockMetrics], [getBlockMetrics],
    [findMostRecentBlockStartTime], [getAllTimestampsFromFile] and
    [floorToHour]) together with the part of the ECMAScript runtime it
    calls, and the proofs of the properties stated about it.  The git
    widgets and the terminal utilities follow, with further properties
    of all these modules at the end of the file.

    Conventions of the embedding.
    - A JS string is the list of its UTF-16 code units ([JsString]); the
      text of a file is the string [readFile(path, 'utf-8')] yields.
    - A valid [Date] is its time value, an integer number of milliseconds
      since the epoch ([Z]); a possibly invalid one is an [option Z] with
      [None] for the time value NaN.  Durations are whole numbers of hours
      or of milliseconds, and arithmetic on them is exact.  The limit of
      8.64e15 ms on a time value is applied where a date is parsed,
      formatted or made from a number ([TimeClip]): the end of a block
      and the end of the cached window are invalid dates when the start
      plus the duration is outside the range, and a comparison with an
      invalid date is false.  The cutoff of a lookback pass, at most 48
      hours before the clock reading, is taken to be inside the range.
    - A Number that [parseInt] returns is a double with an integer
      value, an infinity or NaN ([JsInteger]): integers are rounded to
      the nearest double from 2^53 on, and printed as [Number::toString]
      prints them.
    - Code that can throw returns a [completion]; code that touches the
      disk or reads the clock runs in the monad [M] over a [World], which
      records every such call in its [trace]; code that runs shell
      commands runs in the monad [Sh], which is given the outcome of
      every command and records the commands run. *)

From Stdlib Require Import ZArith List Lia String Ascii Bool.
From Stdlib Require Import Sorting.Sorted Sorting.Permutation.
From stdpp Require Import gmap strings.
Import ListNotations.
Open Scope Z_scope.
Set Warnings "-register-all".

(* ================================================================== *)
(** * The ECMAScript runtime, as far as the module uses it *)
(* ================================================================== *)

Module ES.

(** ** Completions: a normal result or a thrown exception *)

Inductive JsError : Type :=
| TypeError
| SyntaxError
| RangeError
| SystemError.

Inductive completion (A : Type) : Type :=
| Normal (a : A)
| Throw (e : JsError).
Arguments Normal {A} a.
Arguments Throw {A} e.

Definition cbind {A B} (c : completion A) (k : A -> completion B) : completion B :=
  match c with
  | Normal a => k a
  | Throw e => Throw e
  end.

(** ** Strings *)

Definition JsString : Type := list N.

(** The code units of an ASCII literal. *)
Definition str (s : string) : JsString :=
  map N_of_ascii (list_ascii_of_string s).

Fixpoint jsStringEqb (a b : JsString) : bool :=
  match a, b with
  | [], [] => true
  | x :: a', y :: b' => (x =? y)%N && jsStringEqb a' b'
  | _, _ => false
  end.

(** ** Time values (ECMA-262, section "Time Values and Time Range") *)

Definition msPerSecond : Z := 1000.
Definition msPerMinute : Z := 60000.
Definition msPerHour : Z := 3600000.
Definition msPerDay : Z := 86400000.

Definition Day (t : Z) : Z := t / msPerDay.
Definition TimeWithinDay (t : Z) : Z := t mod msPerDay.

Definition DaysInYear (y : Z) : Z :=
  if negb (y mod 4 =? 0) then 365
  else if negb (y mod 100 =? 0) then 366
  else if negb (y mod 400 =? 0) then 365
  else 366.

Definition DayFromYear (y : Z) : Z :=
  365 * (y - 1970) + (y - 1969) / 4 - (y - 1901) / 100 + (y - 1601) / 400.

Definition TimeFromYear (y : Z) : Z := msPerDay * DayFromYear y.

(** The standard defines [YearFromTime t] as the largest [y] with
    [TimeFromYear y <= t].  It is computed here from an estimate over the
    400-year cycle of 146097 days, corrected by at most one year;
    [YearFromTime_spec] below proves that this is the year so defined. *)
Definition YearFromTime (t : Z) : Z :=
  let d := Day t in
  let y0 := 1970 + (400 * d) / 146097 in
  if d <? DayFromYear y0 then y0 - 1
  else if DayFromYear (y0 + 1) <=? d then y0 + 1
  else y0.

Definition InLeapYear (t : Z) : Z := DaysInYear (YearFromTime t) - 365.

Definition DayWithinYear (t : Z) : Z := Day t - DayFromYear (YearFromTime t).

(** Number of days of the year before month [m] (0 = January), in a year
    with leap-day count [leap]. *)
Definition daysBeforeMonth (leap m : Z) : Z :=
  if m =? 0 then 0
  else if m =? 1 then 31
  else if m =? 2 then 59 + leap
  else if m =? 3 then 90 + leap
  else if m =? 4 then 120 + leap
  else if m =? 5 then 151 + leap
  else if m =? 6 then 181 + leap
  else if m =? 7 then 212 + leap
  else if m =? 8 then 243 + leap
  else if m =? 9 then 273 + leap
  else if m =? 10 then 304 + leap
  else if m =? 11 then 334 + leap
  else 365 + leap.

Definition MonthFromTime (t : Z) : Z :=
  let d := DayWithinYear t in
  let leap := InLeapYear t in
  if d <? 31 then 0
  else if d <? 59 + leap then 1
  else if d <? 90 + leap then 2
  else if d <? 120 + leap then 3
  else if d <? 151 + leap then 4
  else if d <? 181 + leap then 5
  else if d <? 212 + leap then 6
  else if d <? 243 + leap then 7
  else if d <? 273 + leap then 8
  else if d <? 304 + leap then 9
  else if d <? 334 + leap then 10
  else 11.

Definition DateFromTime (t : Z) : Z :=
  DayWithinYear t - daysBeforeMonth (InLeapYear t) (MonthFromTime t) + 1.

Definition HourFromTime (t : Z) : Z := (t / msPerHour) mod 24.
Definition MinFromTime (t : Z) : Z := (t / msPerMinute) mod 60.
Definition SecFromTime (t : Z) : Z := (t / msPerSecond) mod 60.
Definition msFromTime (t : Z) : Z := t mod msPerSecond.

Definition MakeTime (hour min sec ms : Z) : Z :=
  hour * msPerHour + min * msPerMinute + sec * msPerSecond + ms.

Definition MakeDay (year month date : Z) : Z :=
  let ym := year + month / 12 in
  let mn := month mod 12 in
  DayFromYear ym + daysBeforeMonth (DaysInYear ym - 365) mn + date - 1.

Definition MakeDate (day time : Z) : Z := day * msPerDay + time.

Definition maxTimeValue : Z := 8640000000000000.

(** [None] is the time value NaN of an Invalid Date. *)
Definition TimeClip (t : Z) : option Z :=
  if Z.abs t <=? maxTimeValue then Some t else None.

Definition validTime (t : Z) : Prop := - maxTimeValue <= t <= maxTimeValue.

(** [a <= d.getTime()] and [a > d.getTime()] for a date [d] that may be
    invalid: a comparison with NaN is false. *)
Definition notAfter (a : Z) (d : option Z) : bool :=
  match d with
  | Some v => a <=? v
  | None => false
  end.

Definition isAfter (a : Z) (d : option Z) : bool :=
  match d with
  | Some v => a >? v
  | None => false
  end.

(** [Date.prototype.setUTCMinutes(min, sec, ms)] on a valid date. *)
Definition setUTCMinutes (t min sec ms : Z) : Z :=
  MakeDate (Day t) (MakeTime (HourFromTime t) min sec ms).

(** ** Date.prototype.toISOString *)

Definition digitChar (d : Z) : N := Z.to_N (48 + d).

(** The [n] low decimal digits of [v], most significant first. *)
Fixpoint decimalDigits (n : nat) (v : Z) : JsString :=
  match n with
  | O => []
  | S k => decimalDigits k (v / 10) ++ [digitChar (v mod 10)]
  end.

Definition isoYear (y : Z) : JsString :=
  if (0 <=? y) && (y <=? 9999) then decimalDigits 4 y
  else if 0 <=? y then str "+" ++ decimalDigits 6 y
  else str "-" ++ decimalDigits 6 (- y).

Definition isoFormat (t : Z) : JsString :=
  isoYear (YearFromTime t) ++ str "-" ++
  decimalDigits 2 (MonthFromTime t + 1) ++ str "-" ++
  decimalDigits 2 (DateFromTime t) ++ str "T" ++
  decimalDigits 2 (HourFromTime t) ++ str ":" ++
  decimalDigits 2 (MinFromTime t) ++ str ":" ++
  decimalDigits 2 (SecFromTime t) ++ str "." ++
  decimalDigits 3 (msFromTime t) ++ str "Z".

(** Throws a RangeError when the date is invalid (here: a time value
    outside the range a Date can hold). *)
Definition toISOString (t : Z) : completion JsString :=
  match TimeClip t with
  | Some v => Normal (isoFormat v)
  | None => Throw RangeError
  end.

(** ** Parsing a date string *)

Definition isDigit (c : N) : bool := (48 <=? c)%N && (c <=? 57)%N.

(** Reads exactly [n] decimal digits. *)
Fixpoint readDigits (n : nat) (acc : Z) (s : JsString) : option (Z * JsString) :=
  match n with
  | O => Some (acc, s)
  | S k =>
      match s with
      | c :: rest =>
          if isDigit c then readDigits k (10 * acc + (Z.of_N c - 48)) rest
          else None
      | [] => None
      end
  end.

Definition expectChar (c : N) (s : JsString) : option JsString :=
  match s with
  | c' :: rest => if (c' =? c)%N then Some rest else None
  | [] => None
  end.

Definition readYear (s : JsString) : option (Z * JsString) :=
  match s with
  | c :: rest =>
      if (c =? 43)%N then readDigits 6 0 rest
      else if (c =? 45)%N then
        match readDigits 6 0 rest with
        | Some (y, r) => if y =? 0 then None else Some (- y, r)
        | None => None
        end
      else readDigits 4 0 s
  | [] => None
  end.

Definition DaysInMonth (y m : Z) : Z :=
  daysBeforeMonth (DaysInYear y - 365) (m + 1)
  - daysBeforeMonth (DaysInYear y - 365) m.

(** The complete UTC form of the date-time string format,
    [YYYY-MM-DDTHH:mm:ss.sssZ] with the year possibly expanded to a sign
    and six digits, with every field in its legal range.  The result is
    the time value before clipping. *)
Definition parseIsoUtc (s : JsString) : option Z :=
  match readYear s with
  | None => None
  | Some (y, s) =>
  match expectChar 45 s with None => None | Some s =>
  match readDigits 2 0 s with None => None | Some (mo, s) =>
  match expectChar 45 s with None => None | Some s =>
  match readDigits 2 0 s with None => None | Some (d, s) =>
  match expectChar 84 s with None => None | Some s =>
  match readDigits 2 0 s with None => None | Some (h, s) =>
  match expectChar 58 s with None => None | Some s =>
  match readDigits 2 0 s with None => None | Some (mi, s) =>
  match expectChar 58 s with None => None | Some s =>
  match readDigits 2 0 s with None => None | Some (sec, s) =>
  match expectChar 46 s with None => None | Some s =>
  match readDigits 3 0 s with None => None | Some (ms, s) =>
  match s with
  | [90%N] =>
      if (1 <=? mo) && (mo <=? 12) && (1 <=? d) && (d <=? DaysInMonth y (mo - 1))
         && (h <=? 23) && (mi <=? 59) && (sec <=? 59)
      then Some (MakeDate (MakeDay y (mo - 1) d) (MakeTime h mi sec ms))
      else None
  | _ => None
  end end end end end end end end end end end end end
  end.

(** [new Date(string)]: the time value of the date the string denotes, or
    [None] for an Invalid Date.  The standard fixes the result for the
    date-time string format; for every other string (shorter or
    local-time forms, illegal field values, formats of the engine's own)
    the result is left to the implementation, here [hostParse].  The
    constructor applies [TimeClip] to what the parse gives. *)
Definition DateParse (hostParse : JsString -> option Z) (s : JsString) : option Z :=
  match parseIsoUtc s with
  | Some tv => TimeClip tv
  | None =>
      match hostParse s with
      | Some tv => TimeClip tv
      | None => None
      end
  end.

(** ** Values produced by JSON.parse, and the operations applied to them *)

(** A numeric literal denotes [mantissa * 10 ^ exponent10]; the rounding
    to a double is not modelled (the module only asks whether a value is
    a number, and whether it is falsy). *)
Record JsNumber : Type := { mantissa : Z; exponent10 : Z }.

Inductive JsValue : Type :=
| JUndefined
| JNull
| JBool (b : bool)
| JNum (n : JsNumber)
| JStr (s : JsString)
| JArr (elements : list JsValue)
| JObj (properties : list (JsString * JsValue)).

Inductive JsType : Type :=
| TyUndefined | TyObject | TyBoolean | TyNumber | TyString.

Definition typeof (v : JsValue) : JsType :=
  match v with
  | JUndefined => TyUndefined
  | JNull => TyObject
  | JBool _ => TyBoolean
  | JNum _ => TyNumber
  | JStr _ => TyString
  | JArr _ => TyObject
  | JObj _ => TyObject
  end.

Definition ToBoolean (v : JsValue) : bool :=
  match v with
  | JUndefined => false
  | JNull => false
  | JBool b => b
  | JNum n => negb (mantissa n =? 0)
  | JStr s => match s with [] => false | _ => true end
  | JArr _ => true
  | JObj _ => true
  end.

(** An object built by JSON.parse keeps, for a repeated key, the value
    written last. *)
Definition lookupProp (p : JsString) (props : list (JsString * JsValue)) : option JsValue :=
  fold_left (fun found kv => if jsStringEqb (fst kv) p then Some (snd kv) else found)
            props None.

(** The property read [v.p], for the names this module reads
    ([message], [usage], [input_tokens], [output_tokens], [isSidechain],
    [timestamp], [startTime]): none of them is a property of an array, of
    a primitive's wrapper or of [Object.prototype], so only an object's
    own properties can answer.  Reading from [null] or [undefined]
    throws. *)
Definition getProp (v : JsValue) (p : JsString) : completion JsValue :=
  match v with
  | JUndefined => Throw TypeError
  | JNull => Throw TypeError
  | JObj props =>
      match lookupProp p props with
      | Some x => Normal x
      | None => Normal JUndefined
      end
  | _ => Normal JUndefined
  end.

(** The optional chain [v?.p]. *)
Definition getPropOpt (v : JsValue) (p : JsString) : completion JsValue :=
  match v with
  | JUndefined => Normal JUndefined
  | JNull => Normal JUndefined
  | _ => getProp v p
  end.

(** ** JSON.parse *)

Definition isJsonWs (c : N) : bool :=
  (c =? 9)%N || (c =? 10)%N || (c =? 13)%N || (c =? 32)%N.

Fixpoint skipWs (s : JsString) : JsString :=
  match s with
  | c :: r => if isJsonWs c then skipWs r else s
  | [] => []
  end.

Definition hexValue (c : N) : option N :=
  if isDigit c then Some (c - 48)%N
  else if (97 <=? c)%N && (c <=? 102)%N then Some (c - 87)%N
  else if (65 <=? c)%N && (c <=? 70)%N then Some (c - 55)%N
  else None.

Definition hex4 (a b c d : N) : option N :=
  match hexValue a, hexValue b, hexValue c, hexValue d with
  | Some x, Some y, Some z, Some w => Some (((x * 16 + y) * 16 + z) * 16 + w)%N
  | _, _, _, _ => None
  end.

Definition simpleEscape (e : N) : option N :=
  if (e =? 34)%N then Some 34%N
  else if (e =? 92)%N then Some 92%N
  else if (e =? 47)%N then Some 47%N
  else if (e =? 98)%N then Some 8%N
  else if (e =? 102)%N then Some 12%N
  else if (e =? 110)%N then Some 10%N
  else if (e =? 114)%N then Some 13%N
  else if (e =? 116)%N then Some 9%N
  else None.

(** The characters of a string literal after its opening quote, up to
    and including the closing quote. *)
Fixpoint parseStringBody (s : JsString) : option (JsString * JsString) :=
  match s with
  | [] => None
  | c :: r =>
      if (c =? 34)%N then Some ([], r)
      else if (c =? 92)%N then
        match r with
        | [] => None
        | e :: r1 =>
            if (e =? 117)%N then
              match r1 with
              | a :: b :: c1 :: d :: r2 =>
                  match hex4 a b c1 d, parseStringBody r2 with
                  | Some u, Some (body, rest) => Some (u :: body, rest)
                  | _, _ => None
                  end
              | _ => None
              end
            else
              match simpleEscape e, parseStringBody r1 with
              | Some u, Some (body, rest) => Some (u :: body, rest)
              | _, _ => None
              end
        end
      else if (c <? 32)%N then None
      else
        match parseStringBody r with
        | Some (body, rest) => Some (c :: body, rest)
        | None => None
        end
  end.

(** A maximal run of digits: its value appended to [acc], its length. *)
Fixpoint readDigitRun (s : JsString) (acc : Z) (len : Z) : Z * Z * JsString :=
  match s with
  | c :: r =>
      if isDigit c then readDigitRun r (10 * acc + (Z.of_N c - 48)) (len + 1)
      else (acc, len, s)
  | [] => (acc, len, s)
  end.

Definition parseNumber (s : JsString) : option (JsNumber * JsString) :=
  let '(sign, s1) :=
    match s with
    | c :: r => if (c =? 45)%N then (-1, r) else (1, s)
    | [] => (1, s)
    end in
  match s1 with
  | [] => None
  | c :: r =>
      if negb (isDigit c) then None
      else
        let '(int, _, s2) :=
          if (c =? 48)%N then (0, 1, r) else readDigitRun s1 0 0 in
        let frac :=
          match s2 with
          | c2 :: r2 =>
              if (c2 =? 46)%N then
                let '(m, n, s3) := readDigitRun r2 int 0 in
                if n =? 0 then None else Some (m, n, s3)
              else Some (int, 0, s2)
          | [] => Some (int, 0, s2)
          end in
        match frac with
        | None => None
        | Some (m, n, s3) =>
            match s3 with
            | c3 :: r3 =>
                if (c3 =? 101)%N || (c3 =? 69)%N then
                  let '(esign, s4) :=
                    match r3 with
                    | c4 :: r4 =>
                        if (c4 =? 45)%N then (-1, r4)
                        else if (c4 =? 43)%N then (1, r4)
                        else (1, r3)
                    | [] => (1, r3)
                    end in
                  let '(e, elen, s5) := readDigitRun s4 0 0 in
                  if elen =? 0 then None
                  else Some ({| mantissa := sign * m; exponent10 := esign * e - n |}, s5)
                else Some ({| mantissa := sign * m; exponent10 := - n |}, s3)
            | [] => Some ({| mantissa := sign * m; exponent10 := - n |}, s3)
            end
        end
  end.

Fixpoint stripPrefix (p s : JsString) : option JsString :=
  match p with
  | [] => Some s
  | c :: p' =>
      match s with
      | c' :: s' => if (c =? c')%N then stripPrefix p' s' else None
      | [] => None
      end
  end.

Definition parseLiteral (s : JsString) : option (JsValue * JsString) :=
  match stripPrefix (str "true") s with
  | Some r => Some (JBool true, r)
  | None =>
  match stripPrefix (str "false") s with
  | Some r => Some (JBool false, r)
  | None =>
  match stripPrefix (str "null") s with
  | Some r => Some (JNull, r)
  | None =>
  match parseNumber s with
  | Some (n, r) => Some (JNum n, r)
  | None => None
  end end end end.

(** Recursive descent over the JSON grammar.  [fuel] bounds the number of
    nested calls; [JSON_parse] supplies enough of it for any text
    ([ESFacts.parseFuel_suffices]). *)
Fixpoint parseValue (fuel : nat) (s : JsString) {struct fuel}
  : option (JsValue * JsString) :=
  match fuel with
  | O => None
  | S fuel' =>
      match skipWs s with
      | [] => None
      | c :: r =>
          if (c =? 123)%N then
            match skipWs r with
            | c' :: r' =>
                if (c' =? 125)%N then Some (JObj [], r')
                else
                  match parseMembers fuel' r with
                  | Some (ms, rest) => Some (JObj ms, rest)
                  | None => None
                  end
            | [] => None
            end
          else if (c =? 91)%N then
            match skipWs r with
            | c' :: r' =>
                if (c' =? 93)%N then Some (JArr [], r')
                else
                  match parseElements fuel' r with
                  | Some (vs, rest) => Some (JArr vs, rest)
                  | None => None
                  end
            | [] => None
            end
          else if (c =? 34)%N then
            match parseStringBody r with
            | Some (body, rest) => Some (JStr body, rest)
            | None => None
            end
          else parseLiteral (c :: r)
      end
  end
with parseElements (fuel : nat) (s : JsString) {struct fuel}
  : option (list JsValue * JsString) :=
  match fuel with
  | O => None
  | S fuel' =>
      match parseValue fuel' s with
      | None => None
      | Some (v, r) =>
          match skipWs r with
          | c :: r' =>
              if (c =? 44)%N then
                match parseElements fuel' r' with
                | Some (vs, rest) => Some (v :: vs, rest)
                | None => None
                end
              else if (c =? 93)%N then Some ([v], r')
              else None
          | [] => None
          end
      end
  end
with parseMembers (fuel : nat) (s : JsString) {struct fuel}
  : option (list (JsString * JsValue) * JsString) :=
  match fuel with
  | O => None
  | S fuel' =>
      match skipWs s with
      | q :: r0 =>
          if negb (q =? 34)%N then None
          else
            match parseStringBody r0 with
            | None => None
            | Some (key, r1) =>
                match skipWs r1 with
                | colon :: r2 =>
                    if negb (colon =? 58)%N then None
                    else
                      match parseValue fuel' r2 with
                      | None => None
                      | Some (v, r3) =>
                          match skipWs r3 with
                          | c :: r4 =>
                              if (c =? 44)%N then
                                match parseMembers fuel' r4 with
                                | Some (ms, rest) => Some ((key, v) :: ms, rest)
                                | None => None
                                end
                              else if (c =? 125)%N then Some ([(key, v)], r4)
                              else None
                          | [] => None
                          end
                      end
                | [] => None
                end
            end
      | [] => None
      end
  end.

Definition parseFuel (text : JsString) : nat :=
  S (S (length text + length text)).

(** [JSON.parse(text)] without a reviver: the value, or a SyntaxError. *)
Definition JSON_parse (text : JsString) : completion JsValue :=
  match parseValue (parseFuel text) text with
  | Some (v, rest) =>
      match skipWs rest with
      | [] => Normal v
      | _ :: _ => Throw SyntaxError
      end
  | None => Throw SyntaxError
  end.

(** ** JSON.stringify *)

Definition hexDigitChar (d : N) : N :=
  if (d <? 10)%N then (48 + d)%N else (87 + d)%N.

Definition unicodeEscape (c : N) : JsString :=
  [92%N; 117%N;
   hexDigitChar (c / 4096 mod 16); hexDigitChar (c / 256 mod 16);
   hexDigitChar (c / 16 mod 16); hexDigitChar (c mod 16)].

Definition isLeadingSurrogate (c : N) : bool := (55296 <=? c)%N && (c <=? 56319)%N.
Definition isTrailingSurrogate (c : N) : bool := (56320 <=? c)%N && (c <=? 57343)%N.

Definition shortEscape (c : N) : option N :=
  if (c =? 8)%N then Some 98%N
  else if (c =? 9)%N then Some 116%N
  else if (c =? 10)%N then Some 110%N
  else if (c =? 12)%N then Some 102%N
  else if (c =? 13)%N then Some 114%N
  else if (c =? 34)%N then Some 34%N
  else if (c =? 92)%N then Some 92%N
  else None.

Fixpoint quoteChars (s : JsString) : JsString :=
  match s with
  | [] => []
  | c :: r =>
      match shortEscape c with
      | Some e => 92%N :: e :: quoteChars r
      | None =>
          if (c <? 32)%N then unicodeEscape c ++ quoteChars r
          else if isLeadingSurrogate c then
            match r with
            | c2 :: r2 =>
                if isTrailingSurrogate c2 then c :: c2 :: quoteChars r2
                else unicodeEscape c ++ quoteChars r
            | [] => unicodeEscape c
            end
          else if isTrailingSurrogate c then unicodeEscape c ++ quoteChars r
          else c :: quoteChars r
      end
  end.

Definition QuoteJSONString (s : JsString) : JsString :=
  34%N :: quoteChars s ++ [34%N].

(** [JSON.stringify] of an object literal whose properties all hold
    strings, without indentation. *)
Fixpoint serializeStringProps (props : list (JsString * JsString)) : JsString :=
  match props with
  | [] => []
  | [(k, v)] => QuoteJSONString k ++ str ":" ++ QuoteJSONString v
  | (k, v) :: rest =>
      QuoteJSONString k ++ str ":" ++ QuoteJSONString v ++ str ","
      ++ serializeStringProps rest
  end.

Definition JSON_stringify_strings (props : list (JsString * JsString)) : JsString :=
  str "{" ++ serializeStringProps props ++ str "}".

(** ** String.prototype.trim and split *)

(** White space and line terminators, as [trim] strips them. *)
Definition isTrimSpace (c : N) : bool :=
  ((9 <=? c)%N && (c <=? 13)%N) || (c =? 32)%N || (c =? 160)%N
  || (c =? 5760)%N || ((8192 <=? c)%N && (c <=? 8202)%N)
  || (c =? 8232)%N || (c =? 8233)%N || (c =? 8239)%N || (c =? 8287)%N
  || (c =? 12288)%N || (c =? 65279)%N.

Fixpoint trimStart (s : JsString) : JsString :=
  match s with
  | c :: r => if isTrimSpace c then trimStart r else s
  | [] => []
  end.

Definition trim (s : JsString) : JsString :=
  rev (trimStart (rev (trimStart s))).

(** [s.split('\n')]. *)
Fixpoint splitLines (s : JsString) : list JsString :=
  match s with
  | [] => [[]]
  | c :: r =>
      if (c =? 10)%N then [] :: splitLines r
      else
        match splitLines r with
        | l :: ls => (c :: l) :: ls
        | [] => [[c]]
        end
  end.

(** Test data is written with an apostrophe where the text has a double
    quote. *)
Definition quoted (s : string) : JsString :=
  map (fun c => if (c =? 39)%N then 34%N else c) (str s).

End ES.

Import ES.

(* ================================================================== *)
(** * The host: platform, disk and clock *)
(* ================================================================== *)

(** What the module takes from its platform and does not define itself:
    the part of date parsing the standard leaves to the engine, the home
    directory, and the functions of [node:path].  [getClaudeConfigDir] is
    imported from [./claude-settings], which is not part of the sources
    at hand: its result is taken as given, of the type [string | null]
    the module declares for it, and its call is taken to return
    normally. *)
Record Host : Type := {
  hostDateParse : JsString -> option Z;
  os_homedir : string;
  path_join : list string -> string;
  path_dirname : string -> string;
  path_posix_join : list string -> string;
  getClaudeConfigDir : option string
}.

(** The calls that reach outside the process. *)
Inductive Event : Type :=
| EvClock
| EvReadFile (path : string)
| EvMkdir (path : string)
| EvWriteFile (path : string) (text : JsString)
| EvGlob (pattern cwd : string)
| EvStat (path : string).

(** The state of the outside world.  [clock n] is the [n]-th reading of
    the wall clock; [diskFiles] holds the text of every file that can be
    read; [statMtime], [globResult], [mkdirFails] and [writeFails] decide
    how the other calls end, so that every failure can occur.  A write
    that succeeds changes [diskFiles]; what it does to modification times
    and listings is left out, as nothing is examined after a write. *)
Record World : Type := {
  clock : nat -> Z;
  clockReads : nat;
  diskFiles : gmap string JsString;
  statMtime : string -> option Z;
  globResult : string -> string -> completion (list string);
  mkdirFails : string -> bool;
  writeFails : string -> bool;
  trace : list Event
}.

Definition logged (w : World) (e : Event) : World :=
  {| clock := clock w; clockReads := clockReads w; diskFiles := diskFiles w;
     statMtime := statMtime w; globResult := globResult w;
     mkdirFails := mkdirFails w; writeFails := writeFails w;
     trace := trace w ++ [e] |}.

Definition ticked (w : World) : World :=
  {| clock := clock w; clockReads := S (clockReads w); diskFiles := diskFiles w;
     statMtime := statMtime w; globResult := globResult w;
     mkdirFails := mkdirFails w; writeFails := writeFails w;
     trace := trace w |}.

Definition stored (w : World) (path : string) (text : JsString) : World :=
  {| clock := clock w; clockReads := clockReads w;
     diskFiles := <[path := text]> (diskFiles w);
     statMtime := statMtime w; globResult := globResult w;
     mkdirFails := mkdirFails w; writeFails := writeFails w;
     trace := trace w |}.

(** ** The monad of effectful code *)

Definition M (A : Type) : Type := World -> completion A * World.

Definition ret {A} (a : A) : M A := fun w => (Normal a, w).

Definition bind {A B} (m : M A) (k : A -> M B) : M B :=
  fun w =>
    match m w with
    | (Normal a, w') => k a w'
    | (Throw e, w') => (Throw e, w')
    end.

Notation "x <- m ;; k" := (bind m (fun x => k))
  (at level 100, m at next level, right associativity).

Definition liftC {A} (c : completion A) : M A := fun w => (c, w).

(** [try { body } catch { handler }] *)
Definition tryCatch {A} (body handler : M A) : M A :=
  fun w =>
    match body w with
    | (Normal a, w') => (Normal a, w')
    | (Throw _, w') => handler w'
    end.

(** [Promise.all]: every operation is carried out; the result is
    rejected when one of them is. *)
Fixpoint promiseAll {A} (ms : list (M A)) : M (list A) :=
  match ms with
  | [] => ret []
  | m :: rest =>
      fun w =>
        let (c, w1) := m w in
        let (cs, w2) := promiseAll rest w1 in
        (cbind c (fun a => cbind cs (fun l => Normal (a :: l))), w2)
  end.

(** ** The calls *)

(** [new Date()] *)
Definition newDate : M Z :=
  fun w => (Normal (clock w (clockReads w)), ticked (logged w EvClock)).

Definition readFile (path : string) : M JsString :=
  fun w =>
    (match diskFiles w !! path with
     | Some text => Normal text
     | None => Throw SystemError
     end, logged w (EvReadFile path)).

Definition mkdir (path : string) : M unit :=
  fun w =>
    (if mkdirFails w path then Throw SystemError else Normal tt,
     logged w (EvMkdir path)).

Definition writeFile (path : string) (text : JsString) : M unit :=
  fun w =>
    if writeFails w path then (Throw SystemError, logged w (EvWriteFile path text))
    else (Normal tt, stored (logged w (EvWriteFile path text)) path text).

Definition glob (pattern cwd : string) : M (list string) :=
  fun w => (globResult w pattern cwd, logged w (EvGlob pattern cwd)).

Definition stat (path : string) : M Z :=
  fun w =>
    (match statMtime w path with
     | Some mtime => Normal mtime
     | None => Throw SystemError
     end, logged w (EvStat path)).

(** [Array.prototype.sort(cmp)]: a stable sort; [a] goes after [b] when
    [cmp a b > 0]. *)
Fixpoint insertBy {A} (cmp : A -> A -> Z) (x : A) (l : list A) : list A :=
  match l with
  | [] => [x]
  | y :: r => if cmp x y <=? 0 then x :: l else y :: insertBy cmp x r
  end.

Definition sortBy {A} (cmp : A -> A -> Z) (l : list A) : list A :=
  fold_right (insertBy cmp) [] l.

(** [s.replace(/\\/g, '/')] *)
Fixpoint replaceBackslashes (s : string) : string :=
  match s with
  | EmptyString => EmptyString
  | String c r =>
      String (if Ascii.eqb c (ascii_of_nat 92) then ascii_of_nat 47 else c)
             (replaceBackslashes r)
  end.

(* ================================================================== *)
(** * The module *)
(* ================================================================== *)

(** [BlockMetrics], from [../types]: both fields are valid dates. *)
Record BlockMetrics : Type := {
  startTime : Z;
  lastActivity : Z
}.

(** An entry of [filesWithStats]. *)
Record FileStat : Type := {
  file : string;
  mtime : Z
}.

(** An entry of [blocks].  The end is [new Date(start + duration)], which
    is an Invalid Date when the sum is outside the range of time
    values. *)
Record Block : Type := {
  blockStart : Z;
  blockEnd : option Z
}.

(** The variables the lookback loop of [findMostRecentBlockStartTime]
    assigns. *)
Record ScanState : Type := {
  timestamps : list Z;
  mostRecentTimestamp : option Z;
  continuousWorkStart : option Z;
  foundSessionGap : bool
}.

(** How the lookback loop is left: by its [return null], or at its end
    (or a [break]) with the variables as they then are. *)
Inductive LoopExit : Type :=
| ReturnNull
| LoopDone (st : ScanState).

Definition lookbackChunks : list Z := [10; 20; 48].

(** The value a parameter declared [sessionDurationHours = 5] takes when
    the call passes no argument for it. *)
Definition defaultSessionDurationHours : Z := 5.

(** [floorToHour]: a copy of the date with [setUTCMinutes(0, 0, 0)]. *)
Definition floorToHour (timestamp : Z) : Z :=
  setUTCMinutes timestamp 0 0 0.

(** The gap search of a pass, [for (let i = 1; i < timestamps.length; i++)]:
    [previous] is [timestamps[i - 1]] and [rest] starts at [timestamps[i]].
    Returns [continuousWorkStart] and [foundSessionGap]. *)
Fixpoint gapWalk (sessionDurationMs previous : Z) (rest : list Z)
                 (continuousStart : option Z) : option Z * bool :=
  match rest with
  | [] => (continuousStart, false)
  | current :: rest' =>
      let gap := previous - current in
      if gap >=? sessionDurationMs then (continuousStart, true)
      else gapWalk sessionDurationMs current rest' (Some current)
  end.

(** The loop that builds [blocks] from [sortedTimestamps]; [current] is
    [currentBlockStart] with [currentBlockEnd], which are assigned
    together. *)
Fixpoint buildBlocks (sessionDurationMs continuousStart : Z)
                     (sortedTimestamps : list Z) (current : option Block)
  : list Block :=
  match sortedTimestamps with
  | [] => []
  | timestamp :: rest =>
      if timestamp <? continuousStart then
        buildBlocks sessionDurationMs continuousStart rest current
      else if match current with
              | None => true
              | Some b => isAfter timestamp (blockEnd b)
              end
      then
        let currentBlockStart := floorToHour timestamp in
        let currentBlockEnd := TimeClip (currentBlockStart + sessionDurationMs) in
        let b := {| blockStart := currentBlockStart; blockEnd := currentBlockEnd |} in
        b :: buildBlocks sessionDurationMs continuousStart rest (Some b)
      else buildBlocks sessionDurationMs continuousStart rest current
  end.

(** [t >= block.start.getTime() && t <= block.end.getTime()] *)
Definition blockContains (b : Block) (t : Z) : bool :=
  (t >=? blockStart b) && notAfter t (blockEnd b).

(** The loop [for (const block of blocks)] that ends the locator. *)
Fixpoint findCurrentBlock (now : Z) (allTimestamps : list Z) (mostRecent : Z)
                          (blocks : list Block) : option BlockMetrics :=
  match blocks with
  | [] => None
  | block :: rest =>
      if blockContains block now then
        let hasActivity := existsb (blockContains block) allTimestamps in
        if hasActivity then
          Some {| startTime := blockStart block; lastActivity := mostRecent |}
        else findCurrentBlock now allTimestamps mostRecent rest
      else findCurrentBlock now allTimestamps mostRecent rest
  end.

(** The part of [findMostRecentBlockStartTime] after the lookback loop. *)
Definition selectCurrentBlock (now sessionDurationMs : Z) (st : ScanState)
  : option BlockMetrics :=
  match mostRecentTimestamp st, continuousWorkStart st with
  | Some mostRecent, Some continuousStart =>
      let sortedTimestamps := sortBy (fun a b => a - b) (timestamps st) in
      let blocks :=
        buildBlocks sessionDurationMs continuousStart sortedTimestamps None in
      findCurrentBlock now (timestamps st) mostRecent blocks
  | _, _ => None
  end.

Section Program.

Variable H : Host.

(** The body of the inner [try] of [getAllTimestampsFromFile] for one
    line: the dates it pushes, or the exception it throws. *)
Definition lineTimestamps (line : JsString) : completion (list Z) :=
  cbind (JSON_parse line) (fun json =>
  cbind (getProp json (str "message")) (fun message =>
  cbind (getPropOpt message (str "usage")) (fun usage =>
  if negb (ToBoolean usage) then Normal []
  else
    cbind (getProp usage (str "input_tokens")) (fun input_tokens =>
    cbind (getProp usage (str "output_tokens")) (fun output_tokens =>
    let hasInputTokens :=
      match typeof input_tokens with TyNumber => true | _ => false end in
    let hasOutputTokens :=
      match typeof output_tokens with TyNumber => true | _ => false end in
    if negb hasInputTokens || negb hasOutputTokens then Normal []
    else
      cbind (getProp json (str "isSidechain")) (fun isSidechain =>
      if match isSidechain with JBool true => true | _ => false end
      then Normal []
      else
        cbind (getProp json (str "timestamp")) (fun timestamp =>
        match timestamp with
        | JStr text =>
            match DateParse (hostDateParse H) text with
            | Some date => Normal [date]
            | None => Normal []
            end
        | _ => Normal []
        end))))))).

(** One turn of [for (const line of lines)]: an exception skips the
    line. *)
Definition lineContribution (line : JsString) : list Z :=
  match lineTimestamps line with
  | Normal dates => dates
  | Throw _ => []
  end.

(** [content.trim().split('\n').filter(line => line.length > 0)] *)
Definition contentLines (content : JsString) : list JsString :=
  List.filter (fun line => negb (length line =? 0)%nat) (splitLines (trim content)).

(** Gets all timestamps from a JSONL file; [[]] when it cannot be
    read. *)
Definition getAllTimestampsFromFile (filePath : string) : M (list Z) :=
  tryCatch
    (content <- readFile filePath ;;
     ret (flat_map lineContribution (contentLines content)))
    (ret []).

(** The inner loop of a lookback pass: it breaks at the first file older
    than the cutoff. *)
Fixpoint collectTimestamps (cutoffTime : Z) (filesWithStats : list FileStat)
  : M (list Z) :=
  match filesWithStats with
  | [] => ret []
  | f :: rest =>
      if mtime f <? cutoffTime then ret []
      else
        fileTimestamps <- getAllTimestampsFromFile (file f) ;;
        more <- collectTimestamps cutoffTime rest ;;
        ret (fileTimestamps ++ more)
  end.

(** [for (const lookbackHours of lookbackChunks)], from the chunk at the
    head of [chunks] on. *)
Fixpoint lookbackLoop (now sessionDurationMs : Z) (filesWithStats : list FileStat)
                      (chunks : list Z) (st : ScanState) : M LoopExit :=
  match chunks with
  | [] => ret (LoopDone st)
  | lookbackHours :: later =>
      let cutoffTime := now - lookbackHours * 60 * 60 * 1000 in
      collected <- collectTimestamps cutoffTime filesWithStats ;;
      match collected with
      | [] =>
          lookbackLoop now sessionDurationMs filesWithStats later
            {| timestamps := [];
               mostRecentTimestamp := mostRecentTimestamp st;
               continuousWorkStart := continuousWorkStart st;
               foundSessionGap := foundSessionGap st |}
      | _ :: _ =>
          let sorted := sortBy (fun a b => b - a) collected in
          (* if (!mostRecentTimestamp && timestamps[0]) *)
          let fresh :=
            match mostRecentTimestamp st, head sorted with
            | None, Some first => Some first
            | _, _ => None
            end in
          let mostRecent :=
            match fresh with
            | Some first => Some first
            | None => mostRecentTimestamp st
            end in
          if match fresh with
             | Some first =>
                 let timeSinceLastActivity := now - first in
                 timeSinceLastActivity >? sessionDurationMs
             | None => false
             end
          then ret ReturnNull
          else
            let '(continuousStart, found) :=
              match sorted with
              | [] => (mostRecent, false)
              | first :: others => gapWalk sessionDurationMs first others mostRecent
              end in
            let st' :=
              {| timestamps := sorted;
                 mostRecentTimestamp := mostRecent;
                 continuousWorkStart := continuousStart;
                 foundSessionGap := found |} in
            if found then ret (LoopDone st')
            else if bool_decide (last lookbackChunks = Some lookbackHours)
            then ret (LoopDone st')
            else lookbackLoop now sessionDurationMs filesWithStats later st'
      end
  end.

Definition initialScan : ScanState :=
  {| timestamps := [];
     mostRecentTimestamp := None;
     continuousWorkStart := None;
     foundSessionGap := false |}.

(** Finds the start of the most recent block from the JSONL files under
    [rootDir], with the modification times as hints.  The source declares
    [sessionDurationHours = 5]: a call with one argument is a call with
    [defaultSessionDurationHours]. *)
Definition findMostRecentBlockStartTime (rootDir : string) (sessionDurationHours : Z)
  : M (option BlockMetrics) :=
  let sessionDurationMs := sessionDurationHours * 60 * 60 * 1000 in
  now <- newDate ;;
  let pattern :=
    path_posix_join H [replaceBackslashes rootDir; "projects"; "**"; "*.jsonl"]%string in
  files <- glob pattern rootDir ;;
  match files with
  | [] => ret None
  | _ :: _ =>
      filesWithStats <-
        promiseAll (map (fun path =>
                           stamp <- stat path ;;
                           ret {| file := path; mtime := stamp |}) files) ;;
      let filesWithStats := sortBy (fun a b => mtime b - mtime a) filesWithStats in
      exit <- lookbackLoop now sessionDurationMs filesWithStats lookbackChunks initialScan ;;
      match exit with
      | ReturnNull => ret None
      | LoopDone st => ret (selectCurrentBlock now sessionDurationMs st)
      end
  end.

(** Gets the block metrics for the current block from the JSONL files.
    It has no parameter, and calls the locator with the directory only:
    [if (!claudeDir) return null], then
    [try { return await findMostRecentBlockStartTime(claudeDir) }
    catch { return null }]. *)
Definition getBlockMetrics : M (option BlockMetrics) :=
  match getClaudeConfigDir H with
  | None => ret None
  | Some EmptyString => ret None
  | Some claudeDir =>
      tryCatch (findMostRecentBlockStartTime claudeDir defaultSessionDurationHours)
               (ret None)
  end.

(** The path of the block cache file. *)
Definition getBlockCachePath : string :=
  path_join H [os_homedir H; ".cache"; "ccstatusline"; "block-cache.json"]%string.

(** Reads the block cache file and returns the cached start time; null
    when the cache does not exist or is invalid. *)
Definition readBlockCache : M (option Z) :=
  tryCatch
    (let cachePath := getBlockCachePath in
     content <- readFile cachePath ;;
     cache <- liftC (JSON_parse content) ;;
     cachedStart <- liftC (getProp cache (str "startTime")) ;;
     match cachedStart with
     | JStr text =>
         match DateParse (hostDateParse H) text with
         | None => ret None
         | Some date => ret (Some date)
         end
     | _ => ret None
     end)
    (ret None).

(** Writes the block start time to the cache file, after creating the
    cache directory; any failure is swallowed. *)
Definition writeBlockCache (start : Z) : M unit :=
  tryCatch
    (let cachePath := getBlockCachePath in
     let cacheDir := path_dirname H cachePath in
     _ <- mkdir cacheDir ;;
     iso <- liftC (toISOString start) ;;
     let cache := [(str "startTime", iso)] in
     writeFile cachePath (JSON_stringify_strings cache))
    (ret tt).

(** Gets the block metrics with caching: the cached result while it is
    valid, a fresh computation otherwise.  The source declares
    [sessionDurationHours = 5]. *)
Definition getCachedBlockMetrics (sessionDurationHours : Z)
  : M (option BlockMetrics) :=
  let sessionDurationMs := sessionDurationHours * 60 * 60 * 1000 in
  now <- newDate ;;
  cachedStartTime <- readBlockCache ;;
  let cacheValid :=
    match cachedStartTime with
    | Some cached =>
        let blockEndTime := TimeClip (cached + sessionDurationMs) in
        notAfter now blockEndTime
    | None => false
    end in
  match cachedStartTime, cacheValid with
  | Some cached, true =>
      ret (Some {| startTime := cached; lastActivity := now |})
  | _, _ =>
      metrics <- getBlockMetrics ;;
      match metrics with
      | Some found => _ <- writeBlockCache (startTime found) ;; ret metrics
      | None => ret metrics
      end
  end.

End Program.

(* ================================================================== *)
(** * Notions used to state the properties *)
(* ================================================================== *)

(** The world after further calls have been logged. *)
Definition logs (w : World) (events : list Event) : World :=
  {| clock := clock w; clockReads := clockReads w; diskFiles := diskFiles w;
     statMtime := statMtime w; globResult := globResult w;
     mkdirFails := mkdirFails w; writeFails := writeFails w;
     trace := trace w ++ events |}.

(** Calls that leave the disk as it is. *)
Definition readEvent (e : Event) : Prop :=
  match e with
  | EvMkdir _ => False
  | EvWriteFile _ _ => False
  | _ => True
  end.

(** [observes w w']: between [w] and [w'] the program has only looked at
    the world (read the clock, read files, listed and examined them). *)
Record observes (w w' : World) : Prop := {
  obs_clock : clock w' = clock w;
  obs_disk : diskFiles w' = diskFiles w;
  obs_stat : statMtime w' = statMtime w;
  obs_glob : globResult w' = globResult w;
  obs_mkdir : mkdirFails w' = mkdirFails w;
  obs_write : writeFails w' = writeFails w;
  obs_trace : exists events, trace w' = trace w ++ events /\ Forall readEvent events
}.

Definition readOnly {A} (m : M A) : Prop := forall w, observes w (snd (m w)).

Definition neverThrows {A} (m : M A) : Prop :=
  forall w, exists a, fst (m w) = Normal a.

(** The timestamps a log file contributes, as a function of the disk. *)
Definition fileTimestamps (H : Host) (disk : gmap string JsString) (path : string)
  : list Z :=
  match disk !! path with
  | Some content => flat_map (lineContribution H) (contentLines content)
  | None => []
  end.

(** The files a lookback pass opens: those before the first one that is
    older than the cutoff. *)
Fixpoint visited (cutoffTime : Z) (filesWithStats : list FileStat) : list FileStat :=
  match filesWithStats with
  | [] => []
  | f :: rest =>
      if mtime f <? cutoffTime then [] else f :: visited cutoffTime rest
  end.

Definition passTimestamps (H : Host) (disk : gmap string JsString)
                          (cutoffTime : Z) (filesWithStats : list FileStat) : list Z :=
  flat_map (fun f => fileTimestamps H disk (file f)) (visited cutoffTime filesWithStats).

Definition passReads (cutoffTime : Z) (filesWithStats : list FileStat) : list Event :=
  map (fun f => EvReadFile (file f)) (visited cutoffTime filesWithStats).

(** The files of a list whose modification time is at or after the
    cutoff. *)
Definition recentFiles (cutoffTime : Z) (filesWithStats : list FileStat) : list FileStat :=
  List.filter (fun f => cutoffTime <=? mtime f) filesWithStats.

Definition newestFirst (filesWithStats : list FileStat) : Prop :=
  Sorted (fun a b => mtime b <= mtime a) filesWithStats.

(** A timestamp that some file of the list contributes. *)
Definition fromFiles (H : Host) (disk : gmap string JsString) (fws : list FileStat)
                     (t : Z) : Prop :=
  exists f, In f fws /\ In t (fileTimestamps H disk (file f)).

(** What [Promise.all] over the [stat] calls resolves to. *)
Fixpoint statAll (mtimeOf : string -> option Z) (files : list string)
  : completion (list FileStat) :=
  match files with
  | [] => Normal []
  | path :: rest =>
      cbind (match mtimeOf path with
             | Some stamp => Normal {| file := path; mtime := stamp |}
             | None => Throw SystemError
             end)
            (fun f => cbind (statAll mtimeOf rest) (fun l => Normal (f :: l)))
  end.

(** The glob pattern of the locator. *)
Definition logPattern (H : Host) (rootDir : string) : string :=
  path_posix_join H [replaceBackslashes rootDir; "projects"; "**"; "*.jsonl"]%string.

(** The start time the cache file holds, as a function of the disk:
    nothing when the file is missing, is not JSON, has no string
    [startTime], or has one that is not a date. *)
Definition cachedStart (H : Host) (disk : gmap string JsString) : option Z :=
  match disk !! getBlockCachePath H with
  | None => None
  | Some content =>
      match JSON_parse content with
      | Throw _ => None
      | Normal cache =>
          match getProp cache (str "startTime") with
          | Normal (JStr text) => DateParse (hostDateParse H) text
          | _ => None
          end
      end
  end.

(** The text [writeBlockCache] writes for a start time. *)
Definition cacheRecord (iso : JsString) : JsString :=
  JSON_stringify_strings [(str "startTime", iso)].

(** The cache holds a start time whose window, of the given duration,
    ends at a valid date and is still open at [now]. *)
Definition cacheHit (now sessionDurationHours : Z) (cached : option Z) : Prop :=
  exists start,
    cached = Some start
    /\ validTime (start + sessionDurationHours * 60 * 60 * 1000)
    /\ now <= start + sessionDurationHours * 60 * 60 * 1000.

Definition isWriteFile (e : Event) : bool :=
  match e with
  | EvWriteFile _ _ => true
  | _ => false
  end.



(** The characters of an ISO date string lie between [+] and [Z]. *)
Definition isoChar (c : N) : Prop := (43 <= c <= 90)%N.

(** ** A concrete host and concrete worlds *)

Fixpoint dropLastSegment (reversed : list ascii) : list ascii :=
  match reversed with
  | [] => []
  | c :: r => if Ascii.eqb c "/"%char then r else dropLastSegment r
  end.

(** A POSIX platform: the home directory is [/home/u], the Claude
    configuration directory exists, and only the standard date format is
    understood. *)
Definition posixHost : Host :=
  {| hostDateParse := fun _ => None;
     os_homedir := "/home/u";
     path_join := String.concat "/";
     path_dirname := fun p =>
       string_of_list_ascii (rev (dropLastSegment (rev (list_ascii_of_string p))));
     path_posix_join := String.concat "/";
     getClaudeConfigDir := Some "/home/u/.claude"%string |}.

Definition sessionLogPath : string := "/home/u/.claude/projects/p/session.jsonl".

(** 2025-01-01T10:00:00Z, T10:30:00Z, T11:45:00Z and T12:10:00Z. *)
Definition t1000 : Z := 1735725600000.
Definition t1030 : Z := 1735727400000.
Definition t1145 : Z := 1735731900000.
Definition t1210 : Z := 1735733400000.

Definition lineAt1030 : JsString :=
  quoted "{'timestamp':'2025-01-01T10:30:00.000Z','message':{'usage':{'input_tokens':10,'output_tokens':20}}}".

Definition lineAt1145 : JsString :=
  quoted "{'timestamp':'2025-01-01T11:45:00.000Z','message':{'usage':{'input_tokens':3,'output_tokens':4}}}".

Definition worldWithLog (log : JsString) (stamp : Z) : World :=
  {| clock := fun _ => t1210;
     clockReads := 0;
     diskFiles := {[ sessionLogPath := log ]};
     statMtime := fun p => if String.eqb p sessionLogPath then Some stamp else None;
     globResult := fun _ _ => Normal [sessionLogPath];
     mkdirFails := fun _ => false;
     writeFails := fun _ => false;
     trace := [] |}.

(** At 12:10, no cache file; one log with activity at 10:30 and 11:45. *)
Definition activeWorld : World :=
  worldWithLog (lineAt1030 ++ [10%N] ++ lineAt1145 ++ [10%N]) t1145.

(** At 12:10, no cache file; one log whose only activity was at 10:30. *)
Definition quietWorld : World :=
  worldWithLog (lineAt1030 ++ [10%N]) t1030.

(** [activeWorld] after a first call has written the cache. *)
Definition cachedWorld : World :=
  snd (getCachedBlockMetrics posixHost 5 activeWorld).

(** +275760-09-12T23:00:00.000Z, one hour before the last date there
    is. *)
Definition lastHour : Z := 8639999996400000.

(** At 12:10, no log file; the cache file holds [lastHour]. *)
Definition farCacheWorld : World :=
  {| clock := fun _ => t1210;
     clockReads := 0;
     diskFiles :=
       {[ getBlockCachePath posixHost
          := quoted "{'startTime':'+275760-09-12T23:00:00.000Z'}" ]};
     statMtime := fun _ => None;
     globResult := fun _ _ => Normal [];
     mkdirFails := fun _ => false;
     writeFails := fun _ => false;
     trace := [] |}.

(** [activeWorld] with a cache directory that cannot be created. *)
Definition lockedWorld : World :=
  {| clock := clock activeWorld;
     clockReads := clockReads activeWorld;
     diskFiles := diskFiles activeWorld;
     statMtime := statMtime activeWorld;
     globResult := globResult activeWorld;
     mkdirFails := fun _ => true;
     writeFails := writeFails activeWorld;
     trace := [] |}.

(** Three log files, newest first. *)
Definition threeLogs : list FileStat :=
  [ {| file := sessionLogPath; mtime := t1145 |};
    {| file := "/home/u/.claude/projects/p/older.jsonl"; mtime := t1030 |};
    {| file := "/home/u/.claude/projects/q/oldest.jsonl"; mtime := 0 |} ].

(** The loop's variables after the activity of [activeWorld] has been
    gathered. *)
Definition scanOfActiveWorld : ScanState :=
  {| timestamps := [t1145; t1030];
     mostRecentTimestamp := Some t1145;
     continuousWorkStart := Some t1030;
     foundSessionGap := false |}.

(** ** Further notions and data *)


(** The text of a file whose lines are [lines], separated by line
    feeds. *)
Fixpoint joinLines (lines : list JsString) : JsString :=
  match lines with
  | [] => []
  | [line] => line
  | line :: rest => line ++ 10%N :: joinLines rest
  end.

(** Text that [trim] strips: white space and line terminators only. *)
Definition isPadding (s : JsString) : Prop :=
  Forall (fun c => isTrimSpace c = true) s.

(** The first and the last character of a text are not white space. *)
Definition isTrimmed (s : JsString) : Prop :=
  (exists c r, s = c :: r /\ isTrimSpace c = false)
  /\ (exists c r, rev s = c :: r /\ isTrimSpace c = false).

Definition olderLogPath : string := "/home/u/.claude/projects/p/older.jsonl".

(** At 12:10, no cache file; two logs, one with activity at 11:45 and one
    with activity at 10:30, listed in the given order. *)
Definition listedWorld (listing : list string) : World :=
  {| clock := fun _ => t1210;
     clockReads := 0;
     diskFiles := <[ olderLogPath := lineAt1030 ++ [10%N] ]>
                    {[ sessionLogPath := lineAt1145 ++ [10%N] ]};
     statMtime := fun p =>
       if String.eqb p sessionLogPath then Some t1145
       else if String.eqb p olderLogPath then Some t1030
       else None;
     globResult := fun _ _ => Normal listing;
     mkdirFails := fun _ => false;
     writeFails := fun _ => false;
     trace := [] |}.

(* ================================================================== *)
(** * The widgets and the terminal utilities *)
(* ================================================================== *)

(** The git widgets ([GitBranchWidget], [GitWorktreeWidget],
    [GitChangesWidget]) and the module of terminal utilities
    ([getPackageVersion], [getTerminalWidth],
    [canDetectTerminalWidth]).  Code that runs shell commands is in the
    monad [Sh], which records the commands run. *)

(** ** More of the runtime: strings, numbers and regular expressions *)

Module ESText.

Definition startsWith (s prefix : JsString) : bool :=
  match stripPrefix prefix s with
  | Some _ => true
  | None => false
  end.

(** [s.endsWith(suffix)] *)
Definition endsWith (s suffix : JsString) : bool :=
  startsWith (rev s) (rev suffix).

(** [s.split(separator)], for a separator that is not empty: the text is
    cut at every occurrence found from left to right, the search resuming
    after each occurrence.  [skip] counts the code units of an occurrence
    still to pass over; [piece] is the piece being read. *)
Fixpoint splitFrom (separator s : JsString) (skip : nat) (piece : JsString)
  : list JsString :=
  match s with
  | [] => [piece]
  | c :: r =>
      match skip with
      | S k => splitFrom separator r k piece
      | O =>
          match stripPrefix separator s with
          | Some _ => piece :: splitFrom separator r (length separator - 1) []
          | None => splitFrom separator r 0 (piece ++ [c])
          end
      end
  end.

Definition split (s separator : JsString) : list JsString :=
  splitFrom separator s 0 [].

(** [parts.join(separator)] *)
Fixpoint join (separator : JsString) (parts : list JsString) : JsString :=
  match parts with
  | [] => []
  | [part] => part
  | part :: rest => part ++ separator ++ join separator rest
  end.

(** A Number whose value is an integer, or that is an infinity or NaN:
    what [parseInt] returns, and what sums of such numbers are.  [Whole]
    holds the exact value of the double; the two zeros are one value
    here, as they print and compare alike. *)
Inductive JsInteger : Type :=
| NaN
| Whole (n : Z)
| Infinite (negative : bool).

(** The Number for a mathematical integer: the nearest double, the one
    with an even significand when two are as near, an infinity from
    2^1024 on.  Below 2^53 every integer is a double. *)
Definition toNumber (x : Z) : JsInteger :=
  let a := Z.abs x in
  if a <? 2 ^ 53 then Whole x
  else
    let e := Z.log2 a - 52 in
    let q := a / 2 ^ e in
    let r := a mod 2 ^ e in
    let q' :=
      if (2 * r >? 2 ^ e) || ((2 * r =? 2 ^ e) && Z.odd q) then q + 1 else q in
    if q' * 2 ^ e >=? 2 ^ 1024 then Infinite (x <? 0)
    else Whole (Z.sgn x * (q' * 2 ^ e)).

(** [a + b] *)
Definition plus (a b : JsInteger) : JsInteger :=
  match a, b with
  | NaN, _ | _, NaN => NaN
  | Whole x, Whole y => toNumber (x + y)
  | Infinite s, Whole _ | Whole _, Infinite s => Infinite s
  | Infinite s, Infinite s' => if Bool.eqb s s' then Infinite s else NaN
  end.

(** [parseInt(s, 10)]: leading white space is skipped, a sign is read,
    then the longest run of decimal digits; NaN when there is none,
    else the Number for the integer the digits denote.  (The standard
    lets an engine read the digits after the twentieth as zeros; the
    engines that run this code do not.) *)
Definition parseInt (s : JsString) : JsInteger :=
  let trimmed := trimStart s in
  let '(sign, digits) :=
    match trimmed with
    | c :: r =>
        if (c =? 45)%N then (-1, r)
        else if (c =? 43)%N then (1, r)
        else (1, trimmed)
    | [] => (1, trimmed)
    end in
  let '(value, len, _) := readDigitRun digits 0 0 in
  if len =? 0 then NaN else toNumber (sign * value).

(** The decimal digits of a natural number, most significant first. *)
Fixpoint decimalOf (fuel : nat) (n : Z) (acc : JsString) : JsString :=
  match fuel with
  | O => acc
  | S k =>
      let acc' := digitChar (n mod 10) :: acc in
      if n <? 10 then acc' else decimalOf k (n / 10) acc'
  end.

Definition decimal (n : Z) : JsString :=
  decimalOf (S (Z.to_nat (Z.log2 n))) n [].

(** [c] denotes a number that rounds to the double [x]. *)
Definition roundsTo (x c : Z) : bool :=
  match toNumber c with
  | Whole v => v =? x
  | _ => false
  end.

(** The shortest numeral for a double [x] of [digits] decimal digits:
    the least [k], from the given one on, and an [s] of [k] digits such
    that [s * 10 ^ (digits - k)] rounds to [x]; of two such [s] the one
    nearer to [x], the even one when they are as near. *)
Fixpoint shortestFrom (fuel : nat) (x digits k : Z) : Z * Z :=
  match fuel with
  | O => (x, digits)
  | S fuel' =>
      let p := 10 ^ (digits - k) in
      let s0 := x / p in
      let r := x mod p in
      let s1 := s0 + 1 in
      let ok0 := roundsTo x (s0 * p) in
      let ok1 := (s1 <? 10 ^ k) && roundsTo x (s1 * p) in
      if ok0 && ok1 then
        if 2 * r <? p then (s0, k)
        else if 2 * r >? p then (s1, k)
        else if Z.even s0 then (s0, k) else (s1, k)
      else if ok0 then (s0, k)
      else if ok1 then (s1, k)
      else shortestFrom fuel' x digits (k + 1)
  end.

(** [Number::toString] with radix 10, as a template literal applies it,
    for NaN, an infinity or a Number [x] with an integer value: the
    digits of [s] where [s * 10 ^ (n - k)] is the shortest numeral that
    rounds to [x], followed by [n - k] zeros when [n <= 21] and written
    with an exponent otherwise.  Below 2^53 this is the decimal
    expansion of [x], the only numeral of its length that rounds to
    [x]. *)
Definition numberToString (x : JsInteger) : JsString :=
  match x with
  | NaN => str "NaN"
  | Infinite negative => if negative then str "-Infinity" else str "Infinity"
  | Whole v =>
      let a := Z.abs v in
      let sign := if v <? 0 then [45%N] else [] in
      if a <? 2 ^ 53 then sign ++ decimal a
      else
        let digits := Z.of_nat (length (decimal a)) in
        let '(s, k, n) :=
          if roundsTo a (10 ^ digits) then (1, 1, digits + 1)
          else
            let '(s, k) := shortestFrom (Z.to_nat digits) a digits 1 in
            (s, k, digits) in
        sign ++
        (if n <=? 21 then decimal s ++ repeat 48%N (Z.to_nat (n - k))
         else
           match decimal s with
           | [] => []
           | first :: more =>
               first :: (match more with
                         | [] => []
                         | _ :: _ => 46%N :: more
                         end)
               ++ str "e+" ++ decimal (n - 1)
           end)
  end.

(** The regular expressions of these files are sequences of literal
    characters and of [\d+]; every [\d+] is taken as a capture group. *)
Inductive RegExpTerm : Type :=
| Digits
| Char (c : N).

Definition literal (s : string) : list RegExpTerm := map Char (str s).

(** [\d+] followed by the rest of a pattern, by backtracking: the run
    is greedy, it takes one more digit before the rest of the pattern is
    tried.  Returns the run and what the rest has captured. *)
Fixpoint digitsThen (rest : JsString -> option (list JsString)) (s : JsString)
  : option (JsString * list JsString) :=
  match s with
  | x :: r =>
      if isDigit x then
        match digitsThen rest r with
        | Some (more, groups) => Some (x :: more, groups)
        | None =>
            match rest r with
            | Some groups => Some ([x], groups)
            | None => None
            end
        end
      else None
  | [] => None
  end.

(** The match of a pattern at the start of a text; the result lists the
    captured runs of digits. *)
Fixpoint matchHere (pattern : list RegExpTerm) : JsString -> option (list JsString) :=
  match pattern with
  | [] => fun _ => Some []
  | Char c :: rest =>
      fun s =>
        match s with
        | x :: r => if (x =? c)%N then matchHere rest r else None
        | [] => None
        end
  | Digits :: rest =>
      fun s =>
        match digitsThen (matchHere rest) s with
        | Some (captured, groups) => Some (captured :: groups)
        | None => None
        end
  end.

(** [pattern.exec(s)] without the global flag: the leftmost match. *)
Fixpoint regExpExec (pattern : list RegExpTerm) (s : JsString) : option (list JsString) :=
  match matchHere pattern s with
  | Some groups => Some groups
  | None =>
      match s with
      | _ :: r => regExpExec pattern r
      | [] => None
      end
  end.

End ESText.

Import ESText.

(** ** Shell commands *)

(** What a command prints on its standard output when it is run with
    the options its call gives ([encoding: 'utf8'], the shell), or its
    failure: a non-zero exit status, or a shell that cannot be
    started. *)
Definition Shell : Type := JsString -> completion JsString.

(** Code that runs commands: it is given the shell and the commands run
    so far, and returns the commands run. *)
Definition Sh (A : Type) : Type :=
  Shell -> list JsString -> completion A * list JsString.

Definition shRet {A} (a : A) : Sh A := fun _ ran => (Normal a, ran).

Definition shBind {A B} (m : Sh A) (k : A -> Sh B) : Sh B :=
  fun shell ran =>
    match m shell ran with
    | (Normal a, ran') => k a shell ran'
    | (Throw e, ran') => (Throw e, ran')
    end.

Notation "x <~ m ;; k" := (shBind m (fun x => k))
  (at level 100, m at next level, right associativity).

(** [try { body } catch { handler }] *)
Definition shTry {A} (body handler : Sh A) : Sh A :=
  fun shell ran =>
    match body shell ran with
    | (Normal a, ran') => (Normal a, ran')
    | (Throw _, ran') => handler shell ran'
    end.

(** [(await execAsync(command, options)).stdout] *)
Definition execAsync (command : JsString) : Sh JsString :=
  fun shell ran => (shell command, ran ++ [command]).

(** ** The types of a widget *)

(** [WidgetItem], [RenderContext] and [WidgetEditorDisplay] are declared
    in [../types], which is not part of the sources at hand.  They are
    given the fields these widgets read: of an item [rawValue?: boolean]
    and [metadata?: Record<string, string>], with [otherFields] for all its
    remaining properties, which the code only copies; of a context
    [isPreview], read as a condition. *)
Record WidgetItem : Type := {
  rawValue : option bool;
  metadata : option (gmap string JsString);
  otherFields : list (JsString * JsValue)
}.

Record RenderContext : Type := {
  isPreview : bool
}.

Record WidgetEditorDisplay : Type := {
  displayText : JsString;
  modifierText : option JsString
}.

(** [item.rawValue] as a condition *)
Definition rawValueSet (item : WidgetItem) : bool :=
  match rawValue item with
  | Some b => b
  | None => false
  end.

(** [item.metadata?.hideNoGit === 'true'] *)
Definition hideNoGit (item : WidgetItem) : bool :=
  match metadata item with
  | Some entries =>
      match entries !! "hideNoGit"%string with
      | Some value => jsStringEqb value (str "true")
      | None => false
      end
  | None => false
  end.

(** [b.toString()] *)
Definition booleanToString (b : bool) : JsString :=
  if b then str "true" else str "false".

(** A string as a condition: it is truthy unless it is empty. *)
Definition nonEmpty (s : JsString) : bool :=
  match s with
  | [] => false
  | _ :: _ => true
  end.

(** The glyphs of the widgets: U+2387, and U+16830 as its two code
    units. *)
Definition branchGlyph : JsString := [9095%N].
Definition worktreeGlyph : JsString := [55322%N; 56368%N].

Module GitBranchWidget.

Definition getDisplayName : JsString := str "Git Branch".

Definition getEditorDisplay (item : WidgetItem) : WidgetEditorDisplay :=
  let modifiers := if hideNoGit item then [str "hide 'no git'"] else [] in
  {| displayText := getDisplayName;
     modifierText :=
       if (0 <? length modifiers)%nat
       then Some (str "(" ++ join (str ", ") modifiers ++ str ")")
       else None |}.

Definition handleEditorAction (action : JsString) (item : WidgetItem)
  : option WidgetItem :=
  if jsStringEqb action (str "toggle-nogit") then
    let currentState := hideNoGit item in
    Some {| rawValue := rawValue item;
            otherFields := otherFields item;
            metadata :=
              Some (<["hideNoGit"%string := booleanToString (negb currentState)]>
                      (default ∅ (metadata item))) |}
  else None.

Definition getGitBranch : Sh (option JsString) :=
  shTry
    (stdout <~ execAsync (str "git branch --show-current") ;;
     let branch := trim stdout in
     shRet (if nonEmpty branch then Some branch else None))
    (shRet None).

Definition render (item : WidgetItem) (context : RenderContext)
  : Sh (option JsString) :=
  if isPreview context then
    shRet (Some (if rawValueSet item then str "main"
                 else branchGlyph ++ str " main"))
  else
    branch <~ getGitBranch ;;
    match branch with
    | Some (c :: r) =>
        shRet (Some (if rawValueSet item then c :: r
                     else branchGlyph ++ str " " ++ c :: r))
    | _ =>
        shRet (if hideNoGit item then None
               else Some (branchGlyph ++ str " no git"))
    end.

End GitBranchWidget.

Module GitWorktreeWidget.

Definition getDisplayName : JsString := str "Git Worktree".

Definition getEditorDisplay (item : WidgetItem) : WidgetEditorDisplay :=
  let modifiers := if hideNoGit item then [str "hide 'no git'"] else [] in
  {| displayText := getDisplayName;
     modifierText :=
       if (0 <? length modifiers)%nat
       then Some (str "(" ++ join (str ", ") modifiers ++ str ")")
       else None |}.

Definition handleEditorAction (action : JsString) (item : WidgetItem)
  : option WidgetItem :=
  if jsStringEqb action (str "toggle-nogit") then
    let currentState := hideNoGit item in
    Some {| rawValue := rawValue item;
            otherFields := otherFields item;
            metadata :=
              Some (<["hideNoGit"%string := booleanToString (negb currentState)]>
                      (default ∅ (metadata item))) |}
  else None.

Definition getGitWorktree : Sh (option JsString) :=
  shTry
    (stdout <~ execAsync (str "git rev-parse --git-dir") ;;
     let worktreeDir := trim stdout in
     if endsWith worktreeDir (str "/.git") || jsStringEqb worktreeDir (str ".git")
     then shRet (Some (str "main"))
     else
       (* const [, worktree] = worktreeDir.split('.git/worktrees/') *)
       match split worktreeDir (str ".git/worktrees/") with
       | _ :: worktree :: _ => shRet (Some worktree)
       | _ => shRet None
       end)
    (shRet None).

Definition render (item : WidgetItem) (context : RenderContext)
  : Sh (option JsString) :=
  if isPreview context then
    shRet (Some (if rawValueSet item then str "main"
                 else worktreeGlyph ++ str " main"))
  else
    worktree <~ getGitWorktree ;;
    match worktree with
    | Some (c :: r) =>
        shRet (Some (if rawValueSet item then c :: r
                     else worktreeGlyph ++ str " " ++ c :: r))
    | _ =>
        shRet (if hideNoGit item then None
               else Some (worktreeGlyph ++ str " no git"))
    end.

End GitWorktreeWidget.

Module GitChangesWidget.

Definition getDisplayName : JsString := str "Git Changes".

Definition getEditorDisplay (item : WidgetItem) : WidgetEditorDisplay :=
  let modifiers := if hideNoGit item then [str "hide 'no git'"] else [] in
  {| displayText := getDisplayName;
     modifierText :=
       if (0 <? length modifiers)%nat
       then Some (str "(" ++ join (str ", ") modifiers ++ str ")")
       else None |}.

Definition handleEditorAction (action : JsString) (item : WidgetItem)
  : option WidgetItem :=
  if jsStringEqb action (str "toggle-nogit") then
    let currentState := hideNoGit item in
    Some {| rawValue := rawValue item;
            otherFields := otherFields item;
            metadata :=
              Some (<["hideNoGit"%string := booleanToString (negb currentState)]>
                      (default ∅ (metadata item))) |}
  else None.

Record Changes : Type := {
  insertions : JsInteger;
  deletions : JsInteger
}.

(** [/(\d+) insertion/] and [/(\d+) deletion/] *)
Definition insertionPattern : list RegExpTerm := Digits :: literal " insertion".
Definition deletionPattern : list RegExpTerm := Digits :: literal " deletion".

(** [match?.[1] ? parseInt(match[1], 10) : 0] for the match of a pattern
    in a line of statistics *)
Definition countOf (pattern : list RegExpTerm) (stat : JsString) : JsInteger :=
  match regExpExec pattern stat with
  | Some (captured :: _) =>
      if nonEmpty captured then parseInt captured else Whole 0
  | _ => Whole 0
  end.

(** [execAsync(command).catch(() => ({ stdout: '' }))] *)
Definition shortstat (command : JsString) : Sh JsString :=
  shTry (execAsync command) (shRet []).

Definition getGitChanges : Sh (option Changes) :=
  shTry
    (let totalInsertions : JsInteger := Whole 0 in
     let totalDeletions : JsInteger := Whole 0 in
     unstagedResult <~ shortstat (str "git diff --shortstat") ;;
     stagedResult <~ shortstat (str "git diff --cached --shortstat") ;;
     let unstagedStat := trim unstagedResult in
     let stagedStat := trim stagedResult in
     let '(totalInsertions, totalDeletions) :=
       if nonEmpty unstagedStat
       then (plus totalInsertions (countOf insertionPattern unstagedStat),
             plus totalDeletions (countOf deletionPattern unstagedStat))
       else (totalInsertions, totalDeletions) in
     let '(totalInsertions, totalDeletions) :=
       if nonEmpty stagedStat
       then (plus totalInsertions (countOf insertionPattern stagedStat),
             plus totalDeletions (countOf deletionPattern stagedStat))
       else (totalInsertions, totalDeletions) in
     shRet (Some {| insertions := totalInsertions; deletions := totalDeletions |}))
    (shRet None).

Definition render (item : WidgetItem) (context : RenderContext)
  : Sh (option JsString) :=
  if isPreview context then shRet (Some (str "(+42,-10)"))
  else
    changes <~ getGitChanges ;;
    match changes with
    | Some found =>
        shRet (Some (str "(+" ++ numberToString (insertions found)
                     ++ str ",-" ++ numberToString (deletions found) ++ str ")"))
    | None =>
        shRet (if hideNoGit item then None else Some (str "(no git)"))
    end.

End GitChangesWidget.

(** ** The terminal utilities *)

(** [!isNaN(parsed) && parsed > 0] *)
Definition isWidth (parsed : JsInteger) : bool :=
  match parsed with
  | NaN => false
  | Whole n => n >? 0
  | Infinite negative => negb negative
  end.

Definition ttyCommand : JsString := str "ps -o tty= -p $(ps -o ppid= -p $$)".

(** [`stty size < /dev/${tty} | awk '{print $2}'`] *)
Definition sttyCommand (tty : JsString) : JsString :=
  str "stty size < /dev/" ++ tty ++ str " | awk '{print $2}'".

Definition tputCommand : JsString := str "tput cols 2>/dev/null".

(** Gets the terminal width.  Each [try] block yields the value its
    [return] gives, or nothing when control leaves it at its end or
    through its [catch]. *)
Definition getTerminalWidth : Sh (option JsInteger) :=
  fromTty <~ shTry
    (ttyOutput <~ execAsync ttyCommand ;;
     let tty := trim ttyOutput in
     if nonEmpty tty && negb (jsStringEqb tty (str "??"))
        && negb (jsStringEqb tty (str "?"))
     then
       widthOutput <~ execAsync (sttyCommand tty) ;;
       let width := trim widthOutput in
       let parsed := parseInt width in
       if isWidth parsed then shRet (Some parsed) else shRet None
     else shRet None)
    (shRet None) ;;
  match fromTty with
  | Some parsed => shRet (Some parsed)
  | None =>
      fromTput <~ shTry
        (stdout <~ execAsync tputCommand ;;
         let width := trim stdout in
         let parsed := parseInt width in
         if isWidth parsed then shRet (Some parsed) else shRet None)
        (shRet None) ;;
      match fromTput with
      | Some parsed => shRet (Some parsed)
      | None => shRet None
      end
  end.

(** Checks whether the terminal width can be detected. *)
Definition canDetectTerminalWidth : Sh bool :=
  fromTty <~ shTry
    (ttyOutput <~ execAsync ttyCommand ;;
     let tty := trim ttyOutput in
     if nonEmpty tty && negb (jsStringEqb tty (str "??"))
        && negb (jsStringEqb tty (str "?"))
     then
       widthOutput <~ execAsync (sttyCommand tty) ;;
       let width := trim widthOutput in
       let parsed := parseInt width in
       if isWidth parsed then shRet (Some true) else shRet None
     else shRet None)
    (shRet None) ;;
  match fromTty with
  | Some answer => shRet answer
  | None =>
      shTry
        (stdout <~ execAsync tputCommand ;;
         let width := trim stdout in
         let parsed := parseInt width in
         shRet (isWidth parsed))
        (shRet false)
  end.

(** What [getPackageVersion] takes from its build and its platform: the
    text put in place of [__PACKAGE_VERSION__], the directory of the
    module, and which paths exist. *)
Record Package : Type := {
  PACKAGE_VERSION : JsString;
  dirname : string;
  existsSync : string -> bool
}.

(** [/^\d+\.\d+\.\d+/] *)
Definition versionPattern : list RegExpTerm :=
  [Digits; Char 46; Digits; Char 46; Digits].

(** The loop [for (const packageJsonPath of possiblePaths)] of
    [getPackageVersion]: the value returned, or nothing when the loop
    ends.  [readFileSync] is the read of the world. *)
Fixpoint firstPackageVersion (P : Package) (possiblePaths : list string)
  : M (option JsValue) :=
  match possiblePaths with
  | [] => ret None
  | packageJsonPath :: later =>
      found <- tryCatch
        (if existsSync P packageJsonPath then
           content <- readFile packageJsonPath ;;
           packageJson <- liftC (JSON_parse content) ;;
           version <- liftC (getProp packageJson (str "version")) ;;
           (* packageJson.version ?? '' *)
           ret (Some (match version with
                      | JUndefined | JNull => JStr []
                      | _ => version
                      end))
         else ret None)
        (ret None) ;;
      match found with
      | Some version => ret (Some version)
      | None => firstPackageVersion P later
      end
  end.

Definition getPackageVersion (H : Host) (P : Package) : M JsValue :=
  if match matchHere versionPattern (PACKAGE_VERSION P) with
     | Some _ => true
     | None => false
     end
  then ret (JStr (PACKAGE_VERSION P))
  else
    let possiblePaths :=
      [ path_join H [dirname P; ".."; ".."; "package.json"]%string;
        path_join H [dirname P; ".."; "package.json"]%string ] in
    found <- firstPackageVersion P possiblePaths ;;
    match found with
    | Some version => ret version
    | None => ret (JStr [])
    end.

(** ** Notions used to state the properties of the widgets *)

(** What the editor action [toggle-nogit] of a widget does, the widget
    being given by its [handleEditorAction] and its [getEditorDisplay]:
    no other action is handled; the action inverts the setting the widget
    reads as [hideNoGit] and leaves everything else in the item as it
    was; the editor shows the modifier exactly while the setting is
    on. *)
Definition togglesNoGit (handle : JsString -> WidgetItem -> option WidgetItem)
                        (display : WidgetItem -> WidgetEditorDisplay) : Prop :=
  forall action item,
    modifierText (display item)
    = (if hideNoGit item then Some (str "(hide 'no git')") else None)
    /\ match handle action item with
       | None => action <> str "toggle-nogit"
       | Some item' =>
           action = str "toggle-nogit"
           /\ hideNoGit item' = negb (hideNoGit item)
           /\ rawValue item' = rawValue item
           /\ otherFields item' = otherFields item
           /\ forall key, key <> "hideNoGit"%string ->
                          default ∅ (metadata item') !! key
                          = default ∅ (metadata item) !! key
       end.

(** A command fails, or prints white space only. *)
Definition printsNothing (shell : Shell) (command : JsString) : Prop :=
  match shell command with
  | Normal stdout => trim stdout = []
  | Throw _ => True
  end.

(** A run of decimal digits that is not empty. *)
Definition isDigitRun (s : JsString) : Prop :=
  s <> [] /\ Forall (fun c => isDigit c = true) s.

(** The terminal that [ps] reports: nothing when the command fails. *)
Definition reportedTty (shell : Shell) : JsString :=
  match shell ttyCommand with
  | Normal ttyOutput => trim ttyOutput
  | Throw _ => []
  end.

(** A text that begins with three runs of digits separated by dots. *)
Definition looksLikeVersion (s : JsString) : Prop :=
  exists major minor patch rest,
    s = major ++ 46%N :: minor ++ 46%N :: patch ++ rest
    /\ isDigitRun major /\ isDigitRun minor /\ isDigitRun patch.

(** [needle] occurs in [s]. *)
Definition occursIn (needle s : JsString) : Prop :=
  exists before after, s = before ++ needle ++ after.

(** A number that is not negative and not NaN. *)
Definition notNegative (x : JsInteger) : Prop :=
  match x with
  | NaN => False
  | Whole n => 0 <= n
  | Infinite negative => negative = false
  end.

(** The number a run of decimal digits denotes, read after [acc]. *)
Definition valueOf (acc : Z) (digits : JsString) : Z :=
  fold_left (fun v c => 10 * v + (Z.of_N c - 48)) digits acc.

(** The text does not begin with a digit. *)
Definition noDigitAhead (s : JsString) : Prop :=
  match s with
  | [] => True
  | c :: _ => isDigit c = false
  end.

(** ** Concrete shells and the output of git *)

(** A shell in which one command prints the given text, and every other
    command fails. *)
Definition shellPrinting (command stdout : JsString) : Shell :=
  fun asked => if jsStringEqb asked command then Normal stdout else Throw SystemError.

(** A shell in which the two [git diff] commands print the given texts,
    and every other command fails. *)
Definition gitDiffShell (unstaged staged : JsString) : Shell :=
  fun command =>
    if jsStringEqb command (str "git diff --shortstat") then Normal unstaged
    else if jsStringEqb command (str "git diff --cached --shortstat") then Normal staged
    else Throw SystemError.

(** The line [git diff --shortstat] prints for a change of [files] files
    with the given numbers of inserted and deleted lines: a part is left
    out when its number is zero and the other one is not. *)
Definition shortstatLine (files insertions deletions : Z) : JsString :=
  str " " ++ decimal files
  ++ str (if files =? 1 then " file changed" else " files changed")
  ++ (if negb (insertions =? 0) || (deletions =? 0)
      then str ", " ++ decimal insertions
           ++ str (if insertions =? 1 then " insertion(+)" else " insertions(+)")
      else [])
  ++ (if negb (deletions =? 0) || (insertions =? 0)
      then str ", " ++ decimal deletions
           ++ str (if deletions =? 1 then " deletion(-)" else " deletions(-)")
      else [])
  ++ [10%N].

(** What a [git diff --shortstat] command prints: nothing when nothing
    has changed, the line of statistics otherwise. *)
Definition shortstatOutput (stat : option (Z * Z * Z)) : JsString :=
  match stat with
  | None => []
  | Some (files, insertions, deletions) => shortstatLine files insertions deletions
  end.

Definition insertedLines (stat : option (Z * Z * Z)) : Z :=
  match stat with
  | None => 0
  | Some (_, insertions, _) => insertions
  end.

Definition deletedLines (stat : option (Z * Z * Z)) : Z :=
  match stat with
  | None => 0
  | Some (_, _, deletions) => deletions
  end.

(** The numbers of a line of statistics: at least one file, and no
    negative count. *)
Definition wellFormedStat (stat : option (Z * Z * Z)) : Prop :=
  match stat with
  | None => True
  | Some (files, insertions, deletions) =>
      1 <= files /\ 0 <= insertions /\ 0 <= deletions
  end.


(* ================================================================== *)
(** * Facts about the runtime *)
(* ================================================================== *)

Module ESFacts.

Ltac zdiv := Z.div_mod_to_equations; lia.

(** ** The range of time values *)

Lemma TimeClip_valid (t : Z) : validTime t -> TimeClip t = Some t.
Proof.
  unfold validTime, TimeClip. intros Ht.
  destruct (Z.leb_spec (Z.abs t) maxTimeValue); [reflexivity | lia].
Qed.

Lemma TimeClip_invalid (t : Z) : ~ validTime t -> TimeClip t = None.
Proof.
  unfold validTime, TimeClip. intros Ht.
  destruct (Z.leb_spec (Z.abs t) maxTimeValue); [lia | reflexivity].
Qed.

Lemma TimeClip_some (t v : Z) : TimeClip t = Some v -> v = t /\ validTime t.
Proof.
  unfold validTime, TimeClip.
  destruct (Z.leb_spec (Z.abs t) maxTimeValue); [|discriminate].
  intros Heq. inversion Heq. lia.
Qed.

Lemma validTime_dec (t : Z) : validTime t \/ ~ validTime t.
Proof. unfold validTime. lia. Qed.

Lemma YearFromTime_spec (t : Z) :
  DayFromYear (YearFromTime t) <= Day t < DayFromYear (YearFromTime t + 1).
Proof.
  unfold YearFromTime. generalize (Day t) as d. intros d. cbv zeta.
  destruct (Z.ltb_spec d (DayFromYear (1970 + 400 * d / 146097))) as [Hlt | Hge].
  - unfold DayFromYear in *. zdiv.
  - destruct (Z.leb_spec (DayFromYear (1970 + 400 * d / 146097 + 1)) d) as [Hle | Hgt];
      unfold DayFromYear in *; zdiv.
Qed.

Lemma DayFromYear_succ (y : Z) :
  DayFromYear (y + 1) = DayFromYear y + DaysInYear y.
Proof.
  unfold DayFromYear, DaysInYear.
  destruct (Z.eqb_spec (y mod 4) 0); simpl;
    [destruct (Z.eqb_spec (y mod 100) 0); simpl;
      [destruct (Z.eqb_spec (y mod 400) 0); simpl|]|]; zdiv.
Qed.

Lemma DaysInYear_cases (y : Z) : DaysInYear y = 365 \/ DaysInYear y = 366.
Proof.
  unfold DaysInYear.
  destruct (y mod 4 =? 0), (y mod 100 =? 0), (y mod 400 =? 0); simpl; auto.
Qed.

Lemma DayWithinYear_range (t : Z) :
  0 <= DayWithinYear t < DaysInYear (YearFromTime t).
Proof.
  unfold DayWithinYear.
  pose proof (YearFromTime_spec t) as Hy.
  rewrite DayFromYear_succ in Hy. lia.
Qed.

Lemma InLeapYear_cases (t : Z) : InLeapYear t = 0 \/ InLeapYear t = 1.
Proof.
  unfold InLeapYear. destruct (DaysInYear_cases (YearFromTime t)); lia.
Qed.

Ltac month_cases :=
  repeat match goal with
         | |- context [if ?a <? ?b then _ else _] => destruct (Z.ltb_spec a b)
         | |- context [if ?a =? ?b then _ else _] => destruct (Z.eqb_spec a b)
         end.

Lemma MonthFromTime_range (t : Z) : 0 <= MonthFromTime t <= 11.
Proof. unfold MonthFromTime. cbv zeta. month_cases; lia. Qed.

Lemma DateFromTime_range (t : Z) :
  1 <= DateFromTime t <= DaysInMonth (YearFromTime t) (MonthFromTime t).
Proof.
  pose proof (DayWithinYear_range t) as Hd.
  pose proof (InLeapYear_cases t) as Hl.
  unfold DateFromTime, DaysInMonth, MonthFromTime.
  fold (InLeapYear t). cbv zeta.
  generalize dependent (DayWithinYear t). intros d Hd.
  unfold InLeapYear in *.
  generalize dependent (DaysInYear (YearFromTime t)). intros n Hd Hl.
  destruct (Z.ltb_spec d 31); [unfold daysBeforeMonth; simpl; lia|].
  destruct (Z.ltb_spec d (59 + (n - 365))); [unfold daysBeforeMonth; simpl; lia|].
  destruct (Z.ltb_spec d (90 + (n - 365))); [unfold daysBeforeMonth; simpl; lia|].
  destruct (Z.ltb_spec d (120 + (n - 365))); [unfold daysBeforeMonth; simpl; lia|].
  destruct (Z.ltb_spec d (151 + (n - 365))); [unfold daysBeforeMonth; simpl; lia|].
  destruct (Z.ltb_spec d (181 + (n - 365))); [unfold daysBeforeMonth; simpl; lia|].
  destruct (Z.ltb_spec d (212 + (n - 365))); [unfold daysBeforeMonth; simpl; lia|].
  destruct (Z.ltb_spec d (243 + (n - 365))); [unfold daysBeforeMonth; simpl; lia|].
  destruct (Z.ltb_spec d (273 + (n - 365))); [unfold daysBeforeMonth; simpl; lia|].
  destruct (Z.ltb_spec d (304 + (n - 365))); [unfold daysBeforeMonth; simpl; lia|].
  destruct (Z.ltb_spec d (334 + (n - 365))); unfold daysBeforeMonth; simpl; lia.
Qed.

Lemma MakeDay_fields (t : Z) :
  MakeDay (YearFromTime t) (MonthFromTime t) (DateFromTime t) = Day t.
Proof.
  pose proof (MonthFromTime_range t) as Hm.
  unfold MakeDay. cbv zeta.
  rewrite Z.div_small, Z.mod_small, Z.add_0_r by lia.
  unfold DateFromTime, InLeapYear, DayWithinYear. lia.
Qed.

Lemma MakeTime_fields (t : Z) :
  MakeTime (HourFromTime t) (MinFromTime t) (SecFromTime t) (msFromTime t)
  = TimeWithinDay t.
Proof.
  unfold MakeTime, HourFromTime, MinFromTime, SecFromTime, msFromTime,
    TimeWithinDay, msPerHour, msPerMinute, msPerSecond, msPerDay. zdiv.
Qed.

Lemma MakeDate_fields (t : Z) : MakeDate (Day t) (TimeWithinDay t) = t.
Proof. unfold MakeDate, Day, TimeWithinDay, msPerDay. zdiv. Qed.

Lemma time_fields_range (t : Z) :
  0 <= HourFromTime t <= 23 /\ 0 <= MinFromTime t <= 59 /\
  0 <= SecFromTime t <= 59 /\ 0 <= msFromTime t <= 999.
Proof.
  unfold HourFromTime, MinFromTime, SecFromTime, msFromTime,
    msPerHour, msPerMinute, msPerSecond. zdiv.
Qed.

Lemma YearFromTime_range (t : Z) :
  validTime t -> -271821 <= YearFromTime t <= 275760.
Proof.
  unfold validTime, maxTimeValue. intros Ht.
  pose proof (YearFromTime_spec t) as Hy.
  assert (-100000000 <= Day t <= 100000000) as Hd
      by (unfold Day, msPerDay; zdiv).
  revert Hy. generalize (YearFromTime t). intros y Hy.
  unfold DayFromYear in Hy. zdiv.
Qed.

(** [floorToHour] is the largest multiple of an hour that is not after
    the timestamp. *)
Lemma setUTCMinutes_zero (t : Z) :
  setUTCMinutes t 0 0 0 = msPerHour * (t / msPerHour).
Proof.
  unfold setUTCMinutes, MakeDate, MakeTime, Day, HourFromTime,
    msPerDay, msPerHour, msPerMinute, msPerSecond. zdiv.
Qed.

(** ** Decimal fields *)

Lemma isDigit_digitChar (d : Z) : 0 <= d <= 9 -> isDigit (digitChar d) = true.
Proof.
  intros Hd. unfold isDigit, digitChar.
  apply andb_true_intro; split; apply N.leb_le; lia.
Qed.

Lemma digitChar_value (d : Z) : 0 <= d <= 9 -> Z.of_N (digitChar d) - 48 = d.
Proof. intros Hd. unfold digitChar. lia. Qed.

Lemma readDigits_snoc (n : nat) :
  forall acc s a c r,
    readDigits n acc s = Some (a, c :: r) -> isDigit c = true ->
    readDigits (S n) acc s = Some (10 * a + (Z.of_N c - 48), r).
Proof.
  induction n as [|n IH]; intros acc s a c r Hread Hc.
  - simpl in Hread. inversion Hread; subst. simpl. now rewrite Hc.
  - destruct s as [|c0 s]; [discriminate|].
    change (readDigits (S (S n)) acc (c0 :: s))
      with (if isDigit c0 then readDigits (S n) (10 * acc + (Z.of_N c0 - 48)) s else None).
    simpl in Hread. destruct (isDigit c0); [|discriminate].
    now apply IH.
Qed.

Lemma readDigits_decimalDigits (n : nat) :
  forall v acc rest,
    0 <= v < 10 ^ Z.of_nat n ->
    readDigits n acc (decimalDigits n v ++ rest) = Some (acc * 10 ^ Z.of_nat n + v, rest).
Proof.
  induction n as [|n IH]; intros v acc rest Hv.
  - simpl in *. f_equal. f_equal. lia.
  - rewrite Nat2Z.inj_succ, Z.pow_succ_r in * by lia.
    change (decimalDigits (S n) v) with (decimalDigits n (v / 10) ++ [digitChar (v mod 10)]).
    rewrite <- app_assoc. simpl app at 2.
    assert (0 <= v mod 10 <= 9) as Hd by zdiv.
    erewrite readDigits_snoc.
    + f_equal. f_equal. rewrite digitChar_value by exact Hd.
      instantiate (1 := acc * 10 ^ Z.of_nat n + v / 10). zdiv.
    + apply IH. zdiv.
    + now apply isDigit_digitChar.
Qed.

(** ** The ISO format read back *)

Lemma decimalDigits_head (n : nat) (v : Z) :
  exists d r, 0 <= d <= 9 /\ decimalDigits (S n) v = digitChar d :: r.
Proof.
  revert v. induction n as [|n IH]; intros v.
  - exists (v mod 10), []. split; [zdiv | reflexivity].
  - destruct (IH (v / 10)) as (d & r & Hd & Heq).
    exists d, (r ++ [digitChar (v mod 10)]). split; [exact Hd|].
    change (decimalDigits (S (S n)) v)
      with (decimalDigits (S n) (v / 10) ++ [digitChar (v mod 10)]).
    now rewrite Heq.
Qed.

Opaque decimalDigits.

Lemma readYear_isoYear (y : Z) (rest : JsString) :
  -999999 <= y <= 999999 ->
  readYear (isoYear y ++ rest) = Some (y, rest).
Proof.
  intros Hy. unfold isoYear.
  destruct (Z.leb_spec 0 y) as [Hpos | Hneg]; simpl andb.
  - destruct (Z.leb_spec y 9999) as [Hsmall | Hbig].
    + destruct (decimalDigits_head 3 y) as (d & r & Hd & Heq).
      unfold readYear. 
      assert (Hhead : decimalDigits 4 y ++ rest = digitChar d :: (r ++ rest))
        by now rewrite Heq.
      rewrite Hhead.
      assert ((digitChar d =? 43)%N = false) as ->
          by (apply N.eqb_neq; unfold digitChar; lia).
      assert ((digitChar d =? 45)%N = false) as ->
          by (apply N.eqb_neq; unfold digitChar; lia).
      rewrite <- Hhead. rewrite readDigits_decimalDigits by (simpl; lia).
      f_equal.
    + change (str "+") with [43%N]. simpl app. unfold readYear.
      rewrite N.eqb_refl. rewrite readDigits_decimalDigits by (simpl; lia).
      f_equal.
  - change (str "-") with [45%N]. simpl app. unfold readYear.
    change ((45 =? 43)%N) with false. cbv iota. rewrite N.eqb_refl.
    rewrite readDigits_decimalDigits by (simpl; lia).
    destruct (Z.eqb_spec (0 * 10 ^ Z.of_nat 6 + - y) 0) as [H0 | H0]; [lia|].
    f_equal. f_equal. lia.
Qed.

Lemma parseIsoUtc_isoFormat (t : Z) :
  validTime t -> parseIsoUtc (isoFormat t) = Some t.
Proof.
  intros Ht.
  pose proof (YearFromTime_range t Ht) as Hy.
  pose proof (MonthFromTime_range t) as Hm.
  pose proof (DateFromTime_range t) as Hd.
  pose proof (time_fields_range t) as (Hh & Hmi & Hs & Hms).
  assert (DaysInMonth (YearFromTime t) (MonthFromTime t) <= 31) as Hdim.
  { unfold DaysInMonth.
    destruct (DaysInYear_cases (YearFromTime t)) as [-> | ->];
      unfold daysBeforeMonth; month_cases; lia. }
  unfold parseIsoUtc, isoFormat.
  rewrite readYear_isoYear by lia.
  change (str "-") with [45%N]. change (str "T") with [84%N].
  change (str ":") with [58%N]. change (str ".") with [46%N].
  change (str "Z") with [90%N].
  repeat (simpl app; unfold expectChar; rewrite N.eqb_refl;
          rewrite readDigits_decimalDigits by (simpl; lia)).
  simpl app.
  replace (0 * 10 ^ Z.of_nat 2 + (MonthFromTime t + 1) - 1) with (MonthFromTime t) by lia.
  replace (0 * 10 ^ Z.of_nat 2 + (MonthFromTime t + 1)) with (MonthFromTime t + 1) by lia.
  replace (0 * 10 ^ Z.of_nat 2 + DateFromTime t) with (DateFromTime t) by lia.
  replace (0 * 10 ^ Z.of_nat 2 + HourFromTime t) with (HourFromTime t) by lia.
  replace (0 * 10 ^ Z.of_nat 2 + MinFromTime t) with (MinFromTime t) by lia.
  replace (0 * 10 ^ Z.of_nat 2 + SecFromTime t) with (SecFromTime t) by lia.
  replace (0 * 10 ^ Z.of_nat 3 + msFromTime t) with (msFromTime t) by lia.
  rewrite MakeDay_fields, MakeTime_fields, MakeDate_fields.
  repeat match goal with
         | |- context [?a <=? ?b] =>
             let H := fresh in destruct (Z.leb_spec a b) as [H | H]; [|lia]
         end.
  reflexivity.
Qed.

Transparent decimalDigits.

Lemma DateParse_toISOString (hostParse : JsString -> option Z) (t : Z) :
  validTime t ->
  exists iso, toISOString t = Normal iso /\ DateParse hostParse iso = Some t.
Proof.
  intros Ht. unfold toISOString, TimeClip.
  assert ((Z.abs t <=? maxTimeValue) = true) as Hclip
      by (apply Z.leb_le; unfold validTime in Ht; lia).
  rewrite Hclip. exists (isoFormat t). split; [reflexivity|].
  unfold DateParse. rewrite parseIsoUtc_isoFormat by exact Ht.
  unfold TimeClip. now rewrite Hclip.
Qed.

(** ** The cache record read back *)


Lemma decimalDigits_isoChars (n : nat) (v : Z) :
  Forall isoChar (decimalDigits n v).
Proof.
  revert v. induction n as [|n IH]; intros v; simpl.
  - constructor.
  - apply Forall_app. split; [apply IH|].
    constructor; [|constructor].
    assert (0 <= v mod 10 <= 9) by zdiv.
    unfold isoChar, digitChar. lia.
Qed.

Lemma isoFormat_isoChars (t : Z) : Forall isoChar (isoFormat t).
Proof.
  unfold isoFormat, isoYear.
  assert (forall s, Forall isoChar s -> forall c, isoChar c -> forall r,
             Forall isoChar r -> Forall isoChar (s ++ c :: r)) as Hstep.
  { intros s Hs c Hc r Hr. apply Forall_app. split; [exact Hs|]. now constructor. }
  assert (isoChar 43 /\ isoChar 45 /\ isoChar 84 /\ isoChar 58 /\ isoChar 46
          /\ isoChar 90) as (Hplus & Hminus & HT & Hcolon & Hdot & HZ)
      by (unfold isoChar; lia).
  change (str "-") with [45%N]. change (str "T") with [84%N].
  change (str ":") with [58%N]. change (str ".") with [46%N].
  change (str "Z") with [90%N]. change (str "+") with [43%N].
  apply Hstep; [| exact Hminus |].
  - destruct ((0 <=? YearFromTime t) && (YearFromTime t <=? 9999));
      [|destruct (0 <=? YearFromTime t)];
      try (constructor; [assumption|]); apply decimalDigits_isoChars.
  - repeat (apply Hstep; [apply decimalDigits_isoChars | assumption |]).
    constructor.
Qed.

Lemma quoteChars_isoChars (s : JsString) :
  Forall isoChar s -> quoteChars s = s.
Proof.
  induction 1 as [|c r Hc Hr IH]; [reflexivity|].
  unfold isoChar in Hc. simpl.
  assert (shortEscape c = None) as ->.
  { unfold shortEscape.
    repeat match goal with
           | |- context [(c =? ?k)%N] => destruct (N.eqb_spec c k); [lia|]
           end. reflexivity. }
  destruct (N.ltb_spec c 32); [lia|].
  unfold isLeadingSurrogate, isTrailingSurrogate.
  destruct (N.leb_spec 55296 c); [lia|].
  destruct (N.leb_spec 56320 c); [lia|]. simpl.
  now rewrite IH.
Qed.

Lemma parseStringBody_isoChars (body rest : JsString) :
  Forall isoChar body ->
  parseStringBody (body ++ 34%N :: rest) = Some (body, rest).
Proof.
  induction 1 as [|c r Hc Hr IH]; [reflexivity|].
  unfold isoChar in Hc. simpl.
  destruct (N.eqb_spec c 34); [lia|].
  destruct (N.eqb_spec c 92); [lia|].
  destruct (N.ltb_spec c 32); [lia|].
  now rewrite IH.
Qed.

Lemma JSON_parse_cache_record (iso : JsString) :
  Forall isoChar iso ->
  JSON_parse (JSON_stringify_strings [(str "startTime", iso)])
  = Normal (JObj [(str "startTime", JStr iso)]).
Proof.
  intros Hiso.
  unfold JSON_stringify_strings, serializeStringProps, QuoteJSONString.
  rewrite (quoteChars_isoChars iso Hiso).
  set (text := str "{" ++ _).
  assert (text = 123%N :: 34%N :: str "startTime"
                 ++ 34%N :: 58%N :: 34%N :: iso ++ [34%N; 125%N]) as Htext.
  { subst text. change (quoteChars (str "startTime")) with (str "startTime").
    change (str "{") with [123%N]. change (str ":") with [58%N].
    change (str "}") with [125%N].
    repeat (cbn [app]; rewrite <- ?app_assoc). reflexivity. }
  unfold JSON_parse, parseFuel.
  destruct (length text + length text)%nat as [|fuel] eqn:Hfuel.
  { rewrite Htext in Hfuel. simpl in Hfuel. discriminate. }
  rewrite Htext.
  assert (parseValue (S fuel) (34%N :: iso ++ [34%N; 125%N])
          = Some (JStr iso, [125%N])) as Hvalue.
  { cbn - [parseStringBody]. rewrite (parseStringBody_isoChars iso [125%N] Hiso).
    reflexivity. }
  change (parseValue (S (S (S fuel))) ?s)
    with (match parseMembers (S (S fuel)) (34%N :: str "startTime"
                 ++ 34%N :: 58%N :: 34%N :: iso ++ [34%N; 125%N]) with
          | Some (ms, rest) => Some (JObj ms, rest)
          | None => None
          end).
  assert (parseMembers (S (S fuel)) (34%N :: str "startTime"
                 ++ 34%N :: 58%N :: 34%N :: iso ++ [34%N; 125%N])
          = Some ([(str "startTime", JStr iso)], [])) as ->.
  { change (parseMembers (S (S fuel)) ?s)
      with (match parseValue (S fuel) (34%N :: iso ++ [34%N; 125%N]) with
            | None => None
            | Some (v, r3) =>
                match skipWs r3 with
                | c :: r4 =>
                    if (c =? 44)%N then
                      match parseMembers (S fuel) r4 with
                      | Some (ms, rest) => Some ((str "startTime", v) :: ms, rest)
                      | None => None
                      end
                    else if (c =? 125)%N then Some ([(str "startTime", v)], r4)
                    else None
                | [] => None
                end
            end).
    rewrite Hvalue. reflexivity. }
  reflexivity.
Qed.

(** ** The fuel of the JSON parser *)

Lemma skipWs_length (s : JsString) : (length (skipWs s) <= length s)%nat.
Proof.
  induction s as [|c r IH]; simpl; [lia|].
  destruct (isJsonWs c); simpl; lia.
Qed.

Lemma skipWs_cons_length (s : JsString) (c : N) (r : JsString) :
  skipWs s = c :: r -> (length r < length s)%nat.
Proof.
  intros Hs. pose proof (skipWs_length s) as Hl. rewrite Hs in Hl. simpl in Hl. lia.
Qed.

Lemma parseStringBody_length_upto (n : nat) :
  forall s body rest,
    (length s <= n)%nat -> parseStringBody s = Some (body, rest) ->
    (length rest < length s)%nat.
Proof.
  induction n as [|n IH]; intros s body rest Hn Hparse;
    destruct s as [|c r]; try discriminate; simpl in Hn; [lia|].
  cbn [parseStringBody] in Hparse.
  destruct (c =? 34)%N.
  { inversion Hparse; subst. simpl. lia. }
  destruct (c =? 92)%N.
  - destruct r as [|e r1]; [discriminate|].
    destruct (e =? 117)%N.
    + destruct r1 as [|a [|b [|c1 [|d r2]]]]; try discriminate.
      destruct (hex4 a b c1 d); [|discriminate].
      destruct (parseStringBody r2) as [[body' rest']|] eqn:Hrec; [|discriminate].
      inversion Hparse; subst. apply IH in Hrec; simpl in *; lia.
    + destruct (simpleEscape e); [|discriminate].
      destruct (parseStringBody r1) as [[body' rest']|] eqn:Hrec; [|discriminate].
      inversion Hparse; subst. apply IH in Hrec; simpl in *; lia.
  - destruct (c <? 32)%N; [discriminate|].
    destruct (parseStringBody r) as [[body' rest']|] eqn:Hrec; [|discriminate].
    inversion Hparse; subst. apply IH in Hrec; simpl in *; lia.
Qed.

Lemma parseStringBody_length (s body rest : JsString) :
  parseStringBody s = Some (body, rest) -> (length rest < length s)%nat.
Proof. apply (parseStringBody_length_upto (length s)). lia. Qed.

Lemma readDigitRun_length (s : JsString) :
  forall acc len a l r, readDigitRun s acc len = (a, l, r) ->
                        (length r <= length s)%nat.
Proof.
  induction s as [|c s IH]; intros acc len a l r Hrun; simpl in Hrun.
  - inversion Hrun; subst. simpl. lia.
  - destruct (isDigit c).
    + apply IH in Hrun. simpl. lia.
    + inversion Hrun; subst. simpl. lia.
Qed.

Lemma parseNumber_length (s : JsString) (n : JsNumber) (rest : JsString) :
  parseNumber s = Some (n, rest) -> (length rest < length s)%nat.
Proof.
  unfold parseNumber. intros Hparse.
  destruct (match s with
            | [] => (1, s)
            | c :: r => if (c =? 45)%N then (-1, r) else (1, s)
            end) as [sign s1] eqn:Hsign.
  assert (length s1 <= length s)%nat as Hs1.
  { destruct s as [|c r]; [inversion Hsign; subst; lia|].
    destruct (c =? 45)%N; inversion Hsign; subst; simpl; lia. }
  destruct s1 as [|c r]; [discriminate|].
  destruct (isDigit c) eqn:Hdigit; [|discriminate].
  simpl negb in Hparse. cbv iota in Hparse.
  destruct (if (c =? 48)%N then (0, 1, r) else readDigitRun (c :: r) 0 0)
    as [[int ilen] s2] eqn:Hint.
  assert (length s2 <= length r)%nat as Hs2.
  { destruct (c =? 48)%N; [inversion Hint; subst; lia|].
    simpl in Hint. rewrite Hdigit in Hint.
    apply readDigitRun_length in Hint. exact Hint. }
  simpl in Hs1.
  destruct (match s2 with
            | [] => Some (int, 0, s2)
            | c2 :: r2 =>
                if (c2 =? 46)%N
                then let '(m, n0, s3) := readDigitRun r2 int 0 in
                     if n0 =? 0 then None else Some (m, n0, s3)
                else Some (int, 0, s2)
            end) as [[[m flen] s3]|] eqn:Hfrac; [|discriminate].
  assert (length s3 <= length s2)%nat as Hs3.
  { destruct s2 as [|c2 r2]; [inversion Hfrac; subst; lia|].
    destruct (c2 =? 46)%N; [|inversion Hfrac; subst; lia].
    destruct (readDigitRun r2 int 0) as [[m' n'] s3'] eqn:Hrun.
    destruct (n' =? 0); [discriminate|]. inversion Hfrac; subst.
    apply readDigitRun_length in Hrun. simpl. lia. }
  destruct s3 as [|c3 r3]; [inversion Hparse; subst; simpl in *; lia|].
  destruct ((c3 =? 101)%N || (c3 =? 69)%N);
    [|inversion Hparse; subst; simpl in *; lia].
  destruct (match r3 with
            | [] => (1, r3)
            | c4 :: r4 =>
                if (c4 =? 45)%N then (-1, r4)
                else if (c4 =? 43)%N then (1, r4) else (1, r3)
            end) as [esign s4] eqn:Hesign.
  assert (length s4 <= length r3)%nat as Hs4.
  { destruct r3 as [|c4 r4]; [inversion Hesign; subst; lia|].
    destruct (c4 =? 45)%N; [inversion Hesign; subst; simpl; lia|].
    destruct (c4 =? 43)%N; inversion Hesign; subst; simpl; lia. }
  destruct (readDigitRun s4 0 0) as [[e elen] s5] eqn:Hexp.
  destruct (elen =? 0); [discriminate|].
  inversion Hparse; subst. apply readDigitRun_length in Hexp.
  simpl in *. lia.
Qed.

Lemma stripPrefix_length (p : JsString) :
  forall s r, stripPrefix p s = Some r -> (length r + length p = length s)%nat.
Proof.
  induction p as [|c p IH]; intros s r Hstrip; simpl in Hstrip.
  - inversion Hstrip; subst. simpl. lia.
  - destruct s as [|c' s]; [discriminate|].
    destruct (c =? c')%N; [|discriminate].
    apply IH in Hstrip. simpl. lia.
Qed.

Lemma parseLiteral_length (s : JsString) (v : JsValue) (rest : JsString) :
  parseLiteral s = Some (v, rest) -> (length rest < length s)%nat.
Proof.
  unfold parseLiteral. intros Hparse.
  destruct (stripPrefix (str "true") s) as [r|] eqn:Htrue.
  { inversion Hparse; subst. apply stripPrefix_length in Htrue. simpl in Htrue. lia. }
  destruct (stripPrefix (str "false") s) as [r|] eqn:Hfalse.
  { inversion Hparse; subst. apply stripPrefix_length in Hfalse. simpl in Hfalse. lia. }
  destruct (stripPrefix (str "null") s) as [r|] eqn:Hnull.
  { inversion Hparse; subst. apply stripPrefix_length in Hnull. simpl in Hnull. lia. }
  destruct (parseNumber s) as [[n r]|] eqn:Hnum; [|discriminate].
  inversion Hparse; subst. now apply parseNumber_length in Hnum.
Qed.

(** A value, an element list and a member list each take at least one
    character. *)
Lemma parse_consumes (fuel : nat) :
  (forall s v rest, parseValue fuel s = Some (v, rest) ->
                    (length rest < length s)%nat)
  /\ (forall s vs rest, parseElements fuel s = Some (vs, rest) ->
                        (length rest < length s)%nat)
  /\ (forall s ms rest, parseMembers fuel s = Some (ms, rest) ->
                        (length rest < length s)%nat).
Proof.
  induction fuel as [|fuel (IHv & IHe & IHm)];
    [repeat split; intros; discriminate|].
  split; [|split].
  - intros s v rest Hparse. cbn [parseValue] in Hparse.
    destruct (skipWs s) as [|c r] eqn:Hws; [discriminate|].
    apply skipWs_cons_length in Hws.
    destruct (c =? 123)%N.
    { destruct (skipWs r) as [|c' r'] eqn:Hws'; [discriminate|].
      apply skipWs_cons_length in Hws'.
      destruct (c' =? 125)%N; [inversion Hparse; subst; lia|].
      destruct (parseMembers fuel r) as [[ms rest']|] eqn:Hm; [|discriminate].
      inversion Hparse; subst. apply IHm in Hm. lia. }
    destruct (c =? 91)%N.
    { destruct (skipWs r) as [|c' r'] eqn:Hws'; [discriminate|].
      apply skipWs_cons_length in Hws'.
      destruct (c' =? 93)%N; [inversion Hparse; subst; lia|].
      destruct (parseElements fuel r) as [[vs rest']|] eqn:He; [|discriminate].
      inversion Hparse; subst. apply IHe in He. lia. }
    destruct (c =? 34)%N.
    { destruct (parseStringBody r) as [[body rest']|] eqn:Hs; [|discriminate].
      inversion Hparse; subst. apply parseStringBody_length in Hs. lia. }
    apply parseLiteral_length in Hparse. simpl in Hparse. lia.
  - intros s vs rest Hparse. cbn [parseElements] in Hparse.
    destruct (parseValue fuel s) as [[v r]|] eqn:Hv; [|discriminate].
    apply IHv in Hv.
    destruct (skipWs r) as [|c r'] eqn:Hws; [discriminate|].
    apply skipWs_cons_length in Hws.
    destruct (c =? 44)%N.
    { destruct (parseElements fuel r') as [[vs' rest']|] eqn:He; [|discriminate].
      inversion Hparse; subst. apply IHe in He. lia. }
    destruct (c =? 93)%N; [|discriminate].
    inversion Hparse; subst. lia.
  - intros s ms rest Hparse. cbn [parseMembers] in Hparse.
    destruct (skipWs s) as [|q r0] eqn:Hws; [discriminate|].
    apply skipWs_cons_length in Hws.
    destruct (q =? 34)%N; [|discriminate]. simpl negb in Hparse. cbv iota in Hparse.
    destruct (parseStringBody r0) as [[key r1]|] eqn:Hkey; [|discriminate].
    apply parseStringBody_length in Hkey.
    destruct (skipWs r1) as [|colon r2] eqn:Hws1; [discriminate|].
    apply skipWs_cons_length in Hws1.
    destruct (colon =? 58)%N; [|discriminate]. simpl negb in Hparse. cbv iota in Hparse.
    destruct (parseValue fuel r2) as [[v r3]|] eqn:Hv; [|discriminate].
    apply IHv in Hv.
    destruct (skipWs r3) as [|c r4] eqn:Hws3; [discriminate|].
    apply skipWs_cons_length in Hws3.
    destruct (c =? 44)%N.
    { destruct (parseMembers fuel r4) as [[ms' rest']|] eqn:Hm; [|discriminate].
      inversion Hparse; subst. apply IHm in Hm. lia. }
    destruct (c =? 125)%N; [|discriminate].
    inversion Hparse; subst. lia.
Qed.

Lemma parseValue_step (fuel : nat) (s : JsString) :
  parseValue (S fuel) s
  = match skipWs s with
    | [] => None
    | c :: r =>
        if (c =? 123)%N then
          match skipWs r with
          | c' :: r' =>
              if (c' =? 125)%N then Some (JObj [], r')
              else match parseMembers fuel r with
                   | Some (ms, rest) => Some (JObj ms, rest)
                   | None => None
                   end
          | [] => None
          end
        else if (c =? 91)%N then
          match skipWs r with
          | c' :: r' =>
              if (c' =? 93)%N then Some (JArr [], r')
              else match parseElements fuel r with
                   | Some (vs, rest) => Some (JArr vs, rest)
                   | None => None
                   end
          | [] => None
          end
        else if (c =? 34)%N then
          match parseStringBody r with
          | Some (body, rest) => Some (JStr body, rest)
          | None => None
          end
        else parseLiteral (c :: r)
    end.
Proof. reflexivity. Qed.

Lemma parseElements_step (fuel : nat) (s : JsString) :
  parseElements (S fuel) s
  = match parseValue fuel s with
    | None => None
    | Some (v, r) =>
        match skipWs r with
        | c :: r' =>
            if (c =? 44)%N then
              match parseElements fuel r' with
              | Some (vs, rest) => Some (v :: vs, rest)
              | None => None
              end
            else if (c =? 93)%N then Some ([v], r')
            else None
        | [] => None
        end
    end.
Proof. reflexivity. Qed.

Lemma parseMembers_step (fuel : nat) (s : JsString) :
  parseMembers (S fuel) s
  = match skipWs s with
    | q :: r0 =>
        if negb (q =? 34)%N then None
        else
          match parseStringBody r0 with
          | None => None
          | Some (key, r1) =>
              match skipWs r1 with
              | colon :: r2 =>
                  if negb (colon =? 58)%N then None
                  else
                    match parseValue fuel r2 with
                    | None => None
                    | Some (v, r3) =>
                        match skipWs r3 with
                        | c :: r4 =>
                            if (c =? 44)%N then
                              match parseMembers fuel r4 with
                              | Some (ms, rest) => Some ((key, v) :: ms, rest)
                              | None => None
                              end
                            else if (c =? 125)%N then Some ([(key, v)], r4)
                            else None
                        | [] => None
                        end
                    end
              | [] => None
              end
          end
    | [] => None
    end.
Proof. reflexivity. Qed.

(** Past two units of fuel per character (and one more for a list), more
    fuel changes nothing. *)
Lemma parse_fuel_stable (fuel : nat) :
  (forall s, (2 * length s + 2 <= fuel)%nat ->
             parseValue (S fuel) s = parseValue fuel s)
  /\ (forall s, (2 * length s + 3 <= fuel)%nat ->
                parseElements (S fuel) s = parseElements fuel s)
  /\ (forall s, (2 * length s + 3 <= fuel)%nat ->
                parseMembers (S fuel) s = parseMembers fuel s).
Proof.
  induction fuel as [|fuel (IHv & IHe & IHm)];
    [repeat split; intros; lia|].
  destruct (parse_consumes fuel) as (Cv & Ce & Cm).
  split; [|split].
  - intros s Hfuel.
    rewrite (parseValue_step (S fuel) s), (parseValue_step fuel s).
    destruct (skipWs s) as [|c r] eqn:Hws; [reflexivity|].
    apply skipWs_cons_length in Hws.
    rewrite (IHm r) by lia. rewrite (IHe r) by lia. reflexivity.
  - intros s Hfuel.
    rewrite (parseElements_step (S fuel) s), (parseElements_step fuel s).
    rewrite (IHv s) by lia.
    destruct (parseValue fuel s) as [[v r]|] eqn:Hv; [|reflexivity].
    apply Cv in Hv.
    destruct (skipWs r) as [|c r'] eqn:Hws; [reflexivity|].
    apply skipWs_cons_length in Hws.
    rewrite (IHe r') by lia. reflexivity.
  - intros s Hfuel.
    rewrite (parseMembers_step (S fuel) s), (parseMembers_step fuel s).
    destruct (skipWs s) as [|q r0] eqn:Hws; [reflexivity|].
    apply skipWs_cons_length in Hws.
    destruct (negb (q =? 34)%N); [reflexivity|].
    destruct (parseStringBody r0) as [[key r1]|] eqn:Hkey; [|reflexivity].
    apply parseStringBody_length in Hkey.
    destruct (skipWs r1) as [|colon r2] eqn:Hws1; [reflexivity|].
    apply skipWs_cons_length in Hws1.
    destruct (negb (colon =? 58)%N); [reflexivity|].
    rewrite (IHv r2) by lia.
    destruct (parseValue fuel r2) as [[v r3]|] eqn:Hv; [|reflexivity].
    apply Cv in Hv.
    destruct (skipWs r3) as [|c r4] eqn:Hws3; [reflexivity|].
    apply skipWs_cons_length in Hws3.
    rewrite (IHm r4) by lia. reflexivity.
Qed.

(** The fuel [JSON_parse] supplies is enough: more of it gives the same
    parse. *)
Lemma parseFuel_suffices (text : JsString) (extra : nat) :
  parseValue (parseFuel text + extra) text = parseValue (parseFuel text) text.
Proof.
  induction extra as [|extra IH]; [now rewrite Nat.add_0_r|].
  rewrite Nat.add_succ_r, <- IH.
  apply (proj1 (parse_fuel_stable (parseFuel text + extra))).
  unfold parseFuel. lia.
Qed.

End ESFacts.

Import ESFacts.

(* ================================================================== *)
(** * Facts about the module *)
(* ================================================================== *)

(** ** The stable sort *)

Section Sorting.
Context {A : Type} (cmp : A -> A -> Z).
Hypothesis cmp_total : forall a b, cmp a b <= 0 \/ cmp b a <= 0.
Hypothesis cmp_trans : forall a b c, cmp a b <= 0 -> cmp b c <= 0 -> cmp a c <= 0.

Lemma insertBy_perm (x : A) (l : list A) : Permutation (insertBy cmp x l) (x :: l).
Proof.
  induction l as [|y r IH]; simpl; [reflexivity|].
  destruct (cmp x y <=? 0); [reflexivity|].
  rewrite IH. apply perm_swap.
Qed.

Lemma sortBy_perm (l : list A) : Permutation (sortBy cmp l) l.
Proof.
  induction l as [|x r IH]; simpl; [reflexivity|].
  unfold sortBy in *. simpl. rewrite insertBy_perm. now constructor.
Qed.

Lemma insertBy_sorted (x : A) (l : list A) :
  StronglySorted (fun a b => cmp a b <= 0) l ->
  StronglySorted (fun a b => cmp a b <= 0) (insertBy cmp x l).
Proof.
  induction 1 as [|y r Hr IH Hy]; simpl.
  - repeat constructor.
  - destruct (Z.leb_spec (cmp x y) 0) as [Hle | Hgt].
    + constructor; [now constructor|].
      constructor; [exact Hle|].
      eapply Forall_impl; [exact Hy|]. intros z Hz. simpl in Hz. eauto.
    + constructor; [exact IH|].
      rewrite insertBy_perm.
      constructor; [|exact Hy].
      destruct (cmp_total x y); [lia | assumption].
Qed.

Lemma sortBy_sorted (l : list A) :
  StronglySorted (fun a b => cmp a b <= 0) (sortBy cmp l).
Proof.
  induction l as [|x r IH]; simpl; [constructor|].
  now apply insertBy_sorted.
Qed.
End Sorting.

(** ** Worlds and traces *)

Lemma logs_nil (w : World) : logs w [] = w.
Proof. destruct w. unfold logs. simpl. now rewrite app_nil_r. Qed.

Lemma logs_logs (w : World) (a b : list Event) :
  logs (logs w a) b = logs w (a ++ b).
Proof. unfold logs. simpl. now rewrite app_assoc. Qed.

Lemma logged_logs (w : World) (e : Event) : logged w e = logs w [e].
Proof. reflexivity. Qed.

Lemma observes_refl (w : World) : observes w w.
Proof.
  split; try reflexivity. exists []. split; [now rewrite app_nil_r | constructor].
Qed.

Lemma observes_trans (w1 w2 w3 : World) :
  observes w1 w2 -> observes w2 w3 -> observes w1 w3.
Proof.
  intros [Hc1 Hd1 Hs1 Hg1 Hm1 Hw1 (ev1 & Ht1 & Hr1)]
         [Hc2 Hd2 Hs2 Hg2 Hm2 Hw2 (ev2 & Ht2 & Hr2)].
  split; try congruence.
  exists (ev1 ++ ev2). split.
  - rewrite Ht2, Ht1. now rewrite app_assoc.
  - now apply Forall_app.
Qed.

Lemma observes_logs (w : World) (events : list Event) :
  Forall readEvent events -> observes w (logs w events).
Proof. intros Hr. split; try reflexivity. now exists events. Qed.

Lemma observes_ticked (w : World) : observes w (ticked w).
Proof.
  split; try reflexivity. exists []. split; [simpl; now rewrite app_nil_r | constructor].
Qed.

(** ** Code that only looks at the world *)

Lemma readOnly_ret {A} (a : A) : readOnly (ret a).
Proof. intros w. apply observes_refl. Qed.

Lemma readOnly_liftC {A} (c : completion A) : readOnly (liftC c).
Proof. intros w. apply observes_refl. Qed.

Lemma readOnly_bind {A B} (m : M A) (k : A -> M B) :
  readOnly m -> (forall a, readOnly (k a)) -> readOnly (bind m k).
Proof.
  intros Hm Hk w. unfold bind. specialize (Hm w).
  destruct (m w) as [[a | e] w1]; simpl in *; [|exact Hm].
  eapply observes_trans; [exact Hm | apply Hk].
Qed.

Lemma readOnly_tryCatch {A} (body handler : M A) :
  readOnly body -> readOnly handler -> readOnly (tryCatch body handler).
Proof.
  intros Hb Hh w. unfold tryCatch. specialize (Hb w).
  destruct (body w) as [[a | e] w1]; simpl in *; [exact Hb|].
  eapply observes_trans; [exact Hb | apply Hh].
Qed.

Lemma readOnly_newDate : readOnly newDate.
Proof.
  intros w. simpl. eapply observes_trans; [|apply observes_ticked].
  apply (observes_logs w [EvClock]). repeat constructor.
Qed.

Lemma readOnly_readFile (path : string) : readOnly (readFile path).
Proof. intros w. simpl. apply (observes_logs w [EvReadFile path]). repeat constructor. Qed.

Lemma readOnly_glob (pattern cwd : string) : readOnly (glob pattern cwd).
Proof. intros w. simpl. apply (observes_logs w [EvGlob pattern cwd]). repeat constructor. Qed.

Lemma readOnly_stat (path : string) : readOnly (stat path).
Proof. intros w. simpl. apply (observes_logs w [EvStat path]). repeat constructor. Qed.

Lemma readOnly_promiseAll {A} (ms : list (M A)) :
  Forall readOnly ms -> readOnly (promiseAll ms).
Proof.
  induction 1 as [|m rest Hm Hrest IH]; [apply readOnly_ret|].
  intros w. simpl. specialize (Hm w).
  destruct (m w) as [c w1]. specialize (IH w1).
  destruct (promiseAll rest w1) as [cs w2]. simpl in *.
  eapply observes_trans; eassumption.
Qed.

(** ** Code that cannot throw *)

Lemma neverThrows_ret {A} (a : A) : neverThrows (ret a).
Proof. intros w. now exists a. Qed.

Lemma neverThrows_bind {A B} (m : M A) (k : A -> M B) :
  neverThrows m -> (forall a, neverThrows (k a)) -> neverThrows (bind m k).
Proof.
  intros Hm Hk w. unfold bind. destruct (Hm w) as [a Ha].
  destruct (m w) as [[a' | e] w1]; simpl in Ha; [|discriminate].
  apply Hk.
Qed.

Lemma neverThrows_tryCatch {A} (body handler : M A) :
  neverThrows handler -> neverThrows (tryCatch body handler).
Proof.
  intros Hh w. unfold tryCatch.
  destruct (body w) as [[a | e] w1]; [now exists a | apply Hh].
Qed.

Lemma neverThrows_newDate : neverThrows newDate.
Proof. intros w. now eexists. Qed.

Section Runs.
Variable H : Host.

(** ** What the scan of a file returns *)

Lemma getAllTimestampsFromFile_run (path : string) (w : World) :
  getAllTimestampsFromFile H path w
  = (Normal (fileTimestamps H (diskFiles w) path), logs w [EvReadFile path]).
Proof.
  unfold getAllTimestampsFromFile, tryCatch, bind, readFile, fileTimestamps.
  destruct (diskFiles w !! path); reflexivity.
Qed.

Lemma collectTimestamps_run (cutoffTime : Z) (filesWithStats : list FileStat) :
  forall w,
    collectTimestamps H cutoffTime filesWithStats w
    = (Normal (passTimestamps H (diskFiles w) cutoffTime filesWithStats),
       logs w (passReads cutoffTime filesWithStats)).
Proof.
  unfold passTimestamps, passReads.
  induction filesWithStats as [|f rest IH]; intros w; simpl.
  - unfold ret. now rewrite logs_nil.
  - destruct (mtime f <? cutoffTime); simpl.
    + unfold ret. now rewrite logs_nil.
    + unfold bind. rewrite getAllTimestampsFromFile_run, IH.
      unfold ret. simpl. now rewrite logs_logs.
Qed.

Lemma visited_recentFiles (cutoffTime : Z) (filesWithStats : list FileStat) :
  newestFirst filesWithStats ->
  visited cutoffTime filesWithStats = recentFiles cutoffTime filesWithStats.
Proof.
  unfold newestFirst, recentFiles. intros Hsorted.
  apply Sorted_StronglySorted in Hsorted; [|intros a b c; lia].
  induction Hsorted as [|f rest Hrest IH Hf]; simpl; [reflexivity|].
  destruct (Z.ltb_spec (mtime f) cutoffTime) as [Hold | Hnew].
  - destruct (Z.leb_spec cutoffTime (mtime f)); [lia|].
    clear IH Hrest. induction Hf as [|g rest Hg Hrest IH]; simpl; [reflexivity|].
    destruct (Z.leb_spec cutoffTime (mtime g)); [lia | exact IH].
  - destruct (Z.leb_spec cutoffTime (mtime f)); [|lia].
    now rewrite IH.
Qed.
End Runs.

Lemma sortBy_desc_head (ts : list Z) (m : Z) :
  In m ts -> (forall x, In x ts -> x <= m) ->
  head (sortBy (fun a b => b - a) ts) = Some m.
Proof.
  intros Hin Hmax.
  pose proof (sortBy_perm (fun a b : Z => b - a) ts) as Hperm.
  pose proof (sortBy_sorted (fun a b : Z => b - a)
                ltac:(intros; lia) ltac:(intros; lia) ts) as Hsorted.
  destruct (sortBy (fun a b => b - a) ts) as [|first others] eqn:Hs.
  - apply Permutation_nil in Hperm. subst ts. destruct Hin.
  - simpl. f_equal.
    assert (In first ts) as Hfirst
        by (eapply Permutation_in; [exact Hperm | now left]).
    assert (In m (first :: others)) as Hm
        by (eapply Permutation_in; [symmetry; exact Hperm | exact Hin]).
    apply Hmax in Hfirst.
    inversion Hsorted as [|? ? _ Hall]; subst.
    destruct Hm as [-> | Hm]; [reflexivity|].
    rewrite Forall_forall in Hall. specialize (Hall m).
    rewrite <- list_elem_of_In in Hm. apply Hall in Hm. lia.
Qed.

Lemma visited_incl (cutoffTime : Z) (filesWithStats : list FileStat) (f : FileStat) :
  In f (visited cutoffTime filesWithStats) -> In f filesWithStats.
Proof.
  induction filesWithStats as [|g rest IH]; simpl; [tauto|].
  destruct (mtime g <? cutoffTime); simpl; [tauto|]. intuition.
Qed.

Section Locator.
Variable H : Host.

Lemma stat_entry_run (path : string) (w : World) :
  (stamp <- stat path ;; ret {| file := path; mtime := stamp |}) w
  = (match statMtime w path with
     | Some stamp => Normal {| file := path; mtime := stamp |}
     | None => Throw SystemError
     end, logs w [EvStat path]).
Proof. unfold bind, stat, ret. destruct (statMtime w path); reflexivity. Qed.

Lemma promiseAll_stat_run (files : list string) :
  forall w,
    promiseAll (map (fun path => stamp <- stat path ;;
                                 ret {| file := path; mtime := stamp |}) files) w
    = (statAll (statMtime w) files, logs w (map EvStat files)).
Proof.
  induction files as [|p rest IH]; intros w; cbn [map promiseAll].
  - unfold ret. now rewrite logs_nil.
  - rewrite stat_entry_run, IH, logs_logs. reflexivity.
Qed.

(** *** One lookback pass *)

Lemma lookbackLoop_empty_pass (now ms : Z) (fws : list FileStat)
      (h : Z) (later : list Z) (st : ScanState) (w : World) :
  passTimestamps H (diskFiles w) (now - h * 60 * 60 * 1000) fws = [] ->
  lookbackLoop H now ms fws (h :: later) st w
  = lookbackLoop H now ms fws later
      {| timestamps := [];
         mostRecentTimestamp := mostRecentTimestamp st;
         continuousWorkStart := continuousWorkStart st;
         foundSessionGap := foundSessionGap st |}
      (logs w (passReads (now - h * 60 * 60 * 1000) fws)).
Proof.
  intros Hempty. cbn [lookbackLoop]. unfold bind at 1.
  rewrite collectTimestamps_run, Hempty. reflexivity.
Qed.

Lemma lookbackLoop_stale_pass (now ms : Z) (fws : list FileStat)
      (h : Z) (later : list Z) (st : ScanState) (w : World) (m : Z) :
  mostRecentTimestamp st = None ->
  In m (passTimestamps H (diskFiles w) (now - h * 60 * 60 * 1000) fws) ->
  (forall x, In x (passTimestamps H (diskFiles w) (now - h * 60 * 60 * 1000) fws)
             -> x <= m) ->
  now - m > ms ->
  lookbackLoop H now ms fws (h :: later) st w
  = (Normal ReturnNull, logs w (passReads (now - h * 60 * 60 * 1000) fws)).
Proof.
  intros Hnone Hin Hmax Hstale. cbn [lookbackLoop]. unfold bind at 1.
  rewrite collectTimestamps_run.
  pose proof (sortBy_desc_head _ m Hin Hmax) as Hhead.
  destruct (passTimestamps H (diskFiles w) (now - h * 60 * 60 * 1000) fws)
    as [|c cs] eqn:Hpass; [destruct Hin|].
  cbv zeta. rewrite Hnone, Hhead.
  destruct (Z.gtb_spec (now - m) ms) as [_ | Hle]; [reflexivity | lia].
Qed.

Lemma lookbackLoop_stale (now ms : Z) (fws : list FileStat) (disk : gmap string JsString)
      (pre : list Z) (h : Z) (post : list Z) (m : Z) :
  Forall (fun h' => passTimestamps H disk (now - h' * 60 * 60 * 1000) fws = []) pre ->
  In m (passTimestamps H disk (now - h * 60 * 60 * 1000) fws) ->
  (forall x, In x (passTimestamps H disk (now - h * 60 * 60 * 1000) fws) -> x <= m) ->
  now - m > ms ->
  forall st w,
    diskFiles w = disk ->
    mostRecentTimestamp st = None ->
    lookbackLoop H now ms fws (pre ++ h :: post) st w
    = (Normal ReturnNull,
       logs w (flat_map (fun h' => passReads (now - h' * 60 * 60 * 1000) fws)
                        (pre ++ [h]))).
Proof.
  intros Hpre Hin Hmax Hstale.
  induction Hpre as [|h0 pre Hh0 Hpre IH]; intros st w Hdisk Hnone; subst disk.
  - simpl app. simpl flat_map. rewrite app_nil_r.
    now apply lookbackLoop_stale_pass with (m := m).
  - simpl app. rewrite lookbackLoop_empty_pass by exact Hh0.
    rewrite IH by reflexivity || exact Hnone.
    simpl flat_map. now rewrite logs_logs.
Qed.

(** The locator, once the files are listed and examined: the lookback
    loop and what follows it. *)
Lemma findMostRecentBlockStartTime_run (rootDir : string) (d : Z) (w : World)
      (files : list string) (fws : list FileStat) :
  globResult w (logPattern H rootDir) rootDir = Normal files ->
  files <> [] ->
  statAll (statMtime w) files = Normal fws ->
  let now := clock w (clockReads w) in
  let sorted := sortBy (fun a b => mtime b - mtime a) fws in
  let w0 := ticked (logs w (EvClock :: EvGlob (logPattern H rootDir) rootDir
                                    :: map EvStat files)) in
  findMostRecentBlockStartTime H rootDir d w
  = match lookbackLoop H now (d * 60 * 60 * 1000) sorted lookbackChunks initialScan w0 with
    | (Normal ReturnNull, w') => (Normal None, w')
    | (Normal (LoopDone st), w') =>
        (Normal (selectCurrentBlock now (d * 60 * 60 * 1000) st), w')
    | (Throw e, w') => (Throw e, w')
    end.
Proof.
  intros Hglob Hfiles Hstat now sorted w0.
  unfold findMostRecentBlockStartTime.
  unfold bind at 1. unfold newDate at 1.
  unfold bind at 1. unfold glob at 1.
  cbn [globResult ticked logged]. fold (logPattern H rootDir).
  rewrite Hglob.
  destruct files as [|p rest]; [contradiction|].
  unfold bind at 1. rewrite promiseAll_stat_run.
  cbn [statMtime ticked logged logs]. rewrite Hstat.
  replace (logs (logged (ticked (logged w EvClock))
                        (EvGlob (logPattern H rootDir) rootDir))
                (map EvStat (p :: rest))) with w0
    by (subst w0; unfold logs, logged, ticked; cbn; f_equal;
        rewrite <- !app_assoc; reflexivity).
  unfold bind at 1. subst now sorted.
  destruct (lookbackLoop H (clock w (clockReads w)) (d * 60 * 60 * 1000)
              (sortBy (fun a b => mtime b - mtime a) fws) lookbackChunks
              initialScan w0) as [[[|st] | e] w']; reflexivity.
Qed.

(** *** The locator only looks at the world, and its loop cannot throw *)

Lemma readOnly_getAllTimestampsFromFile (path : string) :
  readOnly (getAllTimestampsFromFile H path).
Proof.
  intros w. rewrite getAllTimestampsFromFile_run. simpl.
  apply observes_logs. repeat constructor.
Qed.

Lemma Forall_readEvent_passReads (cutoffTime : Z) (fws : list FileStat) :
  Forall readEvent (passReads cutoffTime fws).
Proof.
  unfold passReads. induction (visited cutoffTime fws); simpl; constructor; simpl; auto.
Qed.

Lemma readOnly_collectTimestamps (cutoffTime : Z) (fws : list FileStat) :
  readOnly (collectTimestamps H cutoffTime fws).
Proof.
  intros w. rewrite collectTimestamps_run. simpl.
  apply observes_logs, Forall_readEvent_passReads.
Qed.

Lemma neverThrows_collectTimestamps (cutoffTime : Z) (fws : list FileStat) :
  neverThrows (collectTimestamps H cutoffTime fws).
Proof. intros w. rewrite collectTimestamps_run. now eexists. Qed.

Lemma lookbackLoop_well_behaved (now ms : Z) (fws : list FileStat) (chunks : list Z) :
  forall st, readOnly (lookbackLoop H now ms fws chunks st)
             /\ neverThrows (lookbackLoop H now ms fws chunks st).
Proof.
  induction chunks as [|h later IH]; intros st; cbn [lookbackLoop].
  - split; [apply readOnly_ret | apply neverThrows_ret].
  - split.
    + apply readOnly_bind; [apply readOnly_collectTimestamps|].
      intros [|c cs]; [apply IH|]. cbv zeta.
      repeat match goal with
             | |- readOnly (if ?b then _ else _) => destruct b
             | |- readOnly (let '(_, _) := ?p in _) => destruct p
             | |- readOnly (ret _) => apply readOnly_ret
             | |- readOnly (lookbackLoop _ _ _ _ _ _) => apply IH
             end.
    + apply neverThrows_bind; [apply neverThrows_collectTimestamps|].
      intros [|c cs]; [apply IH|]. cbv zeta.
      repeat match goal with
             | |- neverThrows (if ?b then _ else _) => destruct b
             | |- neverThrows (let '(_, _) := ?p in _) => destruct p
             | |- neverThrows (ret _) => apply neverThrows_ret
             | |- neverThrows (lookbackLoop _ _ _ _ _ _) => apply IH
             end.
Qed.

Lemma readOnly_findMostRecentBlockStartTime (rootDir : string) (d : Z) :
  readOnly (findMostRecentBlockStartTime H rootDir d).
Proof.
  unfold findMostRecentBlockStartTime.
  apply readOnly_bind; [apply readOnly_newDate|]. intros now.
  apply readOnly_bind; [apply readOnly_glob|]. intros [|p rest];
    [apply readOnly_ret|].
  apply readOnly_bind.
  { apply readOnly_promiseAll. apply Forall_forall. intros m Hm.
    apply list_elem_of_In, in_map_iff in Hm. destruct Hm as (path & <- & _).
    apply readOnly_bind; [apply readOnly_stat | intros; apply readOnly_ret]. }
  intros fws. apply readOnly_bind; [apply lookbackLoop_well_behaved|].
  intros [|st]; apply readOnly_ret.
Qed.

Lemma readOnly_getBlockMetrics : readOnly (getBlockMetrics H).
Proof.
  unfold getBlockMetrics.
  destruct (getClaudeConfigDir H) as [[|c s]|]; try apply readOnly_ret.
  apply readOnly_tryCatch;
    [apply readOnly_findMostRecentBlockStartTime | apply readOnly_ret].
Qed.

Lemma neverThrows_getBlockMetrics : neverThrows (getBlockMetrics H).
Proof.
  unfold getBlockMetrics.
  destruct (getClaudeConfigDir H) as [[|c s]|]; try apply neverThrows_ret.
  apply neverThrows_tryCatch, neverThrows_ret.
Qed.

(** *** Where the timestamps of the loop's state come from *)


Lemma passTimestamps_fromFiles (disk : gmap string JsString) (cutoffTime : Z)
      (fws : list FileStat) (t : Z) :
  In t (passTimestamps H disk cutoffTime fws) -> fromFiles H disk fws t.
Proof.
  unfold passTimestamps. rewrite in_flat_map. intros (f & Hf & Ht).
  exists f. split; [eapply visited_incl; exact Hf | exact Ht].
Qed.

Lemma lookbackLoop_timestamps (now ms : Z) (fws : list FileStat)
      (disk : gmap string JsString) (chunks : list Z) :
  forall st w st' w',
    diskFiles w = disk ->
    lookbackLoop H now ms fws chunks st w = (Normal (LoopDone st'), w') ->
    Forall (fromFiles H disk fws) (timestamps st) ->
    Forall (fromFiles H disk fws) (timestamps st').
Proof.
  induction chunks as [|h later IH]; intros st w st' w' Hdisk Hrun Hst;
    cbn [lookbackLoop] in Hrun.
  - inversion Hrun; subst. exact Hst.
  - unfold bind at 1 in Hrun. rewrite collectTimestamps_run in Hrun.
    rewrite Hdisk in Hrun.
    assert (Forall (fromFiles H disk fws)
              (passTimestamps H disk (now - h * 60 * 60 * 1000) fws)) as Hpass
        by (apply Forall_forall; intros t Ht;
            apply list_elem_of_In, passTimestamps_fromFiles in Ht; exact Ht).
    destruct (passTimestamps H disk (now - h * 60 * 60 * 1000) fws)
      as [|c cs] eqn:Hcollected.
    + eapply IH in Hrun; [exact Hrun | exact Hdisk | constructor].
    + cbv zeta in Hrun.
      assert (Forall (fromFiles H disk fws) (sortBy (fun a b => b - a) (c :: cs)))
        as Hsorted by (now rewrite sortBy_perm).
      repeat match type of Hrun with
             | (if ?b then _ else _) _ = _ => destruct b
             | (let '(_, _) := ?p in _) _ = _ => destruct p
             | ret _ _ = _ => inversion Hrun; subst; clear Hrun
             end; try exact Hsorted.
      eapply IH in Hrun; [exact Hrun | exact Hdisk | exact Hsorted].
Qed.
End Locator.

Section Cache.
Variable H : Host.

Lemma readBlockCache_run (w : World) :
  readBlockCache H w
  = (Normal (cachedStart H (diskFiles w)), logs w [EvReadFile (getBlockCachePath H)]).
Proof.
  unfold readBlockCache, cachedStart, tryCatch, bind, readFile, liftC, ret.
  cbv zeta.
  destruct (diskFiles w !! getBlockCachePath H) as [content|]; [|reflexivity].
  destruct (JSON_parse content) as [cache|e]; [|reflexivity].
  destruct (getProp cache (str "startTime")) as [[| | | |text| |]|e]; try reflexivity.
  destruct (DateParse (hostDateParse H) text); reflexivity.
Qed.

Lemma writeBlockCache_run (start : Z) (w : World) :
  let dir := path_dirname H (getBlockCachePath H) in
  let path := getBlockCachePath H in
  writeBlockCache H start w
  = (Normal tt,
     if mkdirFails w dir then logs w [EvMkdir dir]
     else match toISOString start with
          | Throw _ => logs w [EvMkdir dir]
          | Normal iso =>
              if writeFails w path
              then logs w [EvMkdir dir; EvWriteFile path (cacheRecord iso)]
              else stored (logs w [EvMkdir dir; EvWriteFile path (cacheRecord iso)])
                          path (cacheRecord iso)
          end).
Proof.
  cbv zeta. unfold writeBlockCache, tryCatch, bind, mkdir, liftC, writeFile, ret.
  cbv zeta.
  destruct (mkdirFails w (path_dirname H (getBlockCachePath H))); [reflexivity|].
  destruct (toISOString start) as [iso|e]; [|reflexivity].
  cbn [writeFails logged].
  destruct (writeFails w (getBlockCachePath H)).
  - unfold logs, logged.
    cbn [clock clockReads diskFiles statMtime globResult mkdirFails writeFails trace].
    now rewrite <- app_assoc.
  - unfold stored, logs, logged.
    cbn [clock clockReads diskFiles statMtime globResult mkdirFails writeFails trace].
    now rewrite <- app_assoc.
Qed.

Lemma cachedStart_after_write (disk : gmap string JsString) (t : Z) :
  validTime t ->
  cachedStart H (<[getBlockCachePath H := cacheRecord (isoFormat t)]> disk) = Some t.
Proof.
  intros Ht. unfold cachedStart. rewrite lookup_insert_eq.
  unfold cacheRecord. rewrite JSON_parse_cache_record by apply isoFormat_isoChars.
  change (getProp (JObj [(str "startTime", JStr (isoFormat t))]) (str "startTime"))
    with (Normal (JStr (isoFormat t))).
  unfold DateParse. rewrite parseIsoUtc_isoFormat by exact Ht.
  unfold TimeClip.
  destruct (Z.leb_spec (Z.abs t) maxTimeValue) as [_ | Hout]; [reflexivity|].
  unfold validTime in Ht. lia.
Qed.

(** The two ways [getCachedBlockMetrics] ends. *)
Lemma getCachedBlockMetrics_hit (d : Z) (w : World) (cached : Z) :
  cachedStart H (diskFiles w) = Some cached ->
  validTime (cached + d * 60 * 60 * 1000) ->
  clock w (clockReads w) <= cached + d * 60 * 60 * 1000 ->
  getCachedBlockMetrics H d w
  = (Normal (Some {| startTime := cached; lastActivity := clock w (clockReads w) |}),
     ticked (logs w [EvClock; EvReadFile (getBlockCachePath H)])).
Proof.
  intros Hcached Hvalid Hopen. unfold getCachedBlockMetrics.
  unfold bind at 1. unfold newDate at 1.
  unfold bind at 1. rewrite readBlockCache_run.
  cbn [diskFiles ticked logged]. rewrite Hcached. cbv zeta.
  rewrite (TimeClip_valid _ Hvalid). cbn [notAfter].
  destruct (Z.leb_spec (clock w (clockReads w)) (cached + d * 60 * 60 * 1000));
    [|lia].
  unfold ret. f_equal. unfold logs, ticked, logged.
  cbn [clock clockReads diskFiles statMtime globResult mkdirFails writeFails trace]. f_equal.
  now rewrite <- app_assoc.
Qed.

Lemma getCachedBlockMetrics_miss (d : Z) (w : World) :
  ~ cacheHit (clock w (clockReads w)) d (cachedStart H (diskFiles w)) ->
  let w1 := ticked (logs w [EvClock; EvReadFile (getBlockCachePath H)]) in
  getCachedBlockMetrics H d w
  = match getBlockMetrics H w1 with
    | (Normal (Some found), w2) =>
        (Normal (Some found), snd (writeBlockCache H (startTime found) w2))
    | (Normal None, w2) => (Normal None, w2)
    | (Throw e, w2) => (Throw e, w2)
    end.
Proof.
  intros Hmiss w1. unfold getCachedBlockMetrics.
  unfold bind at 1. unfold newDate at 1.
  unfold bind at 1. rewrite readBlockCache_run.
  cbn [diskFiles ticked logged].
  replace (logs (ticked (logged w EvClock)) [EvReadFile (getBlockCachePath H)])
    with w1
    by (subst w1; unfold logs, ticked, logged; cbn; f_equal;
        now rewrite <- app_assoc).
  assert (match cachedStart H (diskFiles w) with
          | Some cached =>
              notAfter (clock w (clockReads w)) (TimeClip (cached + d * 60 * 60 * 1000))
          | None => false
          end = false) as Hfalse.
  { destruct (cachedStart H (diskFiles w)) as [cached|] eqn:Hc; [|reflexivity].
    destruct (validTime_dec (cached + d * 60 * 60 * 1000)) as [Hvalid | Hinvalid];
      [|now rewrite (TimeClip_invalid _ Hinvalid)].
    rewrite (TimeClip_valid _ Hvalid). cbn [notAfter].
    apply Z.leb_gt. destruct (Z.lt_ge_cases (cached + d * 60 * 60 * 1000)
                                (clock w (clockReads w))); [assumption|].
    exfalso. apply Hmiss. exists cached. split; [reflexivity | split; [exact Hvalid | lia]]. }
  cbv zeta. rewrite Hfalse.
  assert (forall (c : option Z) (k : M (option BlockMetrics)),
             match c, false with
             | Some cached, true =>
                 ret (Some {| startTime := cached;
                              lastActivity := clock w (clockReads w) |})
             | _, _ => k
             end = k) as Hfall by (intros [c|] k; reflexivity).
  rewrite Hfall. unfold bind at 1.
  destruct (getBlockMetrics H w1) as [[[found|]|e] w2]; try reflexivity.
  unfold bind. pose proof (writeBlockCache_run (startTime found) w2) as Hw.
  cbv zeta in Hw. rewrite Hw. reflexivity.
Qed.
End Cache.

Lemma filter_isWriteFile_reads (events : list Event) :
  Forall readEvent events -> List.filter isWriteFile events = [].
Proof.
  induction 1 as [|e rest He Hrest IH]; [reflexivity|].
  simpl. rewrite IH. destruct e; simpl in *; try reflexivity; contradiction.
Qed.

Lemma reads_have_no_write (events : list Event) :
  Forall readEvent events -> ~ Exists (fun e => ~ readEvent e) events.
Proof.
  intros Hall Hex. apply Exists_exists in Hex. destruct Hex as (e & Hin & Hne).
  rewrite Forall_forall in Hall. apply Hne, Hall. exact Hin.
Qed.

Lemma reads_hold_no_writeFile (events : list Event) (path : string) (text : JsString) :
  Forall readEvent events -> ~ In (EvWriteFile path text) events.
Proof.
  intros Hall Hin. rewrite Forall_forall in Hall.
  apply list_elem_of_In, Hall in Hin. exact Hin.
Qed.

Lemma cacheHit_dec (now d : Z) (cached : option Z) :
  cacheHit now d cached \/ ~ cacheHit now d cached.
Proof.
  destruct cached as [start|].
  - destruct (validTime_dec (start + d * 60 * 60 * 1000)) as [Hvalid | Hinvalid].
    + destruct (Z_le_gt_dec now (start + d * 60 * 60 * 1000)) as [Hle | Hgt].
      * left. now exists start.
      * right. intros (s & Hs & _ & Hle). inversion Hs; subst. lia.
    + right. intros (s & Hs & Hv & _). inversion Hs; subst. contradiction.
  - right. intros (s & Hs & _). discriminate.
Qed.

Lemma neverThrows_readBlockCache (H : Host) : neverThrows (readBlockCache H).
Proof. intros w. rewrite readBlockCache_run. now eexists. Qed.

Lemma neverThrows_writeBlockCache (H : Host) (start : Z) :
  neverThrows (writeBlockCache H start).
Proof.
  intros w. pose proof (writeBlockCache_run H start w) as Hw. cbv zeta in Hw.
  rewrite Hw. now eexists.
Qed.

Lemma neverThrows_getCachedBlockMetrics (H : Host) (d : Z) :
  neverThrows (getCachedBlockMetrics H d).
Proof.
  unfold getCachedBlockMetrics.
  apply neverThrows_bind; [apply neverThrows_newDate|]. intros now.
  apply neverThrows_bind; [apply neverThrows_readBlockCache|]. intros cached.
  cbv zeta.
  assert (neverThrows
            (metrics <- getBlockMetrics H ;;
             match metrics with
             | Some found => _ <- writeBlockCache H (startTime found) ;; ret metrics
             | None => ret metrics
             end)) as Hmiss.
  { apply neverThrows_bind; [apply neverThrows_getBlockMetrics|].
    intros [found|]; [|apply neverThrows_ret].
    apply neverThrows_bind; [apply neverThrows_writeBlockCache|].
    intros; apply neverThrows_ret. }
  destruct cached as [c|]; [|exact Hmiss].
  destruct (notAfter now (TimeClip (c + d * 60 * 60 * 1000)));
    [apply neverThrows_ret | exact Hmiss].
Qed.

Lemma getBlockMetrics_glob_fails (H : Host) (w : World) (claudeDir : string) :
  getClaudeConfigDir H = Some claudeDir ->
  (globResult w (logPattern H claudeDir) claudeDir = Normal []
   \/ exists e, globResult w (logPattern H claudeDir) claudeDir = Throw e) ->
  fst (getBlockMetrics H w) = Normal None.
Proof.
  intros Hdir Hglob. unfold getBlockMetrics. rewrite Hdir.
  destruct claudeDir as [|c s]; [reflexivity|].
  unfold tryCatch, findMostRecentBlockStartTime.
  unfold bind at 1. unfold newDate at 1.
  unfold bind at 1. unfold glob at 1.
  cbn [globResult ticked logged]. fold (logPattern H (String c s)).
  destruct Hglob as [-> | (e & ->)]; reflexivity.
Qed.

Lemma getBlockMetrics_stat_fails (H : Host) (w : World) (claudeDir : string)
      (files : list string) (e : JsError) :
  getClaudeConfigDir H = Some claudeDir ->
  globResult w (logPattern H claudeDir) claudeDir = Normal files ->
  statAll (statMtime w) files = Throw e ->
  fst (getBlockMetrics H w) = Normal None.
Proof.
  intros Hdir Hglob Hstat. unfold getBlockMetrics. rewrite Hdir.
  destruct claudeDir as [|c s]; [reflexivity|].
  unfold tryCatch, findMostRecentBlockStartTime.
  unfold bind at 1. unfold newDate at 1.
  unfold bind at 1. unfold glob at 1.
  cbn [globResult ticked logged]. fold (logPattern H (String c s)).
  rewrite Hglob. destruct files as [|p rest]; [reflexivity|].
  unfold bind at 1. rewrite promiseAll_stat_run.
  cbn [statMtime ticked logged logs]. rewrite Hstat. reflexivity.
Qed.

Ltac split_match :=
  match goal with
  | |- context [match ?x with _ => _ end] => destruct x eqn:?
  end.

(** The scan of a line, case by case. *)
Lemma lineContribution_cases (H : Host) (line : JsString) :
  lineContribution H line
  = match JSON_parse line with
    | Normal (JObj props) =>
        match lookupProp (str "message") props with
        | Some (JObj mprops) =>
            match lookupProp (str "usage") mprops with
            | Some (JObj usage) =>
                match lookupProp (str "input_tokens") usage,
                      lookupProp (str "output_tokens") usage with
                | Some (JNum _), Some (JNum _) =>
                    match lookupProp (str "isSidechain") props with
                    | Some (JBool true) => []
                    | _ =>
                        match lookupProp (str "timestamp") props with
                        | Some (JStr text) =>
                            match DateParse (hostDateParse H) text with
                            | Some date => [date]
                            | None => []
                            end
                        | _ => []
                        end
                    end
                | _, _ => []
                end
            | _ => []
            end
        | _ => []
        end
    | _ => []
    end.
Proof.
  unfold lineContribution, lineTimestamps.
  destruct (JSON_parse line) as [json|e]; [|reflexivity].
  destruct json as [| |b|n|s|elements|props]; try reflexivity.
  cbn [cbind getProp].
  destruct (lookupProp (str "message") props) as [message|]; [|reflexivity].
  destruct message as [| |b|n|s|elements|mprops]; try reflexivity.
  cbn [cbind getProp getPropOpt].
  destruct (lookupProp (str "usage") mprops) as [usage|]; [|reflexivity].
  destruct usage as [| |b|n|s|elements|usage]; try reflexivity.
  - destruct b; reflexivity.
  - cbn. destruct (mantissa n =? 0); reflexivity.
  - destruct s; reflexivity.
  - cbn [ToBoolean negb cbind getProp].
      destruct (lookupProp (str "input_tokens") usage) as [[| |?|?|?|?|?]|];
        destruct (lookupProp (str "output_tokens") usage) as [[| |?|?|?|?|?]|];
        try reflexivity.
      cbn [cbind typeof negb orb].
      destruct (lookupProp (str "isSidechain") props) as [[| |[|]|?|?|?|?]|];
        try reflexivity;
        cbn [cbind];
        destruct (lookupProp (str "timestamp") props) as [[| |?|?|?|?|?]|];
        try reflexivity;
        cbn [cbind];
        destruct (DateParse (hostDateParse H) _); reflexivity.
Qed.

(** The list the locator walks is sorted, newest first. *)
Lemma sortBy_mtime_newestFirst (fws : list FileStat) :
  newestFirst (sortBy (fun a b => mtime b - mtime a) fws).
Proof.
  unfold newestFirst. apply StronglySorted_Sorted.
  pose proof (sortBy_sorted (fun a b : FileStat => mtime b - mtime a)
                ltac:(intros; lia) ltac:(intros; lia) fws) as Hs.
  induction Hs as [|f rest Hrest IH Hf]; constructor; [exact IH|].
  eapply Forall_impl; [exact Hf|]. intros g Hg. simpl in Hg. lia.
Qed.

Lemma floorToHour_bounds (t : Z) :
  floorToHour t <= t < floorToHour t + msPerHour.
Proof.
  unfold floorToHour. rewrite setUTCMinutes_zero. unfold msPerHour. zdiv.
Qed.

Lemma floorToHour_fields (t : Z) :
  MinFromTime (floorToHour t) = 0 /\ SecFromTime (floorToHour t) = 0
  /\ msFromTime (floorToHour t) = 0.
Proof.
  unfold floorToHour. rewrite setUTCMinutes_zero.
  unfold MinFromTime, SecFromTime, msFromTime, msPerHour, msPerMinute, msPerSecond.
  zdiv.
Qed.

Lemma blockContains_spec (b : Block) (t : Z) :
  blockContains b t = true
  <-> exists e, blockEnd b = Some e /\ blockStart b <= t <= e.
Proof.
  unfold blockContains. destruct (blockEnd b) as [e|]; cbn [notAfter].
  - rewrite andb_true_iff, Z.geb_leb, !Z.leb_le. split.
    + intros [Hlo Hhi]. now exists e.
    + intros (e' & He & Hlo & Hhi). inversion He; subst. now split.
  - rewrite andb_false_r. split; [discriminate|].
    intros (e & He & _). discriminate.
Qed.

Lemma isAfter_spec (t : Z) (d : option Z) :
  isAfter t d = true <-> exists e, d = Some e /\ e < t.
Proof.
  destruct d as [e|]; cbn [isAfter].
  - rewrite Z.gtb_ltb, Z.ltb_lt. split.
    + intros Hlt. now exists e.
    + intros (e' & He & Hlt). now inversion He; subst.
  - split; [discriminate|]. intros (e & He & _). discriminate.
Qed.

(** Every block is opened by one of the timestamps walked. *)
Lemma buildBlocks_seed (ms continuousStart : Z) (sorted : list Z) :
  forall current b,
    In b (buildBlocks ms continuousStart sorted current) ->
    exists t, In t sorted /\ blockStart b = floorToHour t
              /\ blockEnd b = TimeClip (floorToHour t + ms).
Proof.
  induction sorted as [|t rest IH]; intros current b Hin; simpl in Hin; [contradiction|].
  assert (forall cur, In b (buildBlocks ms continuousStart rest cur) ->
                      exists t0, In t0 (t :: rest) /\ blockStart b = floorToHour t0
                                 /\ blockEnd b = TimeClip (floorToHour t0 + ms)) as Hrest.
  { intros cur Hc. destruct (IH cur b Hc) as (t0 & Ht0 & Hb). exists t0.
    split; [now right | exact Hb]. }
  destruct (t <? continuousStart); [now apply (Hrest current)|].
  destruct (match current with
            | Some b0 => isAfter t (blockEnd b0)
            | None => true
            end).
  - destruct Hin as [<- | Hin]; [|now apply (Hrest _ Hin)].
    exists t. split; [now left | split; reflexivity].
  - now apply (Hrest current).
Qed.

Lemma findCurrentBlock_first (now mostRecent : Z) (ts : list Z) (blocks : list Block) :
  Forall (fun b => existsb (blockContains b) ts = true) blocks ->
  findCurrentBlock now ts mostRecent blocks
  = match List.find (fun b => blockContains b now) blocks with
    | Some b => Some {| startTime := blockStart b; lastActivity := mostRecent |}
    | None => None
    end.
Proof.
  induction 1 as [|b rest Hb Hrest IH]; simpl; [reflexivity|].
  destruct (blockContains b now); [now rewrite Hb | exact IH].
Qed.

Lemma findCurrentBlock_some (now mostRecent : Z) (ts : list Z) (blocks : list Block)
      (r : BlockMetrics) :
  findCurrentBlock now ts mostRecent blocks = Some r ->
  exists b, In b blocks /\ startTime r = blockStart b.
Proof.
  induction blocks as [|b rest IH]; simpl; [discriminate|].
  intros Hfind.
  assert (findCurrentBlock now ts mostRecent rest = Some r ->
          exists b0, In b0 (b :: rest) /\ startTime r = blockStart b0) as Hrest.
  { intros Hr. destruct (IH Hr) as (b0 & Hb0 & Hs). exists b0. split; [now right|exact Hs]. }
  destruct (blockContains b now); [|now apply Hrest].
  destruct (existsb (blockContains b) ts); [|now apply Hrest].
  inversion Hfind; subst. exists b. split; [now left | reflexivity].
Qed.

Lemma statAll_files (mtimeOf : string -> option Z) (files : list string) :
  forall fws, statAll mtimeOf files = Normal fws -> map file fws = files.
Proof.
  induction files as [|p rest IH]; intros fws Hstat; simpl in Hstat.
  - now inversion Hstat.
  - destruct (mtimeOf p); [|discriminate]. simpl in Hstat.
    destruct (statAll mtimeOf rest) as [l|e]; [|discriminate].
    simpl in Hstat. inversion Hstat; subst. simpl. f_equal. now apply IH.
Qed.

(** A window returned by the locator comes out of [selectCurrentBlock],
    run on timestamps read from the files the glob listed. *)
Lemma findMostRecentBlockStartTime_some (H : Host) (rootDir : string) (d : Z)
      (w : World) (r : BlockMetrics) :
  fst (findMostRecentBlockStartTime H rootDir d w) = Normal (Some r) ->
  exists files st,
    globResult w (logPattern H rootDir) rootDir = Normal files
    /\ Forall (fun t => exists path, In path files
                                     /\ In t (fileTimestamps H (diskFiles w) path))
              (timestamps st)
    /\ selectCurrentBlock (clock w (clockReads w)) (d * 60 * 60 * 1000) st = Some r.
Proof.
  intros Hres.
  destruct (globResult w (logPattern H rootDir) rootDir) as [files|e] eqn:Hglob.
  2:{ exfalso. revert Hres. unfold findMostRecentBlockStartTime.
      unfold bind at 1. unfold newDate at 1. unfold bind at 1. unfold glob at 1.
      cbn [globResult ticked logged]. fold (logPattern H rootDir).
      rewrite Hglob. discriminate. }
  destruct files as [|p rest].
  { exfalso. revert Hres. unfold findMostRecentBlockStartTime.
    unfold bind at 1. unfold newDate at 1. unfold bind at 1. unfold glob at 1.
    cbn [globResult ticked logged]. fold (logPattern H rootDir).
    rewrite Hglob. discriminate. }
  destruct (statAll (statMtime w) (p :: rest)) as [fws|e] eqn:Hstat.
  2:{ exfalso. revert Hres. unfold findMostRecentBlockStartTime.
      unfold bind at 1. unfold newDate at 1. unfold bind at 1. unfold glob at 1.
      cbn [globResult ticked logged]. fold (logPattern H rootDir).
      rewrite Hglob. unfold bind at 1. rewrite promiseAll_stat_run.
      cbn [statMtime ticked logged logs]. rewrite Hstat. discriminate. }
  pose proof (findMostRecentBlockStartTime_run H rootDir d w (p :: rest) fws
                Hglob ltac:(discriminate) Hstat) as Hrun.
  cbv zeta in Hrun. rewrite Hrun in Hres. clear Hrun.
  set (now := clock w (clockReads w)) in *.
  set (sorted := sortBy (fun a b => mtime b - mtime a) fws) in *.
  set (w0 := ticked _) in Hres.
  destruct (lookbackLoop H now (d * 60 * 60 * 1000) sorted lookbackChunks
              initialScan w0) as [[[|st]|e] w'] eqn:Hloop;
    cbn [fst] in Hres; try discriminate.
  exists (p :: rest), st. split; [reflexivity|]. split; [|congruence].
  assert (Forall (fromFiles H (diskFiles w) sorted) (timestamps st)) as Hfrom.
  { eapply lookbackLoop_timestamps; [|exact Hloop|constructor]. reflexivity. }
  eapply Forall_impl; [exact Hfrom|]. intros t (f & Hf & Ht).
  exists (file f). split; [|exact Ht].
  rewrite <- (statAll_files _ _ _ Hstat). apply in_map.
  eapply Permutation_in; [apply sortBy_perm | exact Hf].
Qed.

(** ** Dates in the range of time values *)

Lemma DateParse_valid (H : Host) (s : JsString) (t : Z) :
  DateParse (hostDateParse H) s = Some t -> validTime t.
Proof.
  unfold DateParse.
  destruct (parseIsoUtc s) as [tv|]; [|destruct (hostDateParse H s) as [tv|]];
    try discriminate; intros Hclip; apply TimeClip_some in Hclip;
    destruct Hclip as [-> Hvalid]; exact Hvalid.
Qed.

Lemma lineContribution_valid (H : Host) (line : JsString) (t : Z) :
  In t (lineContribution H line) -> validTime t.
Proof.
  rewrite lineContribution_cases.
  repeat split_match; try contradiction.
  all: intros [<- | []]; eapply DateParse_valid; eassumption.
Qed.

Lemma fileTimestamps_valid (H : Host) (disk : gmap string JsString) (path : string)
      (t : Z) :
  In t (fileTimestamps H disk path) -> validTime t.
Proof.
  unfold fileTimestamps.
  destruct (disk !! path) as [content|]; [|contradiction].
  rewrite in_flat_map. intros (line & _ & Hin).
  eapply lineContribution_valid; eassumption.
Qed.

Lemma floorToHour_valid (t : Z) : validTime t -> validTime (floorToHour t).
Proof.
  unfold validTime, floorToHour, maxTimeValue. rewrite setUTCMinutes_zero.
  unfold msPerHour. zdiv.
Qed.

Lemma toISOString_valid (t : Z) : validTime t -> toISOString t = Normal (isoFormat t).
Proof.
  unfold validTime, toISOString, TimeClip. intros Ht.
  destruct (Z.leb_spec (Z.abs t) maxTimeValue); [reflexivity | lia].
Qed.

Lemma getBlockMetrics_some (H : Host) (w : World) (r : BlockMetrics) :
  fst (getBlockMetrics H w) = Normal (Some r) ->
  exists claudeDir,
    getClaudeConfigDir H = Some claudeDir
    /\ fst (findMostRecentBlockStartTime H claudeDir defaultSessionDurationHours w)
       = Normal (Some r).
Proof.
  unfold getBlockMetrics.
  destruct (getClaudeConfigDir H) as [[|c s]|]; try discriminate.
  unfold tryCatch. intros Hres. exists (String c s). split; [reflexivity|].
  destruct (findMostRecentBlockStartTime H (String c s) defaultSessionDurationHours w)
    as [[a|e] w1]; [exact Hres | discriminate].
Qed.

Lemma located_start_valid (H : Host) (rootDir : string) (d : Z) (w : World)
      (r : BlockMetrics) :
  fst (findMostRecentBlockStartTime H rootDir d w) = Normal (Some r) ->
  validTime (startTime r).
Proof.
  intros Hres.
  destruct (findMostRecentBlockStartTime_some H rootDir d w r Hres)
    as (files & st & Hglob & Hfrom & Hselect).
  unfold selectCurrentBlock in Hselect.
  destruct (mostRecentTimestamp st) as [mostRecent|]; [|discriminate].
  destruct (continuousWorkStart st) as [continuousStart|]; [|discriminate].
  cbv zeta in Hselect.
  apply findCurrentBlock_some in Hselect. destruct Hselect as (b & Hb & Hstart).
  apply buildBlocks_seed in Hb. destruct Hb as (t & Ht & Hfloor & _).
  assert (In t (timestamps st)) as Hin
      by (eapply Permutation_in; [apply sortBy_perm | exact Ht]).
  rewrite Forall_forall in Hfrom.
  destruct (Hfrom t (proj2 (list_elem_of_In _ _) Hin)) as (path & _ & Hfile).
  rewrite Hstart, Hfloor. apply floorToHour_valid.
  eapply fileTimestamps_valid; eassumption.
Qed.

(** ** The lines of a text *)

Lemma trimStart_padding (pre s : JsString) :
  isPadding pre -> trimStart (pre ++ s) = trimStart s.
Proof.
  induction 1 as [|c pre Hc Hpre IH]; [reflexivity|].
  cbn [app trimStart]. now rewrite Hc.
Qed.

Lemma trimStart_trimmed (c : N) (r : JsString) :
  isTrimSpace c = false -> trimStart (c :: r) = c :: r.
Proof. intros Hc. cbn [trimStart]. now rewrite Hc. Qed.

Lemma isPadding_rev (s : JsString) : isPadding s -> isPadding (rev s).
Proof.
  unfold isPadding. rewrite !Forall_forall. intros Hs c Hc.
  apply Hs. apply list_elem_of_In. apply list_elem_of_In in Hc.
  now apply in_rev.
Qed.

Lemma trim_padded (pre body post : JsString) :
  isPadding pre -> isPadding post -> isTrimmed body ->
  trim (pre ++ body ++ post) = body.
Proof.
  intros Hpre Hpost [(c & r & Hhead & Hc) (c' & r' & Hlast & Hc')].
  unfold trim. rewrite trimStart_padding by exact Hpre.
  rewrite Hhead. cbn [app]. rewrite trimStart_trimmed by exact Hc.
  change (c :: r ++ post) with ((c :: r) ++ post). rewrite <- Hhead.
  rewrite rev_app_distr, trimStart_padding by (now apply isPadding_rev).
  rewrite Hlast, trimStart_trimmed by exact Hc'.
  now rewrite <- Hlast, rev_involutive.
Qed.

Lemma splitLines_line (line rest : JsString) :
  ~ In 10%N line ->
  splitLines (line ++ 10%N :: rest) = line :: splitLines rest.
Proof.
  induction line as [|c line IH]; intros Hno; cbn [app splitLines].
  - reflexivity.
  - destruct (N.eqb_spec c 10) as [-> | _]; [exfalso; apply Hno; now left|].
    rewrite IH by (intros Hin; apply Hno; now right). reflexivity.
Qed.

Lemma splitLines_single (line : JsString) :
  ~ In 10%N line -> splitLines line = [line].
Proof.
  induction line as [|c line IH]; intros Hno; cbn [splitLines]; [reflexivity|].
  destruct (N.eqb_spec c 10) as [-> | _]; [exfalso; apply Hno; now left|].
  rewrite IH by (intros Hin; apply Hno; now right). reflexivity.
Qed.

Lemma splitLines_joinLines (lines : list JsString) :
  lines <> [] ->
  Forall (fun line => ~ In 10%N line) lines ->
  splitLines (joinLines lines) = lines.
Proof.
  intros Hne Hno. induction Hno as [|line rest Hline Hrest IH]; [contradiction|].
  destruct rest as [|next rest'].
  - cbn [joinLines]. now apply splitLines_single.
  - change (joinLines (line :: next :: rest'))
      with (line ++ 10%N :: joinLines (next :: rest')).
    rewrite splitLines_line by exact Hline.
    now rewrite IH.
Qed.


Lemma flat_map_lineContribution_filter (H : Host) (lines : list JsString) :
  flat_map (lineContribution H)
           (List.filter (fun line => negb (length line =? 0)%nat) lines)
  = flat_map (lineContribution H) lines.
Proof.
  induction lines as [|line rest IH]; [reflexivity|].
  cbn [List.filter flat_map]. destruct line as [|c line].
  - cbn. exact IH.
  - cbn [length Nat.eqb negb flat_map]. now rewrite IH.
Qed.

(** ** What a line contributes *)



(* ================================================================== *)
(** * The properties *)
(* ================================================================== *)

(** C1.  The specification has the cache and the locator share one window
    duration: for every duration [d], when [getCachedBlockMetrics d]
    finds no usable cache record and turns to the locator, the locator
    is to compute the window with that same [d].  The code does not do so:
    [getBlockMetrics] takes no duration and calls
    [findMostRecentBlockStartTime] without its second argument, so the
    locator always works with the default of five hours.  Evaluated at
    [d = 1] on [quietWorld] (no cache file, the only activity at 10:30,
    the clock at 12:10): the call returns the window that starts at 10:00
    with last activity 10:30, which is what the locator gives for five
    hours, while the locator run with one hour returns no window.  In
    general, whenever the cache is of no use, the call does the same for
    every duration. *)
Theorem locator_ignores_requested_duration :
  cachedStart posixHost (diskFiles quietWorld) = None
  /\ fst (getCachedBlockMetrics posixHost 1 quietWorld)
     = Normal (Some {| startTime := t1000; lastActivity := t1030 |})
  /\ fst (findMostRecentBlockStartTime posixHost "/home/u/.claude" 1 quietWorld)
     = Normal None
  /\ fst (findMostRecentBlockStartTime posixHost "/home/u/.claude"
                                      defaultSessionDurationHours quietWorld)
     = Normal (Some {| startTime := t1000; lastActivity := t1030 |})
  /\ (forall H d d' w,
         ~ cacheHit (clock w (clockReads w)) d (cachedStart H (diskFiles w)) ->
         ~ cacheHit (clock w (clockReads w)) d' (cachedStart H (diskFiles w)) ->
         getCachedBlockMetrics H d w = getCachedBlockMetrics H d' w).
Proof.
  split; [vm_compute; reflexivity|].
  split; [vm_compute; reflexivity|].
  split; [vm_compute; reflexivity|].
  split; [vm_compute; reflexivity|].
  intros H d d' w Hd Hd'.
  now rewrite (getCachedBlockMetrics_miss H d w Hd),
              (getCachedBlockMetrics_miss H d' w Hd').
Qed.

(** C2, as it is stated, fails where the cached start plus the duration
    is past the last date there is.  The code makes the end of the cached
    window a Date; past 8.64e15 ms that is an Invalid Date, [now <= end]
    is false, and the cache is taken as expired.  With the default
    duration of five hours and a cache file that holds
    +275760-09-12T23:00:00.000Z, at 12:10 on 2025-01-01: the cache read
    yields that start and [now <= cached + d], but the call turns to the
    locator (which lists the log files, and finds none) and returns
    null. *)
Lemma cache_past_the_last_date_is_not_returned :
  fst (readBlockCache posixHost farCacheWorld) = Normal (Some lastHour)
  /\ clock farCacheWorld (clockReads farCacheWorld) <= lastHour + 5 * 60 * 60 * 1000
  /\ fst (getCachedBlockMetrics posixHost 5 farCacheWorld) = Normal None
  /\ trace (snd (getCachedBlockMetrics posixHost 5 farCacheWorld))
     = [EvClock; EvReadFile (getBlockCachePath posixHost); EvClock;
        EvGlob "/home/u/.claude/projects/**/*.jsonl" "/home/u/.claude"].
Proof.
  split; [vm_compute; reflexivity|].
  split; [vm_compute; discriminate|].
  split; vm_compute; reflexivity.
Qed.

(** C2, amended.  For every duration [d]: if the cache read yields the
    start time [cached], [cached + d] is a valid date (at most 8.64e15 ms
    from the epoch) and [now <= cached + d] (the boundary included), then
    [getCachedBlockMetrics d] returns [{startTime: cached, lastActivity:
    now}]; the only calls it makes are the clock read and the read of the
    cache file, so the locator is not invoked and nothing is written. *)
Theorem valid_cache_is_returned (H : Host) (d : Z) (w : World) (cached : Z) :
  fst (readBlockCache H w) = Normal (Some cached) ->
  validTime (cached + d * 60 * 60 * 1000) ->
  clock w (clockReads w) <= cached + d * 60 * 60 * 1000 ->
  let now := clock w (clockReads w) in
  let w' := snd (getCachedBlockMetrics H d w) in
  fst (getCachedBlockMetrics H d w)
  = Normal (Some {| startTime := cached; lastActivity := now |})
  /\ trace w' = trace w ++ [EvClock; EvReadFile (getBlockCachePath H)]
  /\ diskFiles w' = diskFiles w.
Proof.
  intros Hread Hvalid Hopen now w'. subst now w'.
  rewrite readBlockCache_run in Hread. cbn [fst] in Hread.
  assert (cachedStart H (diskFiles w) = Some cached) as Hcached by congruence.
  rewrite (getCachedBlockMetrics_hit H d w cached Hcached Hvalid Hopen).
  repeat split.
Qed.

Lemma valid_cache_is_returned_witness :
  fst (getCachedBlockMetrics posixHost 5 cachedWorld)
  = Normal (Some {| startTime := t1000; lastActivity := t1210 |})
  /\ trace (snd (getCachedBlockMetrics posixHost 5 cachedWorld))
     = trace cachedWorld ++ [EvClock; EvReadFile (getBlockCachePath posixHost)]
  /\ diskFiles (snd (getCachedBlockMetrics posixHost 5 cachedWorld))
     = diskFiles cachedWorld.
Proof.
  apply (valid_cache_is_returned posixHost 5 cachedWorld t1000).
  - vm_compute. reflexivity.
  - vm_compute. split; discriminate.
  - vm_compute. discriminate.
Defined.

(** C3.  When the most recent timestamp the locator finds (the greatest
    one of the first lookback pass that finds any) is more than the
    window duration before now, the locator returns no window at once:
    the files read are those of the passes up to that one, and no larger
    horizon is tried.  In particular a single log file whose only
    timestamp is that old yields no window. *)
Theorem stale_activity_yields_no_window (H : Host) :
  (forall rootDir d w files fws pre h post m,
      globResult w (logPattern H rootDir) rootDir = Normal files ->
      files <> [] ->
      statAll (statMtime w) files = Normal fws ->
      let now := clock w (clockReads w) in
      let sorted := sortBy (fun a b => mtime b - mtime a) fws in
      let found h' :=
        passTimestamps H (diskFiles w) (now - h' * 60 * 60 * 1000) sorted in
      lookbackChunks = pre ++ h :: post ->
      Forall (fun h' => found h' = []) pre ->
      In m (found h) ->
      (forall x, In x (found h) -> x <= m) ->
      now - m > d * 60 * 60 * 1000 ->
      fst (findMostRecentBlockStartTime H rootDir d w) = Normal None
      /\ trace (snd (findMostRecentBlockStartTime H rootDir d w))
         = trace w
           ++ EvClock :: EvGlob (logPattern H rootDir) rootDir :: map EvStat files
           ++ flat_map (fun h' => passReads (now - h' * 60 * 60 * 1000) sorted)
                       (pre ++ [h]))
  /\
  (forall rootDir d w path stamp t,
      globResult w (logPattern H rootDir) rootDir = Normal [path] ->
      statMtime w path = Some stamp ->
      fileTimestamps H (diskFiles w) path = [t] ->
      clock w (clockReads w) - t > d * 60 * 60 * 1000 ->
      fst (findMostRecentBlockStartTime H rootDir d w) = Normal None).
Proof.
  split.
  - intros rootDir d w files fws pre h post m Hglob Hfiles Hstat now sorted found
           Hchunks Hpre Hin Hmax Hstale.
    pose proof (findMostRecentBlockStartTime_run H rootDir d w files fws
                  Hglob Hfiles Hstat) as Hrun.
    cbv zeta in Hrun. rewrite Hrun, Hchunks. clear Hrun.
    erewrite (lookbackLoop_stale H (clock w (clockReads w)) (d * 60 * 60 * 1000)
                (sortBy (fun a b => mtime b - mtime a) fws) (diskFiles w)
                pre h post m Hpre Hin Hmax Hstale);
      [|reflexivity|reflexivity].
    split; [reflexivity|].
    unfold logs, ticked. cbn [snd trace]. now rewrite <- app_assoc.
  - intros rootDir d w path stamp t Hglob Hstat Hfile Hstale.
    pose proof (findMostRecentBlockStartTime_run H rootDir d w [path]
                  [{| file := path; mtime := stamp |}] Hglob
                  ltac:(discriminate)) as Hrun.
    cbv zeta in Hrun. rewrite Hrun by (simpl; now rewrite Hstat). clear Hrun.
    set (now := clock w (clockReads w)) in *.
    set (f := {| file := path; mtime := stamp |}).
    change (sortBy (fun a b => mtime b - mtime a) [f]) with [f].
    assert (forall cutoff disk, disk = diskFiles w ->
               passTimestamps H disk cutoff [f] = [] \/
               passTimestamps H disk cutoff [f] = [t]) as Hpass.
    { intros cutoff disk ->. unfold passTimestamps. simpl.
      destruct (stamp <? cutoff); simpl; [now left|].
      right. now rewrite Hfile, app_nil_r. }
    assert (forall h later st w0,
               diskFiles w0 = diskFiles w ->
               mostRecentTimestamp st = None ->
               passTimestamps H (diskFiles w) (now - h * 60 * 60 * 1000) [f] = [t] ->
               fst (lookbackLoop H now (d * 60 * 60 * 1000) [f] (h :: later) st w0)
               = Normal ReturnNull) as Hstop.
    { intros h later st w0 Hdisk Hnone Hfound.
      rewrite (lookbackLoop_stale_pass H now (d * 60 * 60 * 1000) [f] h later st w0 t);
        try rewrite Hdisk, Hfound; try reflexivity; try assumption.
      - now left.
      - intros x [<- | []]. lia. }
    unfold lookbackChunks.
    set (w0 := ticked _).
    assert (diskFiles w0 = diskFiles w) as Hd0 by reflexivity.
    clearbody w0.
    destruct (Hpass (now - 10 * 60 * 60 * 1000) (diskFiles w) eq_refl) as [H10 | H10].
    2:{ specialize (Hstop 10 [20; 48] initialScan w0 Hd0 eq_refl H10).
        destruct (lookbackLoop _ _ _ _ _ _ w0) as [[[|st]|e] w']; 
          cbn [fst] in Hstop; try discriminate. reflexivity. }
    rewrite lookbackLoop_empty_pass by (rewrite Hd0; exact H10).
    destruct (Hpass (now - 20 * 60 * 60 * 1000) (diskFiles w) eq_refl) as [H20 | H20].
    2:{ match goal with
        | |- context [lookbackLoop H now ?ms [f] (20 :: ?l) ?st ?w1] =>
            specialize (Hstop 20 l st w1 Hd0 eq_refl H20);
            destruct (lookbackLoop H now ms [f] (20 :: l) st w1) as [[[|st']|e] w']
        end; cbn [fst] in Hstop; try discriminate. reflexivity. }
    rewrite lookbackLoop_empty_pass by (cbn [diskFiles logs]; rewrite Hd0; exact H20).
    destruct (Hpass (now - 48 * 60 * 60 * 1000) (diskFiles w) eq_refl) as [H48 | H48].
    2:{ match goal with
        | |- context [lookbackLoop H now ?ms [f] (48 :: ?l) ?st ?w1] =>
            specialize (Hstop 48 l st w1 Hd0 eq_refl H48);
            destruct (lookbackLoop H now ms [f] (48 :: l) st w1) as [[[|st']|e] w']
        end; cbn [fst] in Hstop; try discriminate. reflexivity. }
    rewrite lookbackLoop_empty_pass by (cbn [diskFiles logs]; rewrite Hd0; exact H48).
    reflexivity.
Qed.

Lemma stale_activity_yields_no_window_witness :
  (fst (findMostRecentBlockStartTime posixHost "/home/u/.claude" 1 quietWorld)
   = Normal None
   /\ trace (snd (findMostRecentBlockStartTime posixHost "/home/u/.claude" 1 quietWorld))
      = [EvClock;
         EvGlob "/home/u/.claude/projects/**/*.jsonl" "/home/u/.claude";
         EvStat sessionLogPath;
         EvReadFile sessionLogPath])
  /\ fst (findMostRecentBlockStartTime posixHost "/home/u/.claude" 1 quietWorld)
     = Normal None.
Proof.
  split.
  - apply (proj1 (stale_activity_yields_no_window posixHost)
             "/home/u/.claude" 1 quietWorld [sessionLogPath]
             [{| file := sessionLogPath; mtime := t1030 |}] [] 10 [20; 48] t1030).
    + reflexivity.
    + discriminate.
    + reflexivity.
    + reflexivity.
    + constructor.
    + vm_compute. left. reflexivity.
    + intros x Hx. vm_compute in Hx. destruct Hx as [Hx | []]. subst x.
      vm_compute. discriminate.
    + vm_compute. reflexivity.
  - apply (proj2 (stale_activity_yields_no_window posixHost)
             "/home/u/.claude" 1 quietWorld sessionLogPath t1030 t1030).
    + reflexivity.
    + reflexivity.
    + vm_compute. reflexivity.
    + vm_compute. reflexivity.
Defined.

(** C4.  In a lookback pass over a file list sorted by modification time,
    newest first, the walk that breaks at the first file older than the
    cutoff reads exactly the files whose modification time is at or after
    the cutoff, and collects their timestamps: it equals the filter of
    the whole list by the cutoff. *)
Theorem walk_collects_the_recent_files (H : Host) (cutoffTime : Z)
        (filesWithStats : list FileStat) (w : World) :
  newestFirst filesWithStats ->
  collectTimestamps H cutoffTime filesWithStats w
  = (Normal (flat_map (fun f => fileTimestamps H (diskFiles w) (file f))
                      (recentFiles cutoffTime filesWithStats)),
     logs w (map (fun f => EvReadFile (file f))
                 (recentFiles cutoffTime filesWithStats))).
Proof.
  intros Hsorted. rewrite collectTimestamps_run.
  unfold passTimestamps, passReads.
  now rewrite (visited_recentFiles cutoffTime filesWithStats Hsorted).
Qed.

Lemma walk_collects_the_recent_files_witness :
  collectTimestamps posixHost t1030 threeLogs activeWorld
  = (Normal (flat_map (fun f => fileTimestamps posixHost (diskFiles activeWorld) (file f))
                      (recentFiles t1030 threeLogs)),
     logs activeWorld (map (fun f => EvReadFile (file f)) (recentFiles t1030 threeLogs))).
Proof.
  apply (walk_collects_the_recent_files posixHost t1030 threeLogs activeWorld).
  repeat constructor; vm_compute; discriminate.
Defined.

(** C5, as it is stated, fails where the end of a block is past the last
    date there is.  The code makes the end of a block a Date; past
    8.64e15 ms that is an Invalid Date, and no time is at or before it.
    With a duration of 3000000000 hours on [activeWorld] (activity at
    10:30 and 11:45, the clock at 12:10): the one block built starts at
    10:00 and, as an interval of the specification, contains now and both
    timestamps; but its end is not a date, the block holds no gathered
    timestamp and does not contain now, and the locator returns null. *)
Lemma block_past_the_last_date_holds_nothing :
  let d := 3000000000 in
  let block := {| blockStart := t1000; blockEnd := None |} in
  1 <= d
  /\ buildBlocks (d * 60 * 60 * 1000) t1030
       (sortBy (fun a b => a - b) (timestamps scanOfActiveWorld)) None
     = [block]
  /\ t1000 <= t1030 <= t1000 + d * 60 * 60 * 1000
  /\ t1000 <= t1210 <= t1000 + d * 60 * 60 * 1000
  /\ existsb (blockContains block) (timestamps scanOfActiveWorld) = false
  /\ blockContains block t1210 = false
  /\ fst (findMostRecentBlockStartTime posixHost "/home/u/.claude" d activeWorld)
     = Normal None.
Proof.
  cbv zeta.
  split; [vm_compute; discriminate|].
  split; [vm_compute; reflexivity|].
  split; [vm_compute; split; discriminate|].
  split; [vm_compute; split; discriminate|].
  split; [vm_compute; reflexivity|].
  split; vm_compute; reflexivity.
Qed.

(** C5, amended.  When the window duration is at least one hour and the
    end of every block built is a valid date (its start plus the duration
    is at most 8.64e15 ms from the epoch), every block the locator builds
    contains one of the gathered timestamps, so the check for activity in
    the block that contains now cannot fail: whenever some built block
    contains now, the locator returns the first such block and does not
    fall through to null.  Stated for the variables [st] with which the
    lookback loop is left: on the code that follows the loop
    ([selectCurrentBlock]), and on [findMostRecentBlockStartTime] for
    every run whose loop ends with [st]. *)
Theorem built_windows_hold_a_timestamp (now d : Z) (st : ScanState)
        (mostRecent continuousStart : Z) :
  1 <= d ->
  mostRecentTimestamp st = Some mostRecent ->
  continuousWorkStart st = Some continuousStart ->
  let sessionDurationMs := d * 60 * 60 * 1000 in
  let blocks :=
    buildBlocks sessionDurationMs continuousStart
                (sortBy (fun a b => a - b) (timestamps st)) None in
  (forall b, In b blocks -> blockEnd b <> None) ->
  (forall b, In b blocks ->
             exists t e, In t (timestamps st)
                         /\ blockEnd b = Some e /\ blockStart b <= t <= e)
  /\ (forall b, List.find (fun b => blockContains b now) blocks = Some b ->
                selectCurrentBlock now sessionDurationMs st
                = Some {| startTime := blockStart b; lastActivity := mostRecent |})
  /\ ((exists b e, In b blocks /\ blockEnd b = Some e /\ blockStart b <= now <= e) ->
      selectCurrentBlock now sessionDurationMs st <> None)
  /\ (forall H rootDir w files fws b,
         clock w (clockReads w) = now ->
         globResult w (logPattern H rootDir) rootDir = Normal files ->
         files <> [] ->
         statAll (statMtime w) files = Normal fws ->
         fst (lookbackLoop H now sessionDurationMs
                (sortBy (fun a b => mtime b - mtime a) fws)
                lookbackChunks initialScan
                (ticked (logs w (EvClock :: EvGlob (logPattern H rootDir) rootDir
                                         :: map EvStat files))))
         = Normal (LoopDone st) ->
         List.find (fun b => blockContains b now) blocks = Some b ->
         fst (findMostRecentBlockStartTime H rootDir d w)
         = Normal (Some {| startTime := blockStart b; lastActivity := mostRecent |})).
Proof.
  intros Hd Hrecent Hstart ms blocks Hends.
  assert (forall b, In b blocks ->
                    exists t e, In t (timestamps st)
                                /\ blockEnd b = Some e /\ blockStart b <= t <= e)
    as Hholds.
  { intros b Hb. pose proof (Hends b Hb) as Hend.
    apply buildBlocks_seed in Hb. destruct Hb as (t & Ht & Hs & He).
    destruct (blockEnd b) as [e|] eqn:Hbe; [|contradiction].
    symmetry in He. apply TimeClip_some in He. destruct He as [-> _].
    exists t, (floorToHour t + ms). split.
    - eapply Permutation_in; [apply sortBy_perm | exact Ht].
    - split; [reflexivity|].
      pose proof (floorToHour_bounds t). subst ms. unfold msPerHour in *. lia. }
  assert (selectCurrentBlock now ms st
          = match List.find (fun b => blockContains b now) blocks with
            | Some b => Some {| startTime := blockStart b; lastActivity := mostRecent |}
            | None => None
            end) as Hselect.
  { unfold selectCurrentBlock. rewrite Hrecent, Hstart. cbv zeta. fold blocks.
    apply findCurrentBlock_first. apply Forall_forall. intros b Hb.
    apply list_elem_of_In in Hb. destruct (Hholds b Hb) as (t & e & Ht & He & Hlo & Hhi).
    apply existsb_exists. exists t. split; [exact Ht|].
    unfold blockContains. rewrite He. cbn [notAfter]. apply andb_true_intro.
    split; [apply Z.geb_le | apply Z.leb_le]; lia. }
  split; [exact Hholds|]. split; [|split].
  - intros b Hfind. now rewrite Hselect, Hfind.
  - intros (b & e & Hb & He & Hlo & Hhi). rewrite Hselect.
    destruct (List.find (fun b0 => blockContains b0 now) blocks) eqn:Hfind;
      [discriminate|].
    exfalso. eapply List.find_none in Hfind; [|exact Hb].
    unfold blockContains in Hfind. rewrite He in Hfind. cbn [notAfter] in Hfind.
    apply andb_false_iff in Hfind.
    destruct Hfind as [Hf | Hf];
      [rewrite Z.geb_leb in Hf; apply Z.leb_gt in Hf | apply Z.leb_gt in Hf]; lia.
  - intros H rootDir w files fws b Hnow Hglob Hfiles Hstat Hloop Hfind.
    pose proof (findMostRecentBlockStartTime_run H rootDir d w files fws
                  Hglob Hfiles Hstat) as Hrun.
    cbv zeta in Hrun. rewrite Hrun. clear Hrun. rewrite Hnow. fold ms.
    destruct (lookbackLoop H now ms (sortBy (fun a b0 => mtime b0 - mtime a) fws)
                lookbackChunks initialScan _) as [[[|st']|e] w'];
      cbn [fst] in Hloop; try discriminate.
    inversion Hloop; subst st'. cbn [fst]. now rewrite Hselect, Hfind.
Qed.

Lemma built_windows_hold_a_timestamp_witness :
  selectCurrentBlock t1210 (5 * 60 * 60 * 1000) scanOfActiveWorld
  = Some {| startTime := t1000; lastActivity := t1145 |}
  /\ fst (findMostRecentBlockStartTime posixHost "/home/u/.claude" 5 activeWorld)
     = Normal (Some {| startTime := t1000; lastActivity := t1145 |}).
Proof.
  assert (1 <= 5) as Hd by (vm_compute; discriminate).
  assert (forall b,
             In b (buildBlocks (5 * 60 * 60 * 1000) t1030
                     (sortBy (fun a b => a - b) (timestamps scanOfActiveWorld)) None) ->
             blockEnd b <> None) as Hends.
  { intros b Hb. vm_compute in Hb. destruct Hb as [<- | []]. discriminate. }
  pose proof (built_windows_hold_a_timestamp
                t1210 5 scanOfActiveWorld t1145 t1030 Hd eq_refl eq_refl Hends)
    as (_ & Hselected & _ & Hlocator).
  split.
  - apply (Hselected {| blockStart := t1000;
                        blockEnd := Some (t1000 + 5 * 60 * 60 * 1000) |}).
    vm_compute. reflexivity.
  - apply (Hlocator posixHost "/home/u/.claude" activeWorld [sessionLogPath]
             [{| file := sessionLogPath; mtime := t1145 |}]
             {| blockStart := t1000; blockEnd := Some (t1000 + 5 * 60 * 60 * 1000) |}).
    + reflexivity.
    + reflexivity.
    + discriminate.
    + reflexivity.
    + vm_compute. reflexivity.
    + vm_compute. reflexivity.
Defined.



(** C7.  The [startTime] of every window the locator returns is on the
    hour in UTC (its minutes, seconds and milliseconds are zero): it is
    [floorToHour] of a timestamp read from one of the listed log files,
    and so less than one hour before that timestamp. *)
Theorem window_start_is_floored_hour (H : Host) (rootDir : string) (d : Z)
        (w : World) (r : BlockMetrics) :
  fst (findMostRecentBlockStartTime H rootDir d w) = Normal (Some r) ->
  MinFromTime (startTime r) = 0
  /\ SecFromTime (startTime r) = 0
  /\ msFromTime (startTime r) = 0
  /\ exists files path t,
       globResult w (logPattern H rootDir) rootDir = Normal files
       /\ In path files
       /\ In t (fileTimestamps H (diskFiles w) path)
       /\ startTime r = floorToHour t
       /\ startTime r <= t < startTime r + msPerHour.
Proof.
  intros Hres.
  destruct (findMostRecentBlockStartTime_some H rootDir d w r Hres)
    as (files & st & Hglob & Hfrom & Hselect).
  unfold selectCurrentBlock in Hselect.
  destruct (mostRecentTimestamp st) as [mostRecent|]; [|discriminate].
  destruct (continuousWorkStart st) as [continuousStart|]; [|discriminate].
  cbv zeta in Hselect.
  apply findCurrentBlock_some in Hselect. destruct Hselect as (b & Hb & Hstart).
  apply buildBlocks_seed in Hb. destruct Hb as (t & Ht & Hfloor & _).
  assert (In t (timestamps st)) as Hin
      by (eapply Permutation_in; [apply sortBy_perm | exact Ht]).
  rewrite Forall_forall in Hfrom.
  destruct (Hfrom t (proj2 (list_elem_of_In _ _) Hin)) as (path & Hpath & Hfile).
  assert (startTime r = floorToHour t) as Heq by congruence.
  rewrite Heq.
  pose proof (floorToHour_fields t) as (Hmin & Hsec & Hms).
  pose proof (floorToHour_bounds t) as Hbounds.
  repeat (split; [assumption|]).
  exists files, path, t. repeat (split; [assumption || reflexivity|]).
  exact Hbounds.
Qed.

Lemma window_start_is_floored_hour_witness :
  MinFromTime t1000 = 0 /\ SecFromTime t1000 = 0 /\ msFromTime t1000 = 0
  /\ exists files path t,
       globResult activeWorld (logPattern posixHost "/home/u/.claude") "/home/u/.claude"
       = Normal files
       /\ In path files
       /\ In t (fileTimestamps posixHost (diskFiles activeWorld) path)
       /\ t1000 = floorToHour t
       /\ t1000 <= t < t1000 + msPerHour.
Proof.
  apply (window_start_is_floored_hour posixHost "/home/u/.claude" 5 activeWorld
           {| startTime := t1000; lastActivity := t1145 |}).
  vm_compute. reflexivity.
Defined.

(** C8, as it is stated, fails where the cache directory cannot be
    created.  [writeBlockCache] is best effort: when [mkdir] fails, the
    exception is swallowed before [writeFile] is reached.  On
    [lockedWorld] (no cache file, activity at 10:30 and 11:45, the clock
    at 12:10, [mkdir] failing): the cache is absent and the locator
    returns the window that starts at 10:00, but no write to the cache
    file happens and the disk is left as it was. *)
Lemma window_found_but_cache_not_written :
  cachedStart posixHost (diskFiles lockedWorld) = None
  /\ fst (getCachedBlockMetrics posixHost 5 lockedWorld)
     = Normal (Some {| startTime := t1000; lastActivity := t1145 |})
  /\ List.filter isWriteFile (trace (snd (getCachedBlockMetrics posixHost 5 lockedWorld)))
     = []
  /\ diskFiles (snd (getCachedBlockMetrics posixHost 5 lockedWorld))
     = diskFiles lockedWorld.
Proof.
  split; [vm_compute; reflexivity|].
  split; [vm_compute; reflexivity|].
  split; vm_compute; reflexivity.
Qed.

(** C8, amended.  A call of [getCachedBlockMetrics] issues at most one
    [writeFile], and only on the cache file.  It issues one exactly when
    the cache is absent, invalid or expired, the locator returns a window
    and the cache directory can be created; what it writes is the record
    of the start of that window, and when the write succeeds the cache
    holds that start afterwards.  Unless such a write succeeds, and so
    whenever the locator returns nothing, the disk is left as it was: the
    cache record is neither cleared nor overwritten. *)
Theorem cache_written_only_for_a_fresh_window (H : Host) (d : Z) (w : World) :
  let now := clock w (clockReads w) in
  let path := getBlockCachePath H in
  let w1 := ticked (logs w [EvClock; EvReadFile path]) in
  let located := fst (getBlockMetrics H w1) in
  let fresh found :=
    ~ cacheHit now d (cachedStart H (diskFiles w))
    /\ located = Normal (Some found)
    /\ mkdirFails w (path_dirname H path) = false in
  let w' := snd (getCachedBlockMetrics H d w) in
  exists events,
    trace w' = trace w ++ events
    /\ (length (List.filter isWriteFile events) <= 1)%nat
    /\ (forall file text, In (EvWriteFile file text) events -> file = path)
    /\ ((exists file text, In (EvWriteFile file text) events) <-> exists found, fresh found)
    /\ (forall found,
           fresh found ->
           In (EvWriteFile path (cacheRecord (isoFormat (startTime found)))) events
           /\ (writeFails w path = false ->
               cachedStart H (diskFiles w') = Some (startTime found)))
    /\ (~ ((exists found, fresh found) /\ writeFails w path = false) ->
        diskFiles w' = diskFiles w)
    /\ (located = Normal None -> diskFiles w' = diskFiles w).
Proof.
  intros now path w1 located fresh w'.
  destruct (cacheHit_dec now d (cachedStart H (diskFiles w))) as [Hhit | Hmiss].
  - (* the cached window is still open *)
    destruct Hhit as (start & Hstart & Hvalid & Hopen).
    exists [EvClock; EvReadFile path].
    subst w'. rewrite (getCachedBlockMetrics_hit H d w start Hstart Hvalid Hopen).
    assert (forall found, ~ fresh found) as Hnot
        by (intros found [Hm _]; apply Hm; now exists start).
    split; [reflexivity|].
    split; [simpl; lia|].
    split; [intros file text [Hin | [Hin | []]]; discriminate|].
    split.
    { split.
      - intros (file & text & [Hin | [Hin | []]]); discriminate.
      - intros (found & Hf). now apply Hnot in Hf. }
    split; [intros found Hf; now apply Hnot in Hf|].
    split; intros _; reflexivity.
  - (* no usable cache: the locator runs *)
    subst w'. rewrite (getCachedBlockMetrics_miss H d w Hmiss). cbv zeta.
    fold path. fold w1.
    pose proof (readOnly_getBlockMetrics H w1) as Hobs.
    destruct (neverThrows_getBlockMetrics H w1) as [r Hr].
    assert (fst (getBlockMetrics H w1) = located) as Hlocated by reflexivity.
    clearbody located.
    destruct (getBlockMetrics H w1) as [c w2] eqn:Hrun. cbn [fst snd] in *.
    subst c.
    pose proof (obs_mkdir _ _ Hobs) as Hmk. pose proof (obs_write _ _ Hobs) as Hwr.
    destruct Hobs as [_ Hdisk _ _ _ _ (ev2 & Htrace & Hreads)].
    assert (trace w2 = trace w ++ [EvClock; EvReadFile path] ++ ev2) as Htrace2.
    { rewrite Htrace. subst w1. unfold ticked, logs.
      cbn [trace]. now rewrite <- app_assoc. }
    assert (diskFiles w2 = diskFiles w) as Hdisk2 by (rewrite Hdisk; reflexivity).
    assert (Forall readEvent ([EvClock; EvReadFile path] ++ ev2))
      as Hreads2 by (repeat constructor; exact Hreads).
    assert (mkdirFails w2 = mkdirFails w) as Hmk2 by (rewrite Hmk; reflexivity).
    assert (writeFails w2 = writeFails w) as Hwr2 by (rewrite Hwr; reflexivity).
    destruct r as [found|].
    + (* a window was found: writeBlockCache runs *)
      assert (validTime (startTime found)) as Hvalid.
      { assert (fst (getBlockMetrics H w1) = Normal (Some found)) as Hfst
            by (now rewrite Hrun).
        apply getBlockMetrics_some in Hfst. destruct Hfst as (dir & _ & Hfind).
        eapply located_start_valid; eassumption. }
      pose proof (writeBlockCache_run H (startTime found) w2) as Hw.
      cbv zeta in Hw. rewrite Hw. clear Hw. cbn [snd].
      rewrite Hmk2, Hwr2, (toISOString_valid _ Hvalid).
      fold path. set (dir := path_dirname H path).
      set (record := cacheRecord (isoFormat (startTime found))).
      destruct (mkdirFails w dir) eqn:Hmkdir.
      * (* the directory cannot be created: nothing is written *)
        assert (forall found', ~ fresh found') as Hnot
            by (intros found' (_ & _ & Hf); fold dir in Hf; congruence).
        exists (([EvClock; EvReadFile path] ++ ev2) ++ [EvMkdir dir]).
        split; [cbn [trace logs]; rewrite Htrace2; now rewrite <- !app_assoc|].
        split.
        { rewrite List.filter_app, (filter_isWriteFile_reads _ Hreads2). simpl. lia. }
        split.
        { intros file text Hin. apply in_app_or in Hin. destruct Hin as [Hin | Hin].
          - exfalso. revert Hin. now apply reads_hold_no_writeFile.
          - destruct Hin as [Hin | []]. discriminate. }
        split.
        { split.
          - intros (file & text & Hin). apply in_app_or in Hin.
            destruct Hin as [Hin | [Hin | []]]; [|discriminate].
            exfalso. revert Hin. now apply reads_hold_no_writeFile.
          - intros (found' & Hf). now apply Hnot in Hf. }
        split; [intros found' Hf; now apply Hnot in Hf|].
        split; intros _; exact Hdisk2.
      * (* the directory is there: the record is written *)
        assert (fresh found) as Hfresh by (repeat split; [exact Hmiss | congruence | exact Hmkdir]).
        exists (([EvClock; EvReadFile path] ++ ev2) ++ [EvMkdir dir; EvWriteFile path record]).
        split.
        { destruct (writeFails w path); cbn [trace logs stored]; rewrite Htrace2;
            now rewrite <- !app_assoc. }
        split.
        { rewrite List.filter_app, (filter_isWriteFile_reads _ Hreads2). simpl. lia. }
        split.
        { intros file text Hin. apply in_app_or in Hin. destruct Hin as [Hin | Hin].
          - exfalso. revert Hin. now apply reads_hold_no_writeFile.
          - destruct Hin as [Hin | [Hin | []]]; [discriminate|]. now inversion Hin. }
        split.
        { split; [intros _; now exists found|]. intros _.
          exists path, record. apply in_or_app. right. right. now left. }
        split.
        { intros found' (_ & Hfound' & _).
          assert (found' = found) as -> by congruence.
          split; [apply in_or_app; right; right; now left|].
          intros Hwrite. rewrite Hwrite. cbn [diskFiles stored logs].
          now apply cachedStart_after_write. }
        split.
        { intros Hno. destruct (writeFails w path) eqn:Hwrite; [exact Hdisk2|].
          exfalso. apply Hno. split; [now exists found | reflexivity]. }
        intros Hn. congruence.
    + (* nothing was found: the world is as the locator left it *)
      assert (forall found, ~ fresh found) as Hnot
          by (intros found (_ & Hf & _); congruence).
      exists ([EvClock; EvReadFile path] ++ ev2).
      cbn [snd].
      split; [exact Htrace2|].
      split; [rewrite (filter_isWriteFile_reads _ Hreads2); simpl; lia|].
      split.
      { intros file text Hin. exfalso. revert Hin.
        now apply reads_hold_no_writeFile. }
      split.
      { split.
        - intros (file & text & Hin). exfalso. revert Hin.
          now apply reads_hold_no_writeFile.
        - intros (found & Hf). now apply Hnot in Hf. }
      split; [intros found Hf; now apply Hnot in Hf|].
      split; intros _; exact Hdisk2.
Qed.

Lemma cache_written_only_for_a_fresh_window_witness :
  In (EvWriteFile (getBlockCachePath posixHost) (cacheRecord (isoFormat t1000)))
     (trace cachedWorld)
  /\ cachedStart posixHost (diskFiles cachedWorld) = Some t1000.
Proof.
  destruct (cache_written_only_for_a_fresh_window posixHost 5 activeWorld)
    as (events & Htrace & _ & _ & _ & Hwritten & _).
  destruct (Hwritten {| startTime := t1000; lastActivity := t1145 |}) as [Hin Hheld].
  - split; [|split].
    + intros (start & Hstart & _). vm_compute in Hstart. discriminate.
    + vm_compute. reflexivity.
    + reflexivity.
  - split.
    + unfold cachedWorld. rewrite Htrace. apply in_or_app. right. exact Hin.
    + apply Hheld. reflexivity.
Defined.

(** C9.  No failure of the file system is raised to the caller.
    [readBlockCache] always returns, and returns null when the cache file
    is missing, is not JSON, has no string [startTime] or has one that is
    not a date.  [getCachedBlockMetrics] always returns.  The locator
    called through [getBlockMetrics] returns null when the root directory
    is unknown, when the listing fails or is empty and when a file cannot
    be examined; a log file that cannot be read contributes no
    timestamp. *)
Theorem failures_resolve_to_null (H : Host) :
  (* the cache read *)
  (forall w, exists r, fst (readBlockCache H w) = Normal r)
  /\ (forall w, diskFiles w !! getBlockCachePath H = None ->
                fst (readBlockCache H w) = Normal None)
  /\ (forall w content e,
         diskFiles w !! getBlockCachePath H = Some content ->
         JSON_parse content = Throw e ->
         fst (readBlockCache H w) = Normal None)
  /\ (forall w content cache,
         diskFiles w !! getBlockCachePath H = Some content ->
         JSON_parse content = Normal cache ->
         (forall text, getProp cache (str "startTime") <> Normal (JStr text)) ->
         fst (readBlockCache H w) = Normal None)
  /\ (forall w content cache text,
         diskFiles w !! getBlockCachePath H = Some content ->
         JSON_parse content = Normal cache ->
         getProp cache (str "startTime") = Normal (JStr text) ->
         DateParse (hostDateParse H) text = None ->
         fst (readBlockCache H w) = Normal None)
  (* the entry point *)
  /\ (forall d w, exists r, fst (getCachedBlockMetrics H d w) = Normal r)
  (* the root directory *)
  /\ (forall w, getClaudeConfigDir H = None -> fst (getBlockMetrics H w) = Normal None)
  /\ (forall w claudeDir,
         getClaudeConfigDir H = Some claudeDir ->
         (globResult w (logPattern H claudeDir) claudeDir = Normal []
          \/ exists e, globResult w (logPattern H claudeDir) claudeDir = Throw e) ->
         fst (getBlockMetrics H w) = Normal None)
  /\ (forall w claudeDir files e,
         getClaudeConfigDir H = Some claudeDir ->
         globResult w (logPattern H claudeDir) claudeDir = Normal files ->
         statAll (statMtime w) files = Throw e ->
         fst (getBlockMetrics H w) = Normal None)
  (* a log file *)
  /\ (forall w path,
         diskFiles w !! path = None ->
         fst (getAllTimestampsFromFile H path w) = Normal []).
Proof.
  split; [apply neverThrows_readBlockCache|].
  split.
  { intros w Hnone. rewrite readBlockCache_run. cbn [fst].
    unfold cachedStart. now rewrite Hnone. }
  split.
  { intros w content e Hfile Hparse. rewrite readBlockCache_run. cbn [fst].
    unfold cachedStart. now rewrite Hfile, Hparse. }
  split.
  { intros w content cache Hfile Hparse Hprop. rewrite readBlockCache_run. cbn [fst].
    unfold cachedStart. rewrite Hfile, Hparse.
    destruct (getProp cache (str "startTime")) as [[| | | |text| |]|e];
      try reflexivity.
    exfalso. now apply (Hprop text). }
  split.
  { intros w content cache text Hfile Hparse Hprop Hdate.
    rewrite readBlockCache_run. cbn [fst].
    unfold cachedStart. now rewrite Hfile, Hparse, Hprop, Hdate. }
  split; [intros d; apply neverThrows_getCachedBlockMetrics|].
  split.
  { intros w Hnone. unfold getBlockMetrics. now rewrite Hnone. }
  split; [intros w claudeDir; apply getBlockMetrics_glob_fails|].
  split; [intros w claudeDir files e; apply getBlockMetrics_stat_fails|].
  intros w path Hnone. rewrite getAllTimestampsFromFile_run. cbn [fst].
  unfold fileTimestamps. now rewrite Hnone.
Qed.

Lemma failures_resolve_to_null_witness :
  fst (readBlockCache posixHost activeWorld) = Normal None
  /\ fst (getAllTimestampsFromFile posixHost "/nowhere" activeWorld) = Normal [].
Proof.
  pose proof (failures_resolve_to_null posixHost)
    as (_ & Hmissing & _ & _ & _ & _ & _ & _ & _ & Hunreadable).
  split.
  - apply Hmissing. vm_compute. reflexivity.
  - apply Hunreadable. vm_compute. reflexivity.
Defined.

(** C10.  For every valid date [t]: after [writeBlockCache t], when
    creating the directory and writing the file both succeed,
    [readBlockCache] returns a date with the same time value [t].  The
    ISO string written keeps the milliseconds, and parsing it gives them
    back. *)
Theorem cache_write_then_read_roundtrip (H : Host) (w : World) (t : Z) :
  validTime t ->
  mkdirFails w (path_dirname H (getBlockCachePath H)) = false ->
  writeFails w (getBlockCachePath H) = false ->
  fst (readBlockCache H (snd (writeBlockCache H t w))) = Normal (Some t).
Proof.
  intros Ht Hmkdir Hwrite.
  pose proof (writeBlockCache_run H t w) as Hrun. cbv zeta in Hrun.
  rewrite Hrun, Hmkdir, Hwrite. clear Hrun.
  unfold toISOString, TimeClip.
  destruct (Z.leb_spec (Z.abs t) maxTimeValue) as [_ | Hout];
    [|unfold validTime in Ht; lia].
  cbn [snd]. rewrite readBlockCache_run. cbn [fst]. f_equal.
  unfold stored. cbn [diskFiles logs].
  now apply cachedStart_after_write.
Qed.

Lemma cache_write_then_read_roundtrip_witness :
  fst (readBlockCache posixHost (snd (writeBlockCache posixHost t1000 activeWorld)))
  = Normal (Some t1000).
Proof.
  apply (cache_write_then_read_roundtrip posixHost activeWorld t1000).
  - vm_compute. split; discriminate.
  - reflexivity.
  - reflexivity.
Defined.

(* ================================================================== *)
(** * Further properties of the block-metrics module *)
(* ================================================================== *)

(** ** The window returned *)

Lemma findCurrentBlock_inside (now mostRecent : Z) (ts : list Z) (blocks : list Block)
      (r : BlockMetrics) :
  findCurrentBlock now ts mostRecent blocks = Some r ->
  exists b, In b blocks /\ startTime r = blockStart b /\ lastActivity r = mostRecent
            /\ exists e, blockEnd b = Some e /\ blockStart b <= now <= e.
Proof.
  induction blocks as [|b rest IH]; simpl; [discriminate|].
  intros Hfind.
  assert (findCurrentBlock now ts mostRecent rest = Some r ->
          exists b0, In b0 (b :: rest) /\ startTime r = blockStart b0
                     /\ lastActivity r = mostRecent
                     /\ exists e, blockEnd b0 = Some e /\ blockStart b0 <= now <= e)
    as Hrest.
  { intros Hr. destruct (IH Hr) as (b0 & Hb0 & Hs). exists b0.
    split; [now right | exact Hs]. }
  destruct (blockContains b now) eqn:Hin; [|now apply Hrest].
  destruct (existsb (blockContains b) ts); [|now apply Hrest].
  inversion Hfind; subst. exists b. split; [now left|].
  split; [reflexivity|]. split; [reflexivity|].
  now apply blockContains_spec.
Qed.

(** The locator, when it returns a window: the run of its loop. *)
Lemma findMostRecentBlockStartTime_loop (H : Host) (rootDir : string) (d : Z)
      (w : World) (r : BlockMetrics) :
  fst (findMostRecentBlockStartTime H rootDir d w) = Normal (Some r) ->
  exists files fws st w',
    globResult w (logPattern H rootDir) rootDir = Normal files
    /\ statAll (statMtime w) files = Normal fws
    /\ lookbackLoop H (clock w (clockReads w)) (d * 60 * 60 * 1000)
         (sortBy (fun a b => mtime b - mtime a) fws) lookbackChunks initialScan
         (ticked (logs w (EvClock :: EvGlob (logPattern H rootDir) rootDir
                                  :: map EvStat files)))
       = (Normal (LoopDone st), w')
    /\ selectCurrentBlock (clock w (clockReads w)) (d * 60 * 60 * 1000) st = Some r.
Proof.
  intros Hres.
  destruct (globResult w (logPattern H rootDir) rootDir) as [files|e] eqn:Hglob.
  2:{ exfalso. revert Hres. unfold findMostRecentBlockStartTime.
      unfold bind at 1. unfold newDate at 1. unfold bind at 1. unfold glob at 1.
      cbn [globResult ticked logged]. fold (logPattern H rootDir).
      rewrite Hglob. discriminate. }
  destruct files as [|p rest].
  { exfalso. revert Hres. unfold findMostRecentBlockStartTime.
    unfold bind at 1. unfold newDate at 1. unfold bind at 1. unfold glob at 1.
    cbn [globResult ticked logged]. fold (logPattern H rootDir).
    rewrite Hglob. discriminate. }
  destruct (statAll (statMtime w) (p :: rest)) as [fws|e] eqn:Hstat.
  2:{ exfalso. revert Hres. unfold findMostRecentBlockStartTime.
      unfold bind at 1. unfold newDate at 1. unfold bind at 1. unfold glob at 1.
      cbn [globResult ticked logged]. fold (logPattern H rootDir).
      rewrite Hglob. unfold bind at 1. rewrite promiseAll_stat_run.
      cbn [statMtime ticked logged logs]. rewrite Hstat. discriminate. }
  pose proof (findMostRecentBlockStartTime_run H rootDir d w (p :: rest) fws
                Hglob ltac:(discriminate) Hstat) as Hrun.
  cbv zeta in Hrun. rewrite Hrun in Hres. clear Hrun.
  destruct (lookbackLoop H (clock w (clockReads w)) (d * 60 * 60 * 1000)
              (sortBy (fun a b => mtime b - mtime a) fws) lookbackChunks
              initialScan _) as [[[|st]|e] w'] eqn:Hloop;
    cbn [fst] in Hres; try discriminate.
  exists (p :: rest), fws, st, w'. repeat split; congruence.
Qed.

(** X1.  A window returned by the locator is open at the time of the
    call: the clock reading the locator takes lies between the start of
    the window and its end (the start plus the session duration), both
    included. *)
Theorem returned_window_contains_now (H : Host) (rootDir : string) (d : Z)
        (w : World) (r : BlockMetrics) :
  fst (findMostRecentBlockStartTime H rootDir d w) = Normal (Some r) ->
  startTime r <= clock w (clockReads w) <= startTime r + d * 60 * 60 * 1000.
Proof.
  intros Hres.
  destruct (findMostRecentBlockStartTime_loop H rootDir d w r Hres)
    as (files & fws & st & w' & _ & _ & _ & Hselect).
  unfold selectCurrentBlock in Hselect.
  destruct (mostRecentTimestamp st) as [mostRecent|]; [|discriminate].
  destruct (continuousWorkStart st) as [continuousStart|]; [|discriminate].
  cbv zeta in Hselect.
  apply findCurrentBlock_inside in Hselect.
  destruct Hselect as (b & Hb & Hstart & _ & Hnow).
  apply buildBlocks_seed in Hb. destruct Hb as (t & _ & Hs & He).
  rewrite Hstart. rewrite He, <- Hs in Hnow.
  destruct Hnow as (e & Hclip & Hlo & Hhi).
  apply TimeClip_some in Hclip. destruct Hclip as [-> _]. now split.
Qed.

Lemma returned_window_contains_now_witness :
  t1000 <= t1210 <= t1000 + 5 * 60 * 60 * 1000.
Proof.
  apply (returned_window_contains_now posixHost "/home/u/.claude" 5 activeWorld
           {| startTime := t1000; lastActivity := t1145 |}).
  vm_compute. reflexivity.
Defined.

(** [mostRecentTimestamp], once set, is a timestamp of one of the files
    that was not stale when it was found. *)
Lemma lookbackLoop_mostRecent (H : Host) (now ms : Z) (fws : list FileStat)
      (disk : gmap string JsString) (chunks : list Z) :
  forall st w st' w' m,
    diskFiles w = disk ->
    lookbackLoop H now ms fws chunks st w = (Normal (LoopDone st'), w') ->
    mostRecentTimestamp st' = Some m ->
    mostRecentTimestamp st = Some m
    \/ (fromFiles H disk fws m /\ now - m <= ms).
Proof.
  induction chunks as [|h later IH]; intros st w st' w' m Hdisk Hrun Hm;
    cbn [lookbackLoop] in Hrun.
  - inversion Hrun; subst. now left.
  - unfold bind at 1 in Hrun. rewrite collectTimestamps_run in Hrun.
    rewrite Hdisk in Hrun.
    assert (forall t, In t (passTimestamps H disk (now - h * 60 * 60 * 1000) fws)
                      -> fromFiles H disk fws t) as Hpass
        by (intros t; apply passTimestamps_fromFiles).
    destruct (passTimestamps H disk (now - h * 60 * 60 * 1000) fws)
      as [|c cs] eqn:Hcollected.
    + eapply IH in Hrun; [|exact Hdisk|exact Hm]. exact Hrun.
    + cbv zeta in Hrun.
      assert (forall t, In t (sortBy (fun a b => b - a) (c :: cs)) ->
                        fromFiles H disk fws t) as Hsorted.
      { intros t Ht. apply Hpass.
        eapply Permutation_in; [apply sortBy_perm | exact Ht]. }
      destruct (sortBy (fun a b => b - a) (c :: cs)) as [|first others] eqn:Hs.
      { pose proof (sortBy_perm (fun a b : Z => b - a) (c :: cs)) as Hp.
        rewrite Hs in Hp. apply Permutation_nil in Hp. discriminate. }
      cbn [head] in Hrun.
      destruct (mostRecentTimestamp st) as [m0|] eqn:Hm0.
      * destruct (gapWalk ms first others (Some m0)) as [cstart found].
        destruct found.
        { inversion Hrun; subst. cbn in Hm. now left. }
        destruct (bool_decide (last lookbackChunks = Some h)).
        { inversion Hrun; subst. cbn in Hm. now left. }
        eapply IH in Hrun; [|exact Hdisk|exact Hm]. exact Hrun.
      * destruct (Z.gtb_spec (now - first) ms) as [Hstale | Hfresh];
          [discriminate|].
        assert (fromFiles H disk fws first /\ now - first <= ms) as Hfirst
            by (split; [apply Hsorted; now left | lia]).
        destruct (gapWalk ms first others (Some first)) as [cstart found].
        destruct found.
        { inversion Hrun; subst. cbn in Hm. inversion Hm; subst. now right. }
        destruct (bool_decide (last lookbackChunks = Some h)).
        { inversion Hrun; subst. cbn in Hm. inversion Hm; subst. now right. }
        eapply IH in Hrun; [|exact Hdisk|exact Hm].
        cbn in Hrun. destruct Hrun as [Heq | Hok]; [|now right].
        inversion Heq; subst. now right.
Qed.

(** X2.  The [lastActivity] of a window returned by the locator is a
    timestamp read from one of the files the glob listed, and it is not
    stale: it lies at most one session duration before the clock reading
    of the call. *)
Theorem last_activity_is_fresh_and_read (H : Host) (rootDir : string) (d : Z)
        (w : World) (r : BlockMetrics) :
  fst (findMostRecentBlockStartTime H rootDir d w) = Normal (Some r) ->
  clock w (clockReads w) - lastActivity r <= d * 60 * 60 * 1000
  /\ exists files path,
       globResult w (logPattern H rootDir) rootDir = Normal files
       /\ In path files
       /\ In (lastActivity r) (fileTimestamps H (diskFiles w) path).
Proof.
  intros Hres.
  destruct (findMostRecentBlockStartTime_loop H rootDir d w r Hres)
    as (files & fws & st & w' & Hglob & Hstat & Hloop & Hselect).
  unfold selectCurrentBlock in Hselect.
  destruct (mostRecentTimestamp st) as [mostRecent|] eqn:Hrecent; [|discriminate].
  destruct (continuousWorkStart st) as [continuousStart|]; [|discriminate].
  cbv zeta in Hselect.
  apply findCurrentBlock_inside in Hselect.
  destruct Hselect as (_ & _ & _ & Hlast & _).
  eapply lookbackLoop_mostRecent in Hloop; [|reflexivity|exact Hrecent].
  destruct Hloop as [Hinit | [(f & Hf & Ht) Hfresh]]; [discriminate|].
  rewrite Hlast. split; [exact Hfresh|].
  exists files, (file f). split; [exact Hglob|]. split; [|exact Ht].
  rewrite <- (statAll_files _ _ _ Hstat). apply in_map.
  eapply Permutation_in; [apply sortBy_perm | exact Hf].
Qed.

Lemma last_activity_is_fresh_and_read_witness :
  t1210 - t1145 <= 5 * 60 * 60 * 1000
  /\ exists files path,
       globResult activeWorld (logPattern posixHost "/home/u/.claude") "/home/u/.claude"
       = Normal files
       /\ In path files
       /\ In t1145 (fileTimestamps posixHost (diskFiles activeWorld) path).
Proof.
  apply (last_activity_is_fresh_and_read posixHost "/home/u/.claude" 5 activeWorld
           {| startTime := t1000; lastActivity := t1145 |}).
  vm_compute. reflexivity.
Defined.

(** ** Session gaps and blocks *)


(** Every block is opened by a timestamp at or after the start of the
    continuous work. *)
Lemma buildBlocks_seed_after (ms continuousStart : Z) (sorted : list Z) :
  forall current b,
    In b (buildBlocks ms continuousStart sorted current) ->
    exists t, In t sorted /\ continuousStart <= t /\ blockStart b = floorToHour t
              /\ blockEnd b = TimeClip (floorToHour t + ms).
Proof.
  induction sorted as [|t rest IH]; intros current b Hin; simpl in Hin; [contradiction|].
  assert (forall cur, In b (buildBlocks ms continuousStart rest cur) ->
                      exists t0, In t0 (t :: rest) /\ continuousStart <= t0
                                 /\ blockStart b = floorToHour t0
                                 /\ blockEnd b = TimeClip (floorToHour t0 + ms)) as Hrest.
  { intros cur Hc. destruct (IH cur b Hc) as (t0 & Ht0 & Hb). exists t0.
    split; [now right | exact Hb]. }
  destruct (Z.ltb_spec t continuousStart) as [Hold | Hnew]; [now apply (Hrest current)|].
  destruct (match current with
            | Some b0 => isAfter t (blockEnd b0)
            | None => true
            end).
  - destruct Hin as [<- | Hin]; [|now apply (Hrest _ Hin)].
    exists t. split; [now left | split; [exact Hnew | split; reflexivity]].
  - now apply (Hrest current).
Qed.

(** X4.  In the code that follows the lookback loop, the window never
    starts before the hour of [continuousWorkStart]: its start is the
    floored hour of a gathered timestamp at or after
    [continuousWorkStart], so that activity older than a session boundary
    does not decide where the window starts. *)
Theorem window_starts_within_continuous_work (now ms : Z) (st : ScanState)
        (r : BlockMetrics) (continuousStart : Z) :
  continuousWorkStart st = Some continuousStart ->
  selectCurrentBlock now ms st = Some r ->
  floorToHour continuousStart <= startTime r
  /\ exists t, In t (timestamps st) /\ continuousStart <= t
               /\ startTime r = floorToHour t.
Proof.
  intros Hstart Hselect. unfold selectCurrentBlock in Hselect.
  destruct (mostRecentTimestamp st) as [mostRecent|]; [|discriminate].
  rewrite Hstart in Hselect. cbv zeta in Hselect.
  apply findCurrentBlock_some in Hselect. destruct Hselect as (b & Hb & Hs).
  apply buildBlocks_seed_after in Hb. destruct Hb as (t & Ht & Hafter & Hfloor & _).
  assert (startTime r = floorToHour t) as Heq by congruence.
  split.
  - rewrite Heq. unfold floorToHour. rewrite !setUTCMinutes_zero.
    unfold msPerHour. zdiv.
  - exists t. split; [|split; assumption].
    eapply Permutation_in; [apply sortBy_perm | exact Ht].
Qed.

Lemma window_starts_within_continuous_work_witness :
  floorToHour t1030 <= t1000
  /\ exists t, In t (timestamps scanOfActiveWorld) /\ t1030 <= t
               /\ t1000 = floorToHour t.
Proof.
  apply (window_starts_within_continuous_work t1210 (5 * 60 * 60 * 1000)
           scanOfActiveWorld {| startTime := t1000; lastActivity := t1145 |} t1030).
  - reflexivity.
  - vm_compute. reflexivity.
Defined.

Lemma buildBlocks_ordered (ms continuousStart : Z) (sorted : list Z) :
  forall current,
    Sorted (fun earlier later =>
              exists e, blockEnd earlier = Some e /\ e - msPerHour < blockStart later)
           (buildBlocks ms continuousStart sorted current)
    /\ (forall b0, current = Some b0 ->
                   HdRel (fun earlier later =>
                            exists e, blockEnd earlier = Some e
                                      /\ e - msPerHour < blockStart later)
                         b0 (buildBlocks ms continuousStart sorted current)).
Proof.
  induction sorted as [|t rest IH]; intros current; cbn [buildBlocks].
  - split; [constructor | intros; constructor].
  - destruct (t <? continuousStart); [apply IH|].
    destruct current as [b0|].
    + destruct (isAfter t (blockEnd b0)) eqn:Hlater; [|apply IH].
      apply isAfter_spec in Hlater. destruct Hlater as (e & He & Hlt).
      destruct (IH (Some {| blockStart := floorToHour t;
                            blockEnd := TimeClip (floorToHour t + ms) |})) as [Hs Hh].
      split.
      * constructor; [exact Hs | now apply Hh].
      * intros b Hb. inversion Hb; subst b. constructor. exists e.
        split; [exact He|]. cbn. pose proof (floorToHour_bounds t). lia.
    + destruct (IH (Some {| blockStart := floorToHour t;
                            blockEnd := TimeClip (floorToHour t + ms) |})) as [Hs Hh].
      split; [|discriminate].
      constructor; [exact Hs | now apply Hh].
Qed.

Lemma buildBlocks_ordered_aligned (hours continuousStart : Z) (sorted : list Z) :
  forall current,
    (forall b0 e, current = Some b0 -> blockEnd b0 = Some e ->
                  exists k, e = k * msPerHour) ->
    Sorted (fun earlier later =>
              exists e, blockEnd earlier = Some e /\ e <= blockStart later)
           (buildBlocks (hours * msPerHour) continuousStart sorted current)
    /\ (forall b0, current = Some b0 ->
                   HdRel (fun earlier later =>
                            exists e, blockEnd earlier = Some e /\ e <= blockStart later)
                         b0 (buildBlocks (hours * msPerHour) continuousStart sorted current)).
Proof.
  induction sorted as [|t rest IH]; intros current Haligned; cbn [buildBlocks].
  - split; [constructor | intros; constructor].
  - destruct (t <? continuousStart); [now apply IH|].
    assert (forall b e,
               Some {| blockStart := floorToHour t;
                       blockEnd := TimeClip (floorToHour t + hours * msPerHour) |} = Some b ->
               blockEnd b = Some e ->
               exists k, e = k * msPerHour) as Hnew.
    { intros b e Hb He. inversion Hb; subst b. cbn in He.
      apply TimeClip_some in He. destruct He as [-> _].
      exists (t / msPerHour + hours). unfold floorToHour.
      rewrite setUTCMinutes_zero. lia. }
    destruct current as [b0|].
    + destruct (isAfter t (blockEnd b0)) eqn:Hlater; [|now apply IH].
      apply isAfter_spec in Hlater. destruct Hlater as (e & He & Hlt).
      destruct (IH _ Hnew) as [Hs Hh].
      split.
      * constructor; [exact Hs | now apply Hh].
      * intros b Hb. inversion Hb; subst b. constructor. exists e.
        split; [exact He|]. cbn.
        destruct (Haligned b0 e eq_refl He) as (k & Hk).
        unfold floorToHour. rewrite setUTCMinutes_zero.
        rewrite Hk in *. unfold msPerHour in *. zdiv.
    + destruct (IH _ Hnew) as [Hs Hh].
      split; [|discriminate].
      constructor; [exact Hs | now apply Hh].
Qed.

(** X5.  The blocks are built in ascending order, whatever the order of
    the timestamps: the end of a block that has a successor is a valid
    date; the successor starts less than one hour before that end, and,
    when the session duration is a whole number of hours, not before that
    end, so that two blocks have at most one instant in common. *)
Theorem built_blocks_do_not_overlap (ms continuousStart : Z) (sorted : list Z) :
  let blocks := buildBlocks ms continuousStart sorted None in
  Sorted (fun earlier later =>
            exists e, blockEnd earlier = Some e /\ e - msPerHour < blockStart later)
         blocks
  /\ (forall hours, ms = hours * 60 * 60 * 1000 ->
        Sorted (fun earlier later =>
                  exists e, blockEnd earlier = Some e /\ e <= blockStart later)
               blocks).
Proof.
  split.
  - apply buildBlocks_ordered.
  - intros hours ->.
    replace (hours * 60 * 60 * 1000) with (hours * msPerHour)
      by (unfold msPerHour; lia).
    apply buildBlocks_ordered_aligned. discriminate.
Qed.

Lemma buildBlocks_covers (ms continuousStart : Z) (sorted : list Z) :
  msPerHour <= ms ->
  StronglySorted (fun a b => a - b <= 0) sorted ->
  forall current,
    (forall b0, current = Some b0 ->
                blockEnd b0 <> None /\ Forall (fun t => blockStart b0 <= t) sorted) ->
    (forall b, In b (buildBlocks ms continuousStart sorted current) -> blockEnd b <> None) ->
    forall t,
      In t sorted -> continuousStart <= t ->
      (exists b e, In b (buildBlocks ms continuousStart sorted current)
                   /\ blockEnd b = Some e /\ blockStart b <= t <= e)
      \/ (exists b0 e, current = Some b0 /\ blockEnd b0 = Some e
                       /\ blockStart b0 <= t <= e).
Proof.
  intros Hms Hsorted.
  induction Hsorted as [|s rest Hrest IH Hs]; intros current Hcur Hends t Hin Hafter;
    [destruct Hin|].
  cbn [buildBlocks] in *.
  assert (forall b, blockStart b = floorToHour s ->
                    Forall (fun t => blockStart b <= t) rest) as Hseed.
  { intros b Hb. rewrite Forall_forall in Hs. apply Forall_forall.
    intros u Hu. apply Hs in Hu. pose proof (floorToHour_bounds s). lia. }
  set (seed := {| blockStart := floorToHour s;
                  blockEnd := TimeClip (floorToHour s + ms) |}) in *.
  assert (In seed (seed :: buildBlocks ms continuousStart rest (Some seed)) ->
          (forall b, In b (seed :: buildBlocks ms continuousStart rest (Some seed)) ->
                     blockEnd b <> None) ->
          (exists b e, In b (seed :: buildBlocks ms continuousStart rest (Some seed))
                       /\ blockEnd b = Some e /\ blockStart b <= t <= e)
          \/ (exists b0 e, current = Some b0 /\ blockEnd b0 = Some e
                           /\ blockStart b0 <= t <= e)) as Hopened.
  { intros Hhere Hvalid. left.
    assert (blockEnd seed = Some (floorToHour s + ms)) as Hbe.
    { pose proof (Hvalid seed Hhere) as Hend. unfold seed in *. cbn [blockEnd] in *.
      destruct (TimeClip (floorToHour s + ms)) as [e|] eqn:Hc; [|contradiction].
      apply TimeClip_some in Hc. destruct Hc as [-> _]. reflexivity. }
    destruct Hin as [<- | Hin].
    - exists seed, (floorToHour s + ms). split; [now left|].
      split; [exact Hbe|].
      cbn [blockStart seed]. pose proof (floorToHour_bounds s). lia.
    - destruct (IH (Some seed)
                  ltac:(intros b Hb; inversion Hb; subst b;
                        split; [congruence | now apply Hseed])
                  ltac:(intros b Hb; apply Hvalid; now right)
                  t Hin Hafter) as [(b & e & Hb & He & Ht) | (b1 & e & Hb1 & He & Ht)].
      + exists b, e. split; [now right | split; assumption].
      + inversion Hb1; subst b1. exists seed, e. split; [now left | split; assumption]. }
  destruct (Z.ltb_spec s continuousStart) as [Hold | Hnew].
  - destruct Hin as [<- | Hin]; [lia|].
    apply IH; try assumption.
    intros b0 Hb0. destruct (Hcur b0 Hb0) as [Hend Hall].
    split; [exact Hend | now inversion Hall].
  - destruct current as [b0|].
    + destruct (Hcur b0 eq_refl) as [Hend0 Hall].
      inversion Hall as [|? ? Hb0s Hb0rest]; subst.
      destruct (isAfter s (blockEnd b0)) eqn:Hout.
      * apply Hopened; [now left | exact Hends].
      * destruct (blockEnd b0) as [e0|] eqn:He0; [|contradiction].
        cbn [isAfter] in Hout. rewrite Z.gtb_ltb in Hout. apply Z.ltb_ge in Hout.
        destruct Hin as [<- | Hin].
        -- right. exists b0, e0. split; [reflexivity|]. split; [exact He0 | lia].
        -- destruct (IH (Some b0)
                       ltac:(intros b Hb; inversion Hb; subst b;
                             split; [congruence | exact Hb0rest])
                       Hends t Hin Hafter)
             as [Hleft | (b1 & e & Hb1 & Hbe & Ht)]; [now left|].
           right. exists b1, e. now repeat split.
    + apply Hopened; [now left | exact Hends].
Qed.

(** X6.  With a session duration of at least one hour, and when the end
    of every block built is a valid date, every gathered timestamp at or
    after [continuousWorkStart] lies in one of the blocks built from the
    gathered timestamps: no activity of the continuous work is left
    outside the blocks. *)
Theorem built_blocks_cover_the_activity (d continuousStart : Z) (gathered : list Z)
        (t : Z) :
  let blocks :=
    buildBlocks (d * 60 * 60 * 1000) continuousStart
      (sortBy (fun a b => a - b) gathered) None in
  1 <= d ->
  (forall b, In b blocks -> blockEnd b <> None) ->
  In t gathered -> continuousStart <= t ->
  exists b e, In b blocks /\ blockEnd b = Some e /\ blockStart b <= t <= e.
Proof.
  intros blocks Hd Hends Hin Hafter.
  destruct (buildBlocks_covers (d * 60 * 60 * 1000) continuousStart
              (sortBy (fun a b => a - b) gathered)
              ltac:(unfold msPerHour; lia)
              (sortBy_sorted (fun a b : Z => a - b)
                 ltac:(intros; lia) ltac:(intros; lia) gathered)
              None ltac:(discriminate) Hends t
              ltac:(eapply Permutation_in; [symmetry; apply sortBy_perm | exact Hin])
              Hafter) as [Hb | (b0 & e & Hb0 & _)]; [exact Hb | discriminate].
Qed.

Lemma built_blocks_cover_the_activity_witness :
  exists b e,
    In b (buildBlocks (5 * 60 * 60 * 1000) t1030
            (sortBy (fun a b => a - b) [t1145; t1030]) None)
    /\ blockEnd b = Some e /\ blockStart b <= t1145 <= e.
Proof.
  apply (built_blocks_cover_the_activity 5 t1030 [t1145; t1030] t1145).
  - lia.
  - intros b Hb. vm_compute in Hb. destruct Hb as [<- | []]. discriminate.
  - now left.
  - unfold t1030, t1145. lia.
Defined.

(** ** The files the locator looks at *)

Lemma lookbackLoop_reads (H : Host) (now ms : Z) (fws : list FileStat) (chunks : list Z) :
  forall st w,
  exists ran later,
    chunks = ran ++ later
    /\ snd (lookbackLoop H now ms fws chunks st w)
       = logs w (flat_map (fun h => passReads (now - h * 60 * 60 * 1000) fws) ran).
Proof.
  induction chunks as [|h rest IH]; intros st w; cbn [lookbackLoop].
  - exists [], []. split; [reflexivity|]. unfold ret. cbn. now rewrite logs_nil.
  - unfold bind at 1. rewrite collectTimestamps_run.
    set (w1 := logs w (passReads (now - h * 60 * 60 * 1000) fws)).
    assert (forall st1,
               exists ran later,
                 h :: rest = ran ++ later
                 /\ snd (lookbackLoop H now ms fws rest st1 w1)
                    = logs w (flat_map (fun h => passReads (now - h * 60 * 60 * 1000) fws)
                                       ran)) as Hmore.
    { intros st1. destruct (IH st1 w1) as (ran & later & Hsplit & Hsnd).
      exists (h :: ran), later. split; [now rewrite Hsplit|].
      rewrite Hsnd. subst w1. cbn [flat_map]. now rewrite logs_logs. }
    assert (forall exit : LoopExit,
               exists ran later,
                 h :: rest = ran ++ later
                 /\ snd (ret exit w1)
                    = logs w (flat_map (fun h => passReads (now - h * 60 * 60 * 1000) fws)
                                       ran)) as Hstop.
    { intros exit. exists [h], rest. split; [reflexivity|].
      unfold ret. cbn [snd flat_map]. now rewrite app_nil_r. }
    destruct (passTimestamps H (diskFiles w) (now - h * 60 * 60 * 1000) fws)
      as [|c cs]; [apply Hmore|].
    cbv zeta.
    repeat match goal with
           | |- context [if ?b then _ else _] => destruct b
           | |- context [let '(_, _) := ?p in _] => destruct p
           end; try apply Hstop; apply Hmore.
Qed.

Lemma visited_prefix (cutoffTime : Z) (fws : list FileStat) :
  exists rest, fws = visited cutoffTime fws ++ rest.
Proof.
  induction fws as [|f fws IH]; cbn [visited]; [now exists []|].
  destruct (mtime f <? cutoffTime); [now exists (f :: fws)|].
  destruct IH as (rest & Hrest). exists rest. cbn. now rewrite <- Hrest.
Qed.

Lemma count_occ_visited (cutoffTime : Z) (fws : list FileStat) (path : string) :
  (count_occ String.string_dec (map file (visited cutoffTime fws)) path
   <= count_occ String.string_dec (map file fws) path)%nat.
Proof.
  destruct (visited_prefix cutoffTime fws) as (rest & Hrest).
  rewrite Hrest at 2. rewrite map_app, count_occ_app. lia.
Qed.

Lemma count_occ_pass_reads (now : Z) (fws : list FileStat) (path : string)
      (ran : list Z) :
  (count_occ String.string_dec
     (flat_map (fun h => map file (visited (now - h * 60 * 60 * 1000) fws)) ran) path
   <= length ran * count_occ String.string_dec (map file fws) path)%nat.
Proof.
  induction ran as [|h ran IH]; cbn [flat_map length]; [cbn; lia|].
  rewrite count_occ_app.
  pose proof (count_occ_visited (now - h * 60 * 60 * 1000) fws path). lia.
Qed.

Lemma passReads_flat_map (now : Z) (fws : list FileStat) (ran : list Z) :
  flat_map (fun h => passReads (now - h * 60 * 60 * 1000) fws) ran
  = map EvReadFile
      (flat_map (fun h => map file (visited (now - h * 60 * 60 * 1000) fws)) ran).
Proof.
  induction ran as [|h ran IH]; [reflexivity|].
  cbn [flat_map]. rewrite map_app, <- IH. unfold passReads.
  now rewrite map_map.
Qed.

(** X7.  What the locator asks of the file system, whatever its calls
    answer: after reading the clock it lists the log files and examines
    every listed file once; all it does afterwards is to read files.
    Every path it reads is one the glob listed, and it reads a path at
    most three times (once for each lookback horizon) for each time the
    path is listed. *)
Theorem locator_reads_listed_files_at_most_thrice (H : Host) (rootDir : string)
        (d : Z) (w : World) (files : list string) :
  globResult w (logPattern H rootDir) rootDir = Normal files ->
  exists reads,
    trace (snd (findMostRecentBlockStartTime H rootDir d w))
    = trace w ++ EvClock :: EvGlob (logPattern H rootDir) rootDir
              :: map EvStat files ++ map EvReadFile reads
    /\ forall path,
         (count_occ String.string_dec reads path
          <= 3 * count_occ String.string_dec files path)%nat.
Proof.
  intros Hglob.
  destruct files as [|p rest].
  { exists []. split; [|intros; cbn; lia].
    unfold findMostRecentBlockStartTime.
    unfold bind at 1. unfold newDate at 1. unfold bind at 1. unfold glob at 1.
    cbn [globResult ticked logged]. fold (logPattern H rootDir).
    rewrite Hglob. unfold ret. cbn [snd trace logged ticked map app].
    now rewrite <- app_assoc. }
  destruct (statAll (statMtime w) (p :: rest)) as [fws|e] eqn:Hstat.
  2:{ exists []. split; [|intros; cbn; lia].
      unfold findMostRecentBlockStartTime.
      unfold bind at 1. unfold newDate at 1. unfold bind at 1. unfold glob at 1.
      cbn [globResult ticked logged]. fold (logPattern H rootDir).
      rewrite Hglob. unfold bind at 1. rewrite promiseAll_stat_run.
      cbn [statMtime ticked logged logs]. rewrite Hstat.
      cbn [snd trace logs logged ticked map]. rewrite app_nil_r, <- !app_assoc.
      reflexivity. }
  pose proof (findMostRecentBlockStartTime_run H rootDir d w (p :: rest) fws
                Hglob ltac:(discriminate) Hstat) as Hrun.
  cbv zeta in Hrun. rewrite Hrun. clear Hrun.
  set (now := clock w (clockReads w)).
  set (sorted := sortBy (fun a b => mtime b - mtime a) fws).
  set (w0 := ticked _).
  destruct (lookbackLoop_reads H now (d * 60 * 60 * 1000) sorted lookbackChunks
              initialScan w0) as (ran & later & Hsplit & Hsnd).
  exists (flat_map (fun h => map file (visited (now - h * 60 * 60 * 1000) sorted)) ran).
  split.
  - assert (trace (snd (lookbackLoop H now (d * 60 * 60 * 1000) sorted lookbackChunks
                          initialScan w0))
            = trace w ++ EvClock :: EvGlob (logPattern H rootDir) rootDir
                      :: map EvStat (p :: rest)
                      ++ map EvReadFile
                           (flat_map (fun h => map file
                                        (visited (now - h * 60 * 60 * 1000) sorted)) ran))
      as Htrace.
    { rewrite Hsnd, passReads_flat_map. subst w0. cbn [trace logs ticked].
      rewrite <- app_assoc. reflexivity. }
    destruct (lookbackLoop H now (d * 60 * 60 * 1000) sorted lookbackChunks
                initialScan w0) as [[[|st]|e] w']; exact Htrace.
  - intros path.
    pose proof (count_occ_pass_reads now sorted path ran) as Hcount.
    assert (length ran <= 3)%nat as Hran.
    { assert (length (ran ++ later) = 3%nat) as Hlen by (now rewrite <- Hsplit).
      rewrite length_app in Hlen. lia. }
    assert (count_occ String.string_dec (map file sorted) path
            = count_occ String.string_dec (p :: rest) path) as Hsame.
    { rewrite <- (statAll_files _ _ _ Hstat).
      apply Permutation_count_occ, Permutation_map. apply sortBy_perm. }
    rewrite Hsame in Hcount. nia.
Qed.

Lemma locator_reads_listed_files_at_most_thrice_witness :
  exists reads,
    trace (snd (findMostRecentBlockStartTime posixHost "/home/u/.claude" 5 activeWorld))
    = trace activeWorld
      ++ EvClock :: EvGlob (logPattern posixHost "/home/u/.claude") "/home/u/.claude"
              :: map EvStat [sessionLogPath] ++ map EvReadFile reads
    /\ forall path,
         (count_occ String.string_dec reads path
          <= 3 * count_occ String.string_dec [sessionLogPath] path)%nat.
Proof.
  apply (locator_reads_listed_files_at_most_thrice posixHost "/home/u/.claude" 5
           activeWorld [sessionLogPath]).
  reflexivity.
Defined.

Lemma statAll_throws (mtimeOf : string -> option Z) (files : list string) (e : JsError) :
  statAll mtimeOf files = Throw e -> e = SystemError.
Proof.
  induction files as [|p rest IH]; cbn [statAll]; [discriminate|].
  destruct (mtimeOf p); cbn [cbind]; [|now inversion 1].
  destruct (statAll mtimeOf rest) as [l|e']; cbn [cbind]; [discriminate|].
  intros Heq. inversion Heq; subst. now apply IH.
Qed.

Lemma statAll_perm (mtimeOf : string -> option Z) (files files' : list string) :
  Permutation files files' ->
  forall fws, statAll mtimeOf files = Normal fws ->
              exists fws', statAll mtimeOf files' = Normal fws' /\ Permutation fws fws'.
Proof.
  induction 1 as [|p l l' Hperm IH|p q l|l l' l'' H1 IH1 H2 IH2]; intros fws Hstat.
  - exists fws. split; [exact Hstat | reflexivity].
  - cbn [statAll] in *. destruct (mtimeOf p) as [stamp|]; [|discriminate].
    cbn [cbind] in *.
    destruct (statAll mtimeOf l) as [rest|e]; [|discriminate].
    destruct (IH rest eq_refl) as (rest' & -> & Hrest).
    cbn [cbind] in *. inversion Hstat; subst.
    eexists. split; [reflexivity|]. now constructor.
  - cbn [statAll] in *.
    destruct (mtimeOf q) as [sq|]; [|discriminate].
    cbn [cbind] in *.
    destruct (mtimeOf p) as [sp|]; [|discriminate].
    cbn [cbind] in *.
    destruct (statAll mtimeOf l) as [rest|e]; [|discriminate].
    cbn [cbind] in *. inversion Hstat; subst.
    eexists. split; [reflexivity|]. apply perm_swap.
  - destruct (IH1 fws Hstat) as (fws' & Hstat' & Hp1).
    destruct (IH2 fws' Hstat') as (fws'' & Hstat'' & Hp2).
    exists fws''. split; [exact Hstat''|]. now transitivity fws'.
Qed.

Lemma recentFiles_perm (cutoffTime : Z) (l l' : list FileStat) :
  Permutation l l' -> Permutation (recentFiles cutoffTime l) (recentFiles cutoffTime l').
Proof.
  unfold recentFiles.
  induction 1 as [|f l l' Hperm IH|f g l|l l' l'' H1 IH1 H2 IH2]; cbn [List.filter].
  - reflexivity.
  - destruct (cutoffTime <=? mtime f); [now constructor | exact IH].
  - destruct (cutoffTime <=? mtime f), (cutoffTime <=? mtime g);
      try reflexivity. apply perm_swap.
  - now transitivity (List.filter (fun f => cutoffTime <=? mtime f) l').
Qed.

Lemma passTimestamps_perm (H : Host) (disk : gmap string JsString) (cutoffTime : Z)
      (fws fws' : list FileStat) :
  Permutation fws fws' ->
  Permutation
    (passTimestamps H disk cutoffTime (sortBy (fun a b => mtime b - mtime a) fws))
    (passTimestamps H disk cutoffTime (sortBy (fun a b => mtime b - mtime a) fws')).
Proof.
  intros Hperm. unfold passTimestamps.
  rewrite !visited_recentFiles by apply sortBy_mtime_newestFirst.
  apply Permutation_flat_map, recentFiles_perm.
  rewrite !sortBy_perm. exact Hperm.
Qed.

Lemma descending_perm_eq (l : list Z) :
  forall l',
    StronglySorted (fun a b => b - a <= 0) l ->
    StronglySorted (fun a b => b - a <= 0) l' ->
    Permutation l l' -> l = l'.
Proof.
  induction l as [|a r IH]; intros l' Hs Hs' Hperm.
  - apply Permutation_nil in Hperm. now subst.
  - destruct l' as [|a' r'].
    { symmetry in Hperm. apply Permutation_nil in Hperm. discriminate. }
    inversion Hs as [|? ? Hr Ha]; subst. inversion Hs' as [|? ? Hr' Ha']; subst.
    assert (a = a') as <-.
    { assert (In a (a' :: r')) as Hin
          by (eapply Permutation_in; [exact Hperm | now left]).
      assert (In a' (a :: r)) as Hin'
          by (eapply Permutation_in; [symmetry; exact Hperm | now left]).
      rewrite Forall_forall in Ha. rewrite Forall_forall in Ha'.
      destruct Hin as [Heq | Hin]; [now subst|].
      destruct Hin' as [Heq | Hin']; [now subst|].
      apply list_elem_of_In, Ha' in Hin. apply list_elem_of_In, Ha in Hin'. lia. }
    f_equal. apply IH; [exact Hr | exact Hr'|].
    now apply Permutation_cons_inv with a.
Qed.

Lemma sortBy_desc_perm (l l' : list Z) :
  Permutation l l' -> sortBy (fun a b => b - a) l = sortBy (fun a b => b - a) l'.
Proof.
  intros Hperm. apply descending_perm_eq.
  - apply sortBy_sorted; intros; lia.
  - apply sortBy_sorted; intros; lia.
  - rewrite !sortBy_perm. exact Hperm.
Qed.

(** The outcome of the lookback loop depends on the timestamps gathered
    in each pass only up to their order. *)
Lemma lookbackLoop_perm (H : Host) (now ms : Z) (fws fws' : list FileStat)
      (disk : gmap string JsString) (chunks : list Z) :
  (forall cutoffTime,
      Permutation (passTimestamps H disk cutoffTime fws)
                  (passTimestamps H disk cutoffTime fws')) ->
  forall st w w',
    diskFiles w = disk -> diskFiles w' = disk ->
    fst (lookbackLoop H now ms fws chunks st w)
    = fst (lookbackLoop H now ms fws' chunks st w').
Proof.
  intros Hperm.
  induction chunks as [|h later IH]; intros st w w' Hdisk Hdisk'; cbn [lookbackLoop].
  - reflexivity.
  - unfold bind at 1. rewrite collectTimestamps_run.
    unfold bind at 1. rewrite collectTimestamps_run.
    rewrite Hdisk, Hdisk'.
    specialize (Hperm (now - h * 60 * 60 * 1000)).
    set (w1 := logs w _). set (w1' := logs w' _).
    assert (diskFiles w1 = disk) as Hd1 by (subst w1; exact Hdisk).
    assert (diskFiles w1' = disk) as Hd1' by (subst w1'; exact Hdisk').
    destruct (passTimestamps H disk (now - h * 60 * 60 * 1000) fws) as [|c cs];
      destruct (passTimestamps H disk (now - h * 60 * 60 * 1000) fws') as [|c' cs'].
    + now apply IH.
    + apply Permutation_nil in Hperm. discriminate.
    + symmetry in Hperm. apply Permutation_nil in Hperm. discriminate.
    + cbv zeta. rewrite (sortBy_desc_perm _ _ Hperm).
      repeat match goal with
             | |- context [if ?b then _ else _] => destruct b
             | |- context [let '(_, _) := ?p in _] => destruct p
             end; try reflexivity; now apply IH.
Qed.

Lemma findMostRecentBlockStartTime_no_files (H : Host) (rootDir : string) (d : Z)
      (w : World) :
  globResult w (logPattern H rootDir) rootDir = Normal [] ->
  fst (findMostRecentBlockStartTime H rootDir d w) = Normal None.
Proof.
  intros Hglob. unfold findMostRecentBlockStartTime.
  unfold bind at 1. unfold newDate at 1. unfold bind at 1. unfold glob at 1.
  cbn [globResult ticked logged]. fold (logPattern H rootDir).
  rewrite Hglob. reflexivity.
Qed.

Lemma findMostRecentBlockStartTime_stat_fails (H : Host) (rootDir : string) (d : Z)
      (w : World) (files : list string) (e : JsError) :
  globResult w (logPattern H rootDir) rootDir = Normal files ->
  statAll (statMtime w) files = Throw e ->
  fst (findMostRecentBlockStartTime H rootDir d w) = Throw e.
Proof.
  intros Hglob Hstat. unfold findMostRecentBlockStartTime.
  unfold bind at 1. unfold newDate at 1. unfold bind at 1. unfold glob at 1.
  cbn [globResult ticked logged]. fold (logPattern H rootDir).
  rewrite Hglob. destruct files as [|p rest]; [discriminate|].
  unfold bind at 1. rewrite promiseAll_stat_run.
  cbn [statMtime ticked logged logs]. rewrite Hstat. reflexivity.
Qed.

(** X8.  The result of the locator does not depend on the order in
    which the glob lists the log files: two worlds with the same clock,
    files and modification times, whose listings are permutations of each
    other, give the same result, be it a window, null or the rejection of
    a [stat]. *)
Theorem locator_result_ignores_listing_order (H : Host) (rootDir : string) (d : Z)
        (w w' : World) (files files' : list string) :
  clock w' = clock w ->
  clockReads w' = clockReads w ->
  diskFiles w' = diskFiles w ->
  statMtime w' = statMtime w ->
  globResult w (logPattern H rootDir) rootDir = Normal files ->
  globResult w' (logPattern H rootDir) rootDir = Normal files' ->
  Permutation files files' ->
  fst (findMostRecentBlockStartTime H rootDir d w')
  = fst (findMostRecentBlockStartTime H rootDir d w).
Proof.
  intros Hclock Hreads Hdisk Hmtime Hglob Hglob' Hperm.
  destruct files as [|p rest].
  { apply Permutation_nil in Hperm. subst files'.
    now rewrite !findMostRecentBlockStartTime_no_files. }
  destruct files' as [|p' rest'].
  { symmetry in Hperm. apply Permutation_nil in Hperm. discriminate. }
  destruct (statAll (statMtime w) (p :: rest)) as [fws|e] eqn:Hstat.
  - destruct (statAll_perm _ _ _ Hperm fws Hstat) as (fws' & Hstat' & Hfws).
    rewrite <- Hmtime in Hstat'.
    pose proof (findMostRecentBlockStartTime_run H rootDir d w (p :: rest) fws
                  Hglob ltac:(discriminate) Hstat) as Hrun.
    pose proof (findMostRecentBlockStartTime_run H rootDir d w' (p' :: rest') fws'
                  Hglob' ltac:(discriminate) Hstat') as Hrun'.
    cbv zeta in Hrun, Hrun'. rewrite Hrun, Hrun'. clear Hrun Hrun'.
    rewrite Hclock, Hreads.
    set (now := clock w (clockReads w)).
    pose proof (lookbackLoop_perm H now (d * 60 * 60 * 1000)
                  (sortBy (fun a b => mtime b - mtime a) fws')
                  (sortBy (fun a b => mtime b - mtime a) fws)
                  (diskFiles w) lookbackChunks
                  ltac:(intros c; apply passTimestamps_perm; now symmetry)
                  initialScan
                  (ticked (logs w' (EvClock :: EvGlob (logPattern H rootDir) rootDir
                                            :: map EvStat (p' :: rest'))))
                  (ticked (logs w (EvClock :: EvGlob (logPattern H rootDir) rootDir
                                           :: map EvStat (p :: rest))))
                  Hdisk eq_refl) as Hloop.
    destruct (lookbackLoop H now (d * 60 * 60 * 1000)
                (sortBy (fun a b => mtime b - mtime a) fws') lookbackChunks initialScan _)
      as [[[|st']|e'] v'];
      destruct (lookbackLoop H now (d * 60 * 60 * 1000)
                  (sortBy (fun a b => mtime b - mtime a) fws) lookbackChunks initialScan _)
        as [[[|st]|e] v];
      cbn [fst] in *; congruence.
  - destruct (statAll (statMtime w') (p' :: rest')) as [fws'|e'] eqn:Hstat'.
    { rewrite Hmtime in Hstat'.
      destruct (statAll_perm _ _ _ (Permutation_sym Hperm) fws' Hstat')
        as (fws & Hstat2 & _). congruence. }
    apply statAll_throws in Hstat as He. apply statAll_throws in Hstat' as He'.
    rewrite (findMostRecentBlockStartTime_stat_fails _ _ _ _ _ _ Hglob Hstat).
    rewrite (findMostRecentBlockStartTime_stat_fails _ _ _ _ _ _ Hglob' Hstat').
    congruence.
Qed.

Lemma locator_result_ignores_listing_order_witness :
  fst (findMostRecentBlockStartTime posixHost "/home/u/.claude" 5
         (listedWorld [olderLogPath; sessionLogPath]))
  = fst (findMostRecentBlockStartTime posixHost "/home/u/.claude" 5
           (listedWorld [sessionLogPath; olderLogPath])).
Proof.
  apply (locator_result_ignores_listing_order posixHost "/home/u/.claude" 5
           (listedWorld [sessionLogPath; olderLogPath])
           (listedWorld [olderLogPath; sessionLogPath])
           [sessionLogPath; olderLogPath] [olderLogPath; sessionLogPath]);
    try reflexivity.
  apply perm_swap.
Defined.

(** ** The lines of a log file *)

(** X9.  A log file is scanned line by line, in the order of the
    lines.  When its text is a sequence of lines without line feeds,
    joined by line feeds, that neither begins nor ends with white space,
    and is surrounded by white space only (a final line feed, blank
    lines, a byte order mark), then the scan returns the timestamps the
    lines contribute, first line first; empty lines contribute
    nothing. *)
Theorem log_lines_are_scanned_in_order (H : Host) (w : World) (path : string)
        (lines : list JsString) (pre post : JsString) :
  diskFiles w !! path = Some (A := JsString) (pre ++ joinLines lines ++ post) ->
  isPadding pre -> isPadding post ->
  isTrimmed (joinLines lines) ->
  Forall (fun line => ~ In 10%N line) lines ->
  fst (getAllTimestampsFromFile H path w)
  = Normal (flat_map (lineContribution H) lines).
Proof.
  intros Hfile Hpre Hpost Htrimmed Hlines.
  rewrite getAllTimestampsFromFile_run. cbn [fst]. f_equal.
  unfold fileTimestamps. rewrite Hfile. unfold contentLines.
  rewrite trim_padded by assumption.
  assert (lines <> []) as Hne.
  { intros ->. destruct Htrimmed as [(c & r & Hhead & _) _]. discriminate. }
  rewrite splitLines_joinLines by assumption.
  apply flat_map_lineContribution_filter.
Qed.

Lemma log_lines_are_scanned_in_order_witness :
  fst (getAllTimestampsFromFile posixHost sessionLogPath activeWorld)
  = Normal (flat_map (lineContribution posixHost) [lineAt1030; lineAt1145]).
Proof.
  apply (log_lines_are_scanned_in_order posixHost activeWorld sessionLogPath
           [lineAt1030; lineAt1145] [] [10%N]).
  - vm_compute. reflexivity.
  - constructor.
  - repeat constructor.
  - split; do 2 eexists; (split; [vm_compute; reflexivity | reflexivity]).
  - repeat constructor; vm_compute; intuition discriminate.
Defined.

(** ** The hour of a timestamp *)

(** X10.  [floorToHour] changes nothing but the minutes, seconds and
    milliseconds: the UTC year, month, day of the month and hour of the
    result are those of its argument.  It is idempotent and
    monotone. *)
Theorem floorToHour_keeps_the_hour (t : Z) :
  YearFromTime (floorToHour t) = YearFromTime t
  /\ MonthFromTime (floorToHour t) = MonthFromTime t
  /\ DateFromTime (floorToHour t) = DateFromTime t
  /\ HourFromTime (floorToHour t) = HourFromTime t
  /\ floorToHour (floorToHour t) = floorToHour t
  /\ forall u, t <= u -> floorToHour t <= floorToHour u.
Proof.
  assert (Day (floorToHour t) = Day t) as Hday.
  { unfold floorToHour. rewrite setUTCMinutes_zero.
    unfold Day, msPerHour, msPerDay. zdiv. }
  assert (YearFromTime (floorToHour t) = YearFromTime t) as Hyear
      by (unfold YearFromTime; now rewrite Hday).
  assert (DayWithinYear (floorToHour t) = DayWithinYear t) as Hwithin
      by (unfold DayWithinYear; now rewrite Hday, Hyear).
  assert (InLeapYear (floorToHour t) = InLeapYear t) as Hleap
      by (unfold InLeapYear; now rewrite Hyear).
  assert (MonthFromTime (floorToHour t) = MonthFromTime t) as Hmonth
      by (unfold MonthFromTime; now rewrite Hwithin, Hleap).
  split; [exact Hyear|]. split; [exact Hmonth|]. split.
  { unfold DateFromTime. now rewrite Hwithin, Hleap, Hmonth. }
  split.
  { unfold floorToHour. rewrite setUTCMinutes_zero.
    unfold HourFromTime, msPerHour. zdiv. }
  split.
  { unfold floorToHour. rewrite !setUTCMinutes_zero. unfold msPerHour. zdiv. }
  intros u Hle. unfold floorToHour. rewrite !setUTCMinutes_zero.
  unfold msPerHour. zdiv.
Qed.

(** ** The cache *)

(** X11.  When a call of [getCachedBlockMetrics] returns a window and
    the cache directory and file can be written, the cache file holds the
    start of that window afterwards; a following call with the same
    duration, when the end of the window (its start plus the duration) is
    a valid date and the clock reading of that call is not after it,
    returns the same start, with that clock reading as [lastActivity],
    and does nothing but read the clock and the cache file. *)
Theorem returned_window_is_cached_for_next_call (H : Host) (d : Z) (w : World)
        (found : BlockMetrics) :
  mkdirFails w (path_dirname H (getBlockCachePath H)) = false ->
  writeFails w (getBlockCachePath H) = false ->
  fst (getCachedBlockMetrics H d w) = Normal (Some found) ->
  let w' := snd (getCachedBlockMetrics H d w) in
  cachedStart H (diskFiles w') = Some (startTime found)
  /\ (validTime (startTime found + d * 60 * 60 * 1000) ->
      clock w' (clockReads w') <= startTime found + d * 60 * 60 * 1000 ->
      getCachedBlockMetrics H d w'
      = (Normal (Some {| startTime := startTime found;
                         lastActivity := clock w' (clockReads w') |}),
         ticked (logs w' [EvClock; EvReadFile (getBlockCachePath H)]))).
Proof.
  intros Hmkdir Hwrite Hres w'.
  assert (cachedStart H (diskFiles w') = Some (startTime found)) as Hcached.
  { subst w'.
    destruct (cacheHit_dec (clock w (clockReads w)) d (cachedStart H (diskFiles w)))
      as [(cached & Hc & Hvalid & Hopen) | Hmiss].
    - rewrite (getCachedBlockMetrics_hit H d w cached Hc Hvalid Hopen) in *.
      cbn [fst snd] in *. inversion Hres; subst found. exact Hc.
    - pose proof (getCachedBlockMetrics_miss H d w Hmiss) as Hrun.
      cbv zeta in Hrun. rewrite Hrun in *. clear Hrun.
      pose proof (readOnly_getBlockMetrics H
                    (ticked (logs w [EvClock; EvReadFile (getBlockCachePath H)])))
        as Hobs.
      destruct (getBlockMetrics H
                  (ticked (logs w [EvClock; EvReadFile (getBlockCachePath H)])))
        as [[[found'|]|e] w2] eqn:Hlocated; cbn [fst snd] in *; try discriminate.
      inversion Hres; subst found'.
      assert (validTime (startTime found)) as Hvalid.
      { assert (fst (getBlockMetrics H
                       (ticked (logs w [EvClock; EvReadFile (getBlockCachePath H)])))
                = Normal (Some found)) as Hfst by (now rewrite Hlocated).
        apply getBlockMetrics_some in Hfst. destruct Hfst as (dir & _ & Hfind).
        eapply located_start_valid; eassumption. }
      pose proof (writeBlockCache_run H (startTime found) w2) as Hw.
      cbv zeta in Hw. rewrite Hw. cbn [snd].
      rewrite (obs_mkdir _ _ Hobs), (obs_write _ _ Hobs). cbn [mkdirFails writeFails ticked logs].
      rewrite Hmkdir, Hwrite, (toISOString_valid _ Hvalid).
      cbn [diskFiles stored logs].
      now apply cachedStart_after_write. }
  split; [exact Hcached|].
  intros Hvalid Hopen. now apply getCachedBlockMetrics_hit.
Qed.

Lemma returned_window_is_cached_for_next_call_witness :
  cachedStart posixHost (diskFiles cachedWorld) = Some t1000
  /\ (validTime (t1000 + 5 * 60 * 60 * 1000) ->
      clock cachedWorld (clockReads cachedWorld) <= t1000 + 5 * 60 * 60 * 1000 ->
      getCachedBlockMetrics posixHost 5 cachedWorld
      = (Normal (Some {| startTime := t1000;
                         lastActivity := clock cachedWorld (clockReads cachedWorld) |}),
         ticked (logs cachedWorld [EvClock; EvReadFile (getBlockCachePath posixHost)]))).
Proof.
  apply (returned_window_is_cached_for_next_call posixHost 5 activeWorld
           {| startTime := t1000; lastActivity := t1145 |}).
  - reflexivity.
  - reflexivity.
  - vm_compute. reflexivity.
Defined.

Lemma writeBlockCache_frame (H : Host) (start : Z) (w : World) (path : string) :
  path <> getBlockCachePath H ->
  diskFiles (snd (writeBlockCache H start w)) !! path = diskFiles w !! path.
Proof.
  intros Hother. pose proof (writeBlockCache_run H start w) as Hrun.
  cbv zeta in Hrun. rewrite Hrun. cbn [snd].
  destruct (mkdirFails w (path_dirname H (getBlockCachePath H))); [reflexivity|].
  destruct (toISOString start) as [iso|e]; [|reflexivity].
  destruct (writeFails w (getBlockCachePath H)); [reflexivity|].
  cbn [diskFiles stored logs]. now rewrite lookup_insert_ne by congruence.
Qed.

(** X12.  A call of [getCachedBlockMetrics] leaves every file other than
    the cache file as it was: no log file is ever changed, created or
    removed, whatever the outcome of the calls. *)
Theorem only_the_cache_file_is_written (H : Host) (d : Z) (w : World) (path : string) :
  path <> getBlockCachePath H ->
  diskFiles (snd (getCachedBlockMetrics H d w)) !! path = diskFiles w !! path.
Proof.
  intros Hother.
  destruct (cacheHit_dec (clock w (clockReads w)) d (cachedStart H (diskFiles w)))
    as [(cached & Hc & Hvalid & Hopen) | Hmiss].
  - now rewrite (getCachedBlockMetrics_hit H d w cached Hc Hvalid Hopen).
  - pose proof (getCachedBlockMetrics_miss H d w Hmiss) as Hrun.
    cbv zeta in Hrun. rewrite Hrun. clear Hrun.
    pose proof (readOnly_getBlockMetrics H
                  (ticked (logs w [EvClock; EvReadFile (getBlockCachePath H)])))
      as Hobs.
    destruct (getBlockMetrics H
                (ticked (logs w [EvClock; EvReadFile (getBlockCachePath H)])))
      as [[[found|]|e] w2]; cbn [snd] in *.
    + rewrite writeBlockCache_frame by exact Hother.
      now rewrite (obs_disk _ _ Hobs).
    + now rewrite (obs_disk _ _ Hobs).
    + now rewrite (obs_disk _ _ Hobs).
Qed.

Lemma only_the_cache_file_is_written_witness :
  diskFiles cachedWorld !! sessionLogPath = diskFiles activeWorld !! sessionLogPath.
Proof.
  apply (only_the_cache_file_is_written posixHost 5 activeWorld sessionLogPath).
  vm_compute. discriminate.
Defined.

(* ================================================================== *)
(** * Properties of the widgets and the terminal utilities *)
(* ================================================================== *)

(** ** The setting [hideNoGit] *)

Lemma jsStringEqb_eq (a : JsString) : forall b, jsStringEqb a b = true <-> a = b.
Proof.
  induction a as [|x a IH]; intros [|y b]; cbn [jsStringEqb];
    try (split; [discriminate | discriminate]); [tauto|].
  rewrite andb_true_iff, N.eqb_eq, IH. split.
  - now intros [-> ->].
  - intros Heq. now inversion Heq.
Qed.

Lemma jsStringEqb_booleanToString (b : bool) :
  jsStringEqb (booleanToString b) (str "true") = b.
Proof. destruct b; reflexivity. Qed.

Lemma hideNoGit_after_toggle (item : WidgetItem) (raw : option bool)
      (rest : list (JsString * JsValue)) (b : bool) :
  hideNoGit {| rawValue := raw; otherFields := rest;
               metadata := Some (<["hideNoGit"%string := booleanToString b]>
                                   (default ∅ (metadata item))) |}
  = b.
Proof.
  unfold hideNoGit. cbn [metadata]. rewrite lookup_insert_eq.
  apply jsStringEqb_booleanToString.
Qed.

Ltac toggle_proof handle display :=
  intros action item; split;
  [ unfold display; cbv zeta; destruct (hideNoGit item); reflexivity
  | unfold handle; cbv zeta;
    destruct (jsStringEqb action (str "toggle-nogit")) eqn:Haction;
    [ apply jsStringEqb_eq in Haction;
      split; [exact Haction|];
      split; [apply hideNoGit_after_toggle|];
      repeat (split; [reflexivity|]);
      intros key Hkey; cbn [metadata default id];
      now rewrite lookup_insert_ne by congruence
    | intros Heq; apply jsStringEqb_eq in Heq; congruence ] ].

(** X13.  The editor action of the three git widgets.  [toggle-nogit] is
    the only action they handle (any other gives null).  It inverts the
    setting the widget reads as [hideNoGit], whether the item had
    metadata or not, and keeps [rawValue], every other metadata entry and
    all other properties of the item; the editor shows the modifier
    [(hide 'no git')] exactly while the setting is on. *)
Theorem nogit_toggle_inverts_the_setting :
  togglesNoGit GitBranchWidget.handleEditorAction GitBranchWidget.getEditorDisplay
  /\ togglesNoGit GitWorktreeWidget.handleEditorAction GitWorktreeWidget.getEditorDisplay
  /\ togglesNoGit GitChangesWidget.handleEditorAction GitChangesWidget.getEditorDisplay.
Proof.
  split; [|split].
  - toggle_proof GitBranchWidget.handleEditorAction GitBranchWidget.getEditorDisplay.
  - toggle_proof GitWorktreeWidget.handleEditorAction GitWorktreeWidget.getEditorDisplay.
  - toggle_proof GitChangesWidget.handleEditorAction GitChangesWidget.getEditorDisplay.
Qed.

(** ** The branch widget *)

(** X14.  The branch widget never throws.  In a preview it runs no
    command; otherwise it runs [git branch --show-current], once.  It
    renders nothing (null) exactly when it is not a preview, the setting
    [hideNoGit] is on and the command fails or prints white space only;
    what it renders is never the empty string; and a branch name is shown
    trimmed, as it is when [rawValue] is set and after the branch glyph
    and a space otherwise. *)
Theorem branch_widget_hides_only_a_missing_branch (item : WidgetItem)
        (context : RenderContext) (shell : Shell) (ran : list JsString) :
  let command := str "git branch --show-current" in
  exists shown,
    GitBranchWidget.render item context shell ran
    = (Normal shown, if isPreview context then ran else ran ++ [command])
    /\ (shown = None
        <-> isPreview context = false /\ hideNoGit item = true
            /\ printsNothing shell command)
    /\ (forall text, shown = Some text -> text <> [])
    /\ (forall stdout,
           isPreview context = false ->
           shell command = Normal stdout -> trim stdout <> [] ->
           shown = Some (if rawValueSet item then trim stdout
                         else branchGlyph ++ str " " ++ trim stdout)).
Proof.
  cbv zeta. unfold GitBranchWidget.render, printsNothing.
  destruct (isPreview context).
  { eexists. split; [reflexivity|]. split; [|split].
    - split; [discriminate | intros (Hf & _); discriminate].
    - intros text Heq. inversion Heq. destruct (rawValueSet item); discriminate.
    - discriminate. }
  unfold GitBranchWidget.getGitBranch, shBind, shTry, execAsync, shRet.
  destruct (shell (str "git branch --show-current")) as [stdout|e].
  - destruct (trim stdout) as [|c r] eqn:Htrim; cbn [nonEmpty].
    + eexists. split; [reflexivity|]. split; [|split].
      * destruct (hideNoGit item); split; try tauto; try discriminate.
        intros (_ & Hf & _). discriminate.
      * intros text. destruct (hideNoGit item); [discriminate|].
        intros Heq. inversion Heq. discriminate.
      * intros out _ Hout Hne. inversion Hout; subst out. congruence.
    + eexists. split; [reflexivity|]. split; [|split].
      * split; [discriminate | intros (_ & _ & Hf); discriminate].
      * intros text Heq. inversion Heq. destruct (rawValueSet item); discriminate.
      * intros out _ Hout _. inversion Hout; subst out. now rewrite Htrim.
  - eexists. split; [reflexivity|]. split; [|split].
    + destruct (hideNoGit item); split; try tauto; try discriminate.
      intros (_ & Hf & _). discriminate.
    + intros text. destruct (hideNoGit item); [discriminate|].
      intros Heq. inversion Heq. discriminate.
    + discriminate.
Qed.

(** ** The worktree widget *)

Lemma stripPrefix_app (p s : JsString) : stripPrefix p (p ++ s) = Some s.
Proof.
  induction p as [|c p IH]; cbn [app stripPrefix]; [reflexivity|].
  now rewrite N.eqb_refl.
Qed.

Lemma stripPrefix_some (p : JsString) :
  forall s r, stripPrefix p s = Some r -> s = p ++ r.
Proof.
  induction p as [|c p IH]; intros s r; cbn [stripPrefix].
  - intros Heq. now inversion Heq.
  - destruct s as [|c' s]; [discriminate|].
    destruct (N.eqb_spec c c') as [<- | _]; [|discriminate].
    intros Hp. apply IH in Hp. now subst.
Qed.

(** A prefix found in [x ++ y] lies within [x], or [x] is its beginning
    and the remainder is found at the start of [y]. *)
Lemma stripPrefix_straddles (p : JsString) :
  forall x y r,
    stripPrefix p (x ++ y) = Some r ->
    (exists r', stripPrefix p x = Some r')
    \/ (exists p2, p = x ++ p2 /\ p2 <> [] /\ stripPrefix p2 y = Some r).
Proof.
  induction p as [|c p IH]; intros x y r; cbn [stripPrefix].
  - intros _. left. now eexists.
  - destruct x as [|c' x]; cbn [app].
    + intros Hy. right. exists (c :: p). split; [reflexivity|].
      split; [discriminate | exact Hy].
    + destruct (N.eqb_spec c c') as [<- | _]; [|discriminate].
      intros Hp. apply IH in Hp. destruct Hp as [Hin | (p2 & -> & Hne & Hp2)].
      * now left.
      * right. exists p2. split; [reflexivity | split; assumption].
Qed.

Lemma splitFrom_skip (separator : JsString) (x : JsString) :
  forall s piece, splitFrom separator (x ++ s) (length x) piece
                  = splitFrom separator s 0 piece.
Proof.
  induction x as [|c x IH]; intros s piece; [reflexivity|].
  cbn [app length splitFrom]. apply IH.
Qed.

Lemma splitFrom_no_occurrence (separator : JsString) (s : JsString) :
  separator <> [] ->
  ~ occursIn separator s ->
  forall piece, splitFrom separator s 0 piece = [piece ++ s].
Proof.
  intros Hsep. induction s as [|c r IH]; intros Hno piece; cbn [splitFrom].
  - now rewrite app_nil_r.
  - destruct (stripPrefix separator (c :: r)) as [after|] eqn:Hp.
    { exfalso. apply Hno. exists [], after. apply (stripPrefix_some _ _ _ Hp). }
    rewrite IH.
    + now rewrite <- app_assoc.
    + intros (before & after & ->). apply Hno. now exists (c :: before), after.
Qed.

(** The separator of the widget has its first character nowhere else, so
    an occurrence cannot begin inside another one. *)
Lemma splitFrom_first_occurrence (first : N) (more a b : JsString) :
  ~ In first more ->
  ~ occursIn (first :: more) a ->
  forall piece,
    splitFrom (first :: more) (a ++ (first :: more) ++ b) 0 piece
    = (piece ++ a) :: splitFrom (first :: more) b 0 [].
Proof.
  intros Hfirst. induction a as [|c a IH]; intros Hno piece.
  - cbn [app]. cbn [splitFrom].
    assert (stripPrefix (first :: more) (first :: more ++ b) = Some b) as ->
        by apply (stripPrefix_app (first :: more) b).
    rewrite app_nil_r.
    replace (length (first :: more) - 1)%nat with (length more)
      by (cbn [length]; lia).
    now rewrite splitFrom_skip.
  - cbn [app]. cbn [splitFrom].
    match goal with
    | |- context [stripPrefix ?p ?s] => destruct (stripPrefix p s) as [after|] eqn:Hp
    end.
    { exfalso.
      apply (stripPrefix_straddles (first :: more) (c :: a) ((first :: more) ++ b))
        in Hp.
      destruct Hp as [(r' & Hin) | (p2 & Hsplit & Hne & Hp2)].
      - apply Hno. exists [], r'. apply (stripPrefix_some _ _ _ Hin).
      - destruct p2 as [|c2 p2]; [contradiction|].
        cbn [app stripPrefix] in Hp2.
        destruct (N.eqb_spec c2 first) as [-> | _]; [|discriminate].
        inversion Hsplit as [[Hc Hmore]]. apply Hfirst.
        rewrite Hmore. apply in_or_app. right. now left. }
    rewrite IH.
    + now rewrite <- app_assoc.
    + intros (before & after & ->). apply Hno. now exists (c :: before), after.
Qed.

Lemma occursIn_length (needle s : JsString) :
  occursIn needle s -> (length needle <= length s)%nat.
Proof. intros (before & after & ->). rewrite !length_app. lia. Qed.

Lemma jsStringEqb_length (a b : JsString) :
  length a <> length b -> jsStringEqb a b = false.
Proof.
  intros Hlen. destruct (jsStringEqb a b) eqn:Heq; [|reflexivity].
  apply jsStringEqb_eq in Heq. now subst.
Qed.

(** X15.  In a linked worktree, where [git rev-parse --git-dir] prints
    the directory [<gitDir>.git/worktrees/<name>] (with a final line feed
    or other white space around it), the worktree widget finds [name]
    and, outside a preview, shows it: as it is when [rawValue] is set,
    after the worktree glyph and a space otherwise.  This holds when
    [.git/worktrees/] occurs neither in [gitDir] nor in [name], and the
    directory neither begins nor ends with white space and does not end
    in [/.git]. *)
Theorem worktree_widget_names_a_linked_worktree (shell : Shell) (ran : list JsString)
        (item : WidgetItem) (context : RenderContext)
        (gitDir name pre post : JsString) :
  let command := str "git rev-parse --git-dir" in
  let separator := str ".git/worktrees/" in
  shell command = Normal (pre ++ (gitDir ++ separator ++ name) ++ post) ->
  isPadding pre -> isPadding post ->
  isTrimmed (gitDir ++ separator ++ name) ->
  ~ occursIn separator gitDir ->
  ~ occursIn separator name ->
  endsWith (gitDir ++ separator ++ name) (str "/.git") = false ->
  GitWorktreeWidget.getGitWorktree shell ran = (Normal (Some name), ran ++ [command])
  /\ (isPreview context = false -> name <> [] ->
      GitWorktreeWidget.render item context shell ran
      = (Normal (Some (if rawValueSet item then name
                       else worktreeGlyph ++ str " " ++ name)),
         ran ++ [command])).
Proof.
  cbv zeta. intros Hout Hpre Hpost Htrimmed HnoDir HnoName Hends.
  assert (GitWorktreeWidget.getGitWorktree shell ran
          = (Normal (Some name), ran ++ [str "git rev-parse --git-dir"])) as Hrun.
  { unfold GitWorktreeWidget.getGitWorktree, shTry, shBind, execAsync, shRet.
    rewrite Hout. cbv zeta. rewrite trim_padded by assumption.
    rewrite Hends.
    rewrite jsStringEqb_length
      by (rewrite !length_app; cbn [length str map list_ascii_of_string]; cbn; lia).
    cbn [orb]. unfold split.
    change (str ".git/worktrees/") with (46%N :: str "git/worktrees/") in *.
    rewrite splitFrom_first_occurrence;
      [|vm_compute; intuition discriminate | exact HnoDir].
    rewrite splitFrom_no_occurrence; [reflexivity | discriminate | exact HnoName]. }
  split; [exact Hrun|].
  intros Hlive Hname. unfold GitWorktreeWidget.render. rewrite Hlive.
  unfold shBind. rewrite Hrun. destruct name as [|c r]; [contradiction|].
  reflexivity.
Qed.

Lemma worktree_widget_names_a_linked_worktree_witness :
  let shell := shellPrinting (str "git rev-parse --git-dir")
                 (str "/repo/.git/worktrees/feature" ++ [10%N]) in
  GitWorktreeWidget.getGitWorktree shell []
  = (Normal (Some (str "feature")), [] ++ [str "git rev-parse --git-dir"])
  /\ (false = false -> str "feature" <> [] ->
      GitWorktreeWidget.render
        {| rawValue := None; metadata := None; otherFields := [] |}
        {| isPreview := false |} shell []
      = (Normal (Some (worktreeGlyph ++ str " " ++ str "feature")),
         [] ++ [str "git rev-parse --git-dir"])).
Proof.
  apply (worktree_widget_names_a_linked_worktree
           (shellPrinting (str "git rev-parse --git-dir")
              (str "/repo/.git/worktrees/feature" ++ [10%N]))
           []
           {| rawValue := None; metadata := None; otherFields := [] |}
           {| isPreview := false |}
           (str "/repo/") (str "feature") [] [10%N]).
  - reflexivity.
  - constructor.
  - repeat constructor.
  - split; do 2 eexists; (split; [vm_compute; reflexivity | reflexivity]).
  - intros Hocc. apply occursIn_length in Hocc. vm_compute in Hocc. lia.
  - intros Hocc. apply occursIn_length in Hocc. vm_compute in Hocc. lia.
  - reflexivity.
Defined.

(** X16.  Outside a preview, when [git rev-parse --git-dir] fails, or
    prints a directory that is not [.git], does not end in [/.git] and
    does not hold [.git/worktrees/] (a bare repository, for one), the
    worktree widget finds no worktree: it renders the glyph with
    [no git], or nothing when [hideNoGit] is on. *)
Theorem worktree_widget_reports_no_git_elsewhere (shell : Shell) (ran : list JsString)
        (item : WidgetItem) (context : RenderContext) :
  let command := str "git rev-parse --git-dir" in
  let separator := str ".git/worktrees/" in
  isPreview context = false ->
  (match shell command with
   | Normal stdout =>
       ~ occursIn separator (trim stdout)
       /\ endsWith (trim stdout) (str "/.git") = false
       /\ trim stdout <> str ".git"
   | Throw _ => True
   end) ->
  GitWorktreeWidget.render item context shell ran
  = (Normal (if hideNoGit item then None else Some (worktreeGlyph ++ str " no git")),
     ran ++ [command]).
Proof.
  cbv zeta. intros Hlive Hout. unfold GitWorktreeWidget.render. rewrite Hlive.
  unfold GitWorktreeWidget.getGitWorktree, shTry, shBind, execAsync, shRet.
  destruct (shell (str "git rev-parse --git-dir")) as [stdout|e]; [|reflexivity].
  destruct Hout as (Hno & Hends & Hne). cbv zeta. rewrite Hends.
  destruct (jsStringEqb (trim stdout) (str ".git")) eqn:Heq.
  { apply jsStringEqb_eq in Heq. contradiction. }
  cbn [orb]. unfold split.
  rewrite splitFrom_no_occurrence; [reflexivity | discriminate | exact Hno].
Qed.

Lemma worktree_widget_reports_no_git_elsewhere_witness :
  let shell := shellPrinting (str "git rev-parse --git-dir") (str "." ++ [10%N]) in
  GitWorktreeWidget.render
    {| rawValue := None; metadata := None; otherFields := [] |}
    {| isPreview := false |} shell []
  = (Normal (Some (worktreeGlyph ++ str " no git")),
     [] ++ [str "git rev-parse --git-dir"]).
Proof.
  apply (worktree_widget_reports_no_git_elsewhere
           (shellPrinting (str "git rev-parse --git-dir") (str "." ++ [10%N]))
           []
           {| rawValue := None; metadata := None; otherFields := [] |}
           {| isPreview := false |}).
  - reflexivity.
  - change (~ occursIn (str ".git/worktrees/") (str ".")
            /\ endsWith (str ".") (str "/.git") = false
            /\ str "." <> str ".git").
    split; [|split; [reflexivity | discriminate]].
    intros Hocc. apply occursIn_length in Hocc. vm_compute in Hocc. lia.
Defined.

(** ** The changes widget *)

Lemma digitsThen_captures (rest : JsString -> option (list JsString)) (s : JsString) :
  forall run groups,
    digitsThen rest s = Some (run, groups) -> isDigitRun run.
Proof.
  induction s as [|x r IH]; intros run groups; cbn [digitsThen]; [discriminate|].
  destruct (isDigit x) eqn:Hx; [|discriminate].
  destruct (digitsThen rest r) as [[more groups']|].
  - destruct (IH more groups' eq_refl) as [_ Hall].
    intros Heq. inversion Heq; subst.
    split; [discriminate | now constructor].
  - destruct (rest r); [|discriminate].
    intros Heq. inversion Heq; subst. split; [discriminate | now repeat constructor].
Qed.

Lemma regExpExec_captures (rest : list RegExpTerm) (s : JsString) :
  forall run groups,
    regExpExec (Digits :: rest) s = Some (run :: groups) -> isDigitRun run.
Proof.
  induction s as [|x r IH]; intros run groups; cbn [regExpExec matchHere].
  - cbn [digitsThen]. discriminate.
  - destruct (digitsThen (matchHere rest) (x :: r)) as [[captured groups']|] eqn:Hrun.
    + intros Heq. inversion Heq; subst. eapply digitsThen_captures; eassumption.
    + apply IH.
Qed.

Lemma isDigit_not_space (c : N) : isDigit c = true -> isTrimSpace c = false.
Proof.
  unfold isDigit, isTrimSpace. intros Hc. apply andb_prop in Hc.
  destruct Hc as [Hlo Hhi]. apply N.leb_le in Hlo. apply N.leb_le in Hhi.
  repeat match goal with
         | |- context [(?a <=? ?b)%N] => destruct (N.leb_spec a b); try lia
         | |- context [(?a =? ?b)%N] => destruct (N.eqb_spec a b); try lia
         end; reflexivity.
Qed.

Lemma readDigitRun_grows (s : JsString) :
  forall acc len value len' rest,
    0 <= acc ->
    readDigitRun s acc len = (value, len', rest) ->
    0 <= value /\ len <= len'.
Proof.
  induction s as [|c s IH]; intros acc len value len' rest Hacc; cbn [readDigitRun].
  - intros Heq. inversion Heq; subst. lia.
  - destruct (isDigit c) eqn:Hc.
    + intros Hrun. apply IH in Hrun; [lia|].
      unfold isDigit in Hc. apply andb_prop in Hc. destruct Hc as [Hlo _].
      apply N.leb_le in Hlo. lia.
    + intros Heq. inversion Heq; subst. lia.
Qed.

Lemma toNumber_small (n : Z) : - 2 ^ 53 < n < 2 ^ 53 -> toNumber n = Whole n.
Proof.
  intros Hn. unfold toNumber. cbv zeta.
  destruct (Z.ltb_spec (Z.abs n) (2 ^ 53)); [reflexivity | lia].
Qed.

Lemma toNumber_notNegative (n : Z) : 0 <= n -> notNegative (toNumber n).
Proof.
  intros Hn. unfold toNumber. cbv zeta.
  destruct (Z.abs n <? 2 ^ 53); [exact Hn|].
  set (e := Z.log2 (Z.abs n) - 52).
  set (q := Z.abs n / 2 ^ e).
  assert (0 <= 2 ^ e) as Hpow by (apply Z.pow_nonneg; lia).
  assert (0 <= q) as Hq by (apply Z_div_nonneg_nonneg; lia).
  match goal with
  | |- context [if ?c then q + 1 else q] => set (q' := if c then q + 1 else q)
  end.
  assert (0 <= q') as Hq'
      by (subst q'; match goal with |- context [if ?c then _ else _] => destruct c end;
          lia).
  destruct (q' * 2 ^ e >=? 2 ^ 1024).
  - cbn [notNegative]. now apply Z.ltb_ge.
  - cbn [notNegative]. apply Z.mul_nonneg_nonneg; [|now apply Z.mul_nonneg_nonneg].
    destruct n; cbn; lia.
Qed.

Lemma plus_notNegative (a b : JsInteger) :
  notNegative a -> notNegative b -> notNegative (plus a b).
Proof.
  destruct a as [|x|s], b as [|y|s']; cbn [notNegative plus]; try tauto.
  - intros Hx Hy. apply toNumber_notNegative. lia.
  - intros -> ->. reflexivity.
Qed.

Lemma numberToString_small (n : Z) :
  0 <= n < 2 ^ 53 -> numberToString (Whole n) = decimal n.
Proof.
  intros Hn. unfold numberToString. cbv zeta.
  destruct (Z.ltb_spec n 0); [lia|].
  rewrite Z.abs_eq by lia.
  destruct (Z.ltb_spec n (2 ^ 53)); [reflexivity | lia].
Qed.

Lemma parseInt_digitRun (run : JsString) :
  isDigitRun run -> notNegative (parseInt run).
Proof.
  intros [Hne Hall]. destruct run as [|c r]; [contradiction|].
  inversion Hall as [|? ? Hc Hr]; subst.
  unfold parseInt. cbn [trimStart]. rewrite (isDigit_not_space c Hc).
  assert ((c =? 45)%N = false /\ (c =? 43)%N = false) as [-> ->].
  { unfold isDigit in Hc. apply andb_prop in Hc. destruct Hc as [Hlo _].
    apply N.leb_le in Hlo. split; apply N.eqb_neq; lia. }
  cbn [readDigitRun]. rewrite Hc.
  destruct (readDigitRun r (10 * 0 + (Z.of_N c - 48)) (0 + 1))
    as [[value len] rest] eqn:Hrun.
  apply readDigitRun_grows in Hrun.
  - destruct (Z.eqb_spec len 0) as [Hzero | _]; [lia|].
    apply toNumber_notNegative. lia.
  - unfold isDigit in Hc. apply andb_prop in Hc. destruct Hc as [Hlo _].
    apply N.leb_le in Hlo. lia.
Qed.

Lemma countOf_counts (rest : list RegExpTerm) (stat : JsString) :
  notNegative (GitChangesWidget.countOf (Digits :: rest) stat).
Proof.
  unfold GitChangesWidget.countOf.
  destruct (regExpExec (Digits :: rest) stat) as [[|captured groups]|] eqn:Hexec;
    try (cbn [notNegative]; lia).
  apply regExpExec_captures in Hexec.
  pose proof (parseInt_digitRun captured Hexec) as Hparsed.
  destruct captured as [|c r]; [destruct Hexec; contradiction|].
  cbn [nonEmpty]. exact Hparsed.
Qed.

Lemma getGitChanges_totals (shell : Shell) (ran : list JsString) :
  exists i d,
    notNegative i /\ notNegative d
    /\ GitChangesWidget.getGitChanges shell ran
       = (Normal (Some {| GitChangesWidget.insertions := i;
                          GitChangesWidget.deletions := d |}),
          ran ++ [str "git diff --shortstat"; str "git diff --cached --shortstat"])
    /\ (printsNothing shell (str "git diff --shortstat") ->
        printsNothing shell (str "git diff --cached --shortstat") ->
        i = Whole 0 /\ d = Whole 0).
Proof.
  unfold GitChangesWidget.getGitChanges, GitChangesWidget.shortstat, printsNothing.
  unfold shTry, shBind, execAsync, shRet. cbv zeta.
  set (unstaged := match shell (str "git diff --shortstat") with
                   | Normal stdout => stdout
                   | Throw _ => []
                   end).
  set (staged := match shell (str "git diff --cached --shortstat") with
                 | Normal stdout => stdout
                 | Throw _ => []
                 end).
  pose proof (countOf_counts (literal " insertion") (trim unstaged)) as Hi1.
  pose proof (countOf_counts (literal " deletion") (trim unstaged)) as Hd1.
  pose proof (countOf_counts (literal " insertion") (trim staged)) as Hi2.
  pose proof (countOf_counts (literal " deletion") (trim staged)) as Hd2.
  fold GitChangesWidget.insertionPattern in Hi1, Hi2.
  fold GitChangesWidget.deletionPattern in Hd1, Hd2.
  set (i1 := if nonEmpty (trim unstaged)
             then plus (Whole 0)
                       (GitChangesWidget.countOf GitChangesWidget.insertionPattern
                          (trim unstaged))
             else Whole 0).
  set (d1 := if nonEmpty (trim unstaged)
             then plus (Whole 0)
                       (GitChangesWidget.countOf GitChangesWidget.deletionPattern
                          (trim unstaged))
             else Whole 0).
  exists (if nonEmpty (trim staged)
          then plus i1 (GitChangesWidget.countOf GitChangesWidget.insertionPattern
                          (trim staged))
          else i1),
         (if nonEmpty (trim staged)
          then plus d1 (GitChangesWidget.countOf GitChangesWidget.deletionPattern
                          (trim staged))
          else d1).
  assert (notNegative (Whole 0)) as Hzero by (cbn; lia).
  assert (notNegative i1) as Hn1
      by (subst i1; destruct (nonEmpty (trim unstaged));
          [now apply plus_notNegative | exact Hzero]).
  assert (notNegative d1) as Hn2
      by (subst d1; destruct (nonEmpty (trim unstaged));
          [now apply plus_notNegative | exact Hzero]).
  split; [destruct (nonEmpty (trim staged)); [now apply plus_notNegative | exact Hn1]|].
  split; [destruct (nonEmpty (trim staged)); [now apply plus_notNegative | exact Hn2]|].
  split.
  - subst i1 d1 unstaged staged.
    destruct (shell (str "git diff --shortstat")) as [out1|e1];
      destruct (shell (str "git diff --cached --shortstat")) as [out2|e2];
      cbn [fst snd];
      repeat match goal with
             | |- context [nonEmpty ?s] => destruct (nonEmpty s)
             end;
      rewrite <- ?app_assoc; reflexivity.
  - subst i1 d1 unstaged staged. intros Hu Hs.
    destruct (shell (str "git diff --shortstat")) as [out1|e1];
      destruct (shell (str "git diff --cached --shortstat")) as [out2|e2];
      rewrite ?Hu, ?Hs; cbn [nonEmpty]; split; reflexivity.
Qed.

(** X17.  The changes widget always renders a text of the form
    [(+i,-d)], where [i] and [d] are two numbers that are not negative
    and not NaN, written as a template literal writes a number (a count
    of 2^53 or more is a rounded double, one of 2^1024 or more is
    [Infinity]); the text is [(+0,-0)] when each of the two git commands
    fails or prints white space only: a failure of a command is taken as
    no output, so [getGitChanges] never returns null.  Hence the widget
    never renders [(no git)] nor null, and what it renders does not
    depend on the item: the setting [hideNoGit] is without effect. *)
Theorem changes_widget_never_reports_no_git (item : WidgetItem)
        (context : RenderContext) (shell : Shell) (ran : list JsString) :
  (exists i d,
      notNegative i /\ notNegative d
      /\ fst (GitChangesWidget.render item context shell ran)
         = Normal (Some (str "(+" ++ numberToString i
                         ++ str ",-" ++ numberToString d ++ str ")"))
      /\ (isPreview context = false ->
          printsNothing shell (str "git diff --shortstat") ->
          printsNothing shell (str "git diff --cached --shortstat") ->
          i = Whole 0 /\ d = Whole 0))
  /\ forall other,
       GitChangesWidget.render other context shell ran
       = GitChangesWidget.render item context shell ran.
Proof.
  unfold GitChangesWidget.render. split.
  - destruct (isPreview context).
    + exists (Whole 42), (Whole 10). cbn [notNegative].
      repeat split; try lia; discriminate.
    + unfold shBind.
      destruct (getGitChanges_totals shell ran) as (i & d & Hi & Hd & Hrun & Hzero).
      rewrite Hrun. exists i, d.
      split; [exact Hi|]. split; [exact Hd|]. split; [reflexivity|].
      intros _. exact Hzero.
  - intros other. destruct (isPreview context); [reflexivity|].
    unfold shBind.
    destruct (getGitChanges_totals shell ran) as (i & d & _ & _ & Hrun & _).
    rewrite Hrun. reflexivity.
Qed.

Lemma valueOf_snoc (acc : Z) (digits : JsString) (c : N) :
  valueOf acc (digits ++ [c]) = 10 * valueOf acc digits + (Z.of_N c - 48).
Proof. unfold valueOf. now rewrite fold_left_app. Qed.

Lemma readDigitRun_run (digits tail : JsString) :
  Forall (fun c => isDigit c = true) digits ->
  noDigitAhead tail ->
  forall acc len,
    readDigitRun (digits ++ tail) acc len
    = (valueOf acc digits, len + Z.of_nat (length digits), tail).
Proof.
  intros Hall Htail. induction Hall as [|c digits Hc Hall IH]; intros acc len.
  - cbn [app length valueOf fold_left]. rewrite Z.add_0_r.
    destruct tail as [|t tail]; [reflexivity|].
    cbn [readDigitRun]. cbn in Htail. now rewrite Htail.
  - cbn [app readDigitRun]. rewrite Hc, IH. cbn [length valueOf fold_left].
    f_equal. f_equal. lia.
Qed.

Lemma parseInt_run (digits : JsString) :
  isDigitRun digits -> parseInt digits = toNumber (valueOf 0 digits).
Proof.
  intros [Hne Hall]. destruct digits as [|c r]; [contradiction|].
  inversion Hall as [|? ? Hc Hr]; subst.
  unfold parseInt. cbn [trimStart]. rewrite (isDigit_not_space c Hc).
  assert ((c =? 45)%N = false /\ (c =? 43)%N = false) as [-> ->].
  { unfold isDigit in Hc. apply andb_prop in Hc. destruct Hc as [Hlo _].
    apply N.leb_le in Hlo. split; apply N.eqb_neq; lia. }
  pose proof (readDigitRun_run (c :: r) [] Hall I 0 0) as Hrun.
  rewrite app_nil_r in Hrun. rewrite Hrun.
  destruct (Z.eqb_spec (0 + Z.of_nat (length (c :: r))) 0) as [Hzero | _].
  - cbn [length] in Hzero. lia.
  - f_equal. lia.
Qed.

Lemma decimalOf_digits (fuel : nat) :
  forall n acc,
    (0 < fuel)%nat ->
    0 <= n < 2 ^ Z.of_nat fuel ->
    exists digits,
      decimalOf fuel n acc = digits ++ acc
      /\ isDigitRun digits /\ valueOf 0 digits = n.
Proof.
  induction fuel as [|fuel IH]; intros n acc Hfuel Hn; [lia|].
  cbn [decimalOf].
  assert (0 <= n mod 10 <= 9) as Hdigit by zdiv.
  pose proof (isDigit_digitChar _ Hdigit) as Hd.
  pose proof (digitChar_value _ Hdigit) as Hv.
  destruct (Z.ltb_spec n 10) as [Hsmall | Hlarge].
  - exists [digitChar (n mod 10)]. split; [reflexivity|].
    split; [split; [discriminate | now repeat constructor]|].
    cbn [valueOf fold_left]. rewrite Hv. zdiv.
  - rewrite Nat2Z.inj_succ, Z.pow_succ_r in Hn by lia.
    assert (0 < fuel)%nat as Hmore.
    { destruct fuel as [|k]; [|lia]. change (2 ^ Z.of_nat 0) with 1 in Hn. lia. }
    assert (0 <= n / 10 < 2 ^ Z.of_nat fuel) as Hrest by zdiv.
    destruct (IH (n / 10) (digitChar (n mod 10) :: acc) Hmore Hrest)
      as (digits & Hrun & [Hne Hall] & Hvalue).
    exists (digits ++ [digitChar (n mod 10)]).
    split; [rewrite Hrun; now rewrite <- app_assoc|].
    split.
    + split; [destruct digits; discriminate|].
      apply Forall_app. split; [exact Hall | now repeat constructor].
    + rewrite valueOf_snoc, Hvalue, Hv. zdiv.
Qed.

Lemma decimal_digits (n : Z) :
  0 <= n ->
  isDigitRun (decimal n) /\ valueOf 0 (decimal n) = n.
Proof.
  intros Hn. unfold decimal.
  destruct (decimalOf_digits (S (Z.to_nat (Z.log2 n))) n []) as (digits & Hrun & Hd & Hv).
  - lia.
  - split; [lia|]. rewrite Nat2Z.inj_succ, Z2Nat.id by apply Z.log2_nonneg.
    destruct (Z.eq_dec n 0) as [-> | Hpos]; [reflexivity|].
    apply Z.log2_spec. lia.
  - rewrite Hrun, app_nil_r. split; assumption.
Qed.

Lemma parseInt_decimal (n : Z) :
  0 <= n -> parseInt (decimal n) = toNumber n.
Proof.
  intros Hn. destruct (decimal_digits n Hn) as (Hd & Hv).
  now rewrite parseInt_run, Hv.
Qed.

Section Counting.
Variable first : N.
Variable more : list RegExpTerm.
Hypothesis first_no_digit : isDigit first = false.

Lemma matchHere_digit_ahead (c : N) (s : JsString) :
  isDigit c = true -> matchHere (Char first :: more) (c :: s) = None.
Proof.
  intros Hc. cbn [matchHere].
  destruct (N.eqb_spec c first) as [-> | _]; [congruence | reflexivity].
Qed.

Lemma digitsThen_no_match (run tail : JsString) :
  Forall (fun c => isDigit c = true) run ->
  noDigitAhead tail ->
  matchHere (Char first :: more) tail = None ->
  digitsThen (matchHere (Char first :: more)) (run ++ tail) = None.
Proof.
  intros Hall Htail Hno. induction Hall as [|c run Hc Hall IH].
  - cbn [app]. destruct tail as [|t tail]; [reflexivity|].
    cbn [digitsThen]. cbn in Htail. now rewrite Htail.
  - cbn [app digitsThen]. rewrite Hc, IH.
    destruct run as [|d run]; [cbn [app]; now rewrite Hno|].
    inversion Hall as [|? ? Hd _]; subst.
    change ((d :: run) ++ tail) with (d :: run ++ tail).
    now rewrite matchHere_digit_ahead.
Qed.

Lemma regExpExec_skips_run (run tail : JsString) :
  Forall (fun c => isDigit c = true) run ->
  noDigitAhead tail ->
  matchHere (Char first :: more) tail = None ->
  regExpExec (Digits :: Char first :: more) (run ++ tail)
  = regExpExec (Digits :: Char first :: more) tail.
Proof.
  intros Hall Htail Hno. induction Hall as [|c run Hc Hall IH]; [reflexivity|].
  change ((c :: run) ++ tail) with (c :: run ++ tail).
  cbn [regExpExec]. cbn [matchHere].
  change (c :: run ++ tail) with ((c :: run) ++ tail).
  rewrite digitsThen_no_match; [exact IH | now constructor | exact Htail | exact Hno].
Qed.

Lemma regExpExec_skips_text (text tail : JsString) :
  Forall (fun c => isDigit c = false) text ->
  regExpExec (Digits :: Char first :: more) (text ++ tail)
  = regExpExec (Digits :: Char first :: more) tail.
Proof.
  induction 1 as [|c text Hc Htext IH]; [reflexivity|].
  cbn [app regExpExec]. cbn [matchHere digitsThen].
  now rewrite Hc.
Qed.

Lemma digitsThen_takes_run (run tail : JsString) (groups : list JsString) :
  isDigitRun run ->
  noDigitAhead tail ->
  matchHere (Char first :: more) tail = Some groups ->
  digitsThen (matchHere (Char first :: more)) (run ++ tail) = Some (run, groups).
Proof.
  intros [Hne Hall] Htail Hyes. induction Hall as [|c run Hc Hall IH]; [contradiction|].
  cbn [app digitsThen]. rewrite Hc.
  destruct run as [|d run].
  - cbn [app].
    assert (digitsThen (matchHere (Char first :: more)) tail = None) as ->.
    { destruct tail as [|t tail]; [reflexivity|].
      cbn [digitsThen]. cbn in Htail. now rewrite Htail. }
    now rewrite Hyes.
  - now rewrite IH by discriminate.
Qed.

Lemma regExpExec_finds_run (run tail : JsString) (groups : list JsString) :
  isDigitRun run ->
  noDigitAhead tail ->
  matchHere (Char first :: more) tail = Some groups ->
  regExpExec (Digits :: Char first :: more) (run ++ tail) = Some (run :: groups).
Proof.
  intros Hrun Htail Hyes.
  destruct run as [|c run]; [destruct Hrun; contradiction|].
  change ((c :: run) ++ tail) with (c :: run ++ tail).
  cbn [regExpExec]. cbn [matchHere].
  change (c :: run ++ tail) with ((c :: run) ++ tail).
  now rewrite (digitsThen_takes_run _ _ groups).
Qed.

End Counting.

Lemma matchHere_literal (word tail : JsString) :
  matchHere (map Char word) (word ++ tail) = Some [].
Proof.
  induction word as [|c word IH]; [reflexivity|].
  cbn [map app matchHere]. now rewrite N.eqb_refl.
Qed.

Lemma last_ends (a b : JsString) (c : N) : last b = Some c -> last (a ++ b) = Some c.
Proof. intros Hb. rewrite last_app, Hb. reflexivity. Qed.

Lemma isTrimmed_ends (digits rest : JsString) (c : N) :
  isDigitRun digits ->
  last (digits ++ rest) = Some c -> isTrimSpace c = false ->
  isTrimmed (digits ++ rest).
Proof.
  intros [Hne Hall] Hlast Hc. split.
  - destruct digits as [|d digits]; [contradiction|].
    inversion Hall as [|? ? Hd _]; subst.
    exists d, (digits ++ rest). split; [reflexivity | now apply isDigit_not_space].
  - apply last_Some in Hlast. destruct Hlast as (init & ->).
    exists c, (rev init). split; [|exact Hc].
    now rewrite rev_app_distr.
Qed.

Ltac skip_text word :=
  rewrite (regExpExec_skips_text 32%N (literal word))
    by (repeat constructor).

Lemma countOf_shortstatLine (files insertions deletions : Z) :
  1 <= files -> 0 <= insertions -> 0 <= deletions ->
  let stat := trim (shortstatLine files insertions deletions) in
  nonEmpty stat = true
  /\ GitChangesWidget.countOf GitChangesWidget.insertionPattern stat
     = toNumber insertions
  /\ GitChangesWidget.countOf GitChangesWidget.deletionPattern stat
     = toNumber deletions.
Proof.
  intros Hf Hi Hd. cbv zeta.
  destruct (decimal_digits files ltac:(lia)) as (Hrf & _).
  destruct (decimal_digits insertions Hi) as (Hri & _).
  destruct (decimal_digits deletions Hd) as (Hrd & _).
  pose proof (parseInt_decimal insertions Hi) as Hpi.
  pose proof (parseInt_decimal deletions Hd) as Hpd.
  set (nf := decimal files) in *.
  set (ni := decimal insertions) in *.
  set (nd := decimal deletions) in *.
  assert (Forall (fun c => isDigit c = true) nf) as Haf by apply Hrf.
  assert (Forall (fun c => isDigit c = true) ni) as Hai by apply Hri.
  assert (Forall (fun c => isDigit c = true) nd) as Had by apply Hrd.
  assert (nonEmpty ni = true) as Hni
      by (destruct ni; [destruct Hri; contradiction | reflexivity]).
  assert (nonEmpty nd = true) as Hnd
      by (destruct nd; [destruct Hrd; contradiction | reflexivity]).
  set (tf := str (if files =? 1 then " file changed" else " files changed")).
  set (partI := if negb (insertions =? 0) || (deletions =? 0)
                then str ", " ++ ni
                     ++ str (if insertions =? 1 then " insertion(+)"
                             else " insertions(+)")
                else []).
  set (partD := if negb (deletions =? 0) || (insertions =? 0)
                then str ", " ++ nd
                     ++ str (if deletions =? 1 then " deletion(-)"
                             else " deletions(-)")
                else []).
  assert (shortstatLine files insertions deletions
          = str " " ++ (nf ++ tf ++ partI ++ partD) ++ [10%N]) as Hline.
  { unfold shortstatLine. fold nf ni nd tf partI partD.
    now rewrite <- !app_assoc. }
  assert (last (nf ++ tf ++ partI ++ partD) = Some 41%N) as Hlast.
  { subst partI partD.
    destruct (Z.eqb_spec insertions 0) as [Hi0 | Hi0];
      destruct (Z.eqb_spec deletions 0) as [Hd0 | Hd0]; cbn [negb orb];
      rewrite ?app_nil_r;
      repeat apply last_ends;
      destruct (deletions =? 1); destruct (insertions =? 1); reflexivity. }
  rewrite Hline, trim_padded;
    [ | repeat constructor | repeat constructor
      | eapply isTrimmed_ends; [exact Hrf | exact Hlast | reflexivity] ].
  assert (nonEmpty (nf ++ tf ++ partI ++ partD) = true) as Hne.
  { destruct nf; [destruct Hrf; contradiction | reflexivity]. }
  split; [exact Hne|].
  unfold GitChangesWidget.countOf.
  change GitChangesWidget.insertionPattern
    with (Digits :: Char 32 :: literal "insertion").
  change GitChangesWidget.deletionPattern
    with (Digits :: Char 32 :: literal "deletion").
  assert (tf = str " file changed" \/ tf = str " files changed") as Htf
      by (subst tf; destruct (files =? 1); [now left | now right]).
  split.
  - (* insertions *)
    rewrite (regExpExec_skips_run 32%N (literal "insertion") eq_refl nf);
      [ | exact Haf | destruct Htf as [-> | ->]; reflexivity
        | destruct Htf as [-> | ->]; reflexivity ].
    rewrite (regExpExec_skips_text 32%N (literal "insertion") tf)
      by (destruct Htf as [-> | ->]; repeat constructor).
    subst partI partD.
    destruct (Z.eqb_spec insertions 0) as [Hi0 | Hi0];
      destruct (Z.eqb_spec deletions 0) as [Hd0 | Hd0]; cbn [negb orb].
    + (* both zero: both parts are printed *)
      rewrite <- ?app_assoc. skip_text "insertion".
      rewrite (regExpExec_finds_run 32%N (literal "insertion") ni _ []);
        [now rewrite Hni, Hpi | exact Hri | | ];
        destruct (insertions =? 1); reflexivity.
    + (* no insertion, deletions: the insertions are left out *)
      cbn [app]. rewrite <- ?app_assoc. skip_text "insertion".
      rewrite (regExpExec_skips_run 32%N (literal "insertion") eq_refl nd);
        [ | exact Had | destruct (deletions =? 1); reflexivity
          | destruct (deletions =? 1); reflexivity ].
      rewrite <- (app_nil_r (str (if deletions =? 1 then _ else _))).
      rewrite (regExpExec_skips_text 32%N (literal "insertion"))
        by (destruct (deletions =? 1); repeat constructor).
      subst insertions. reflexivity.
    + rewrite app_nil_r, <- ?app_assoc. skip_text "insertion".
      rewrite (regExpExec_finds_run 32%N (literal "insertion") ni _ []);
        [now rewrite Hni, Hpi | exact Hri | | ];
        destruct (insertions =? 1); reflexivity.
    + rewrite <- ?app_assoc. skip_text "insertion".
      rewrite (regExpExec_finds_run 32%N (literal "insertion") ni _ []);
        [now rewrite Hni, Hpi | exact Hri | | ];
        destruct (insertions =? 1); reflexivity.
  - (* deletions *)
    rewrite (regExpExec_skips_run 32%N (literal "deletion") eq_refl nf);
      [ | exact Haf | destruct Htf as [-> | ->]; reflexivity
        | destruct Htf as [-> | ->]; reflexivity ].
    rewrite (regExpExec_skips_text 32%N (literal "deletion") tf)
      by (destruct Htf as [-> | ->]; repeat constructor).
    subst partI partD.
    destruct (Z.eqb_spec insertions 0) as [Hi0 | Hi0];
      destruct (Z.eqb_spec deletions 0) as [Hd0 | Hd0]; cbn [negb orb].
    + rewrite <- ?app_assoc. skip_text "deletion".
      rewrite (regExpExec_skips_run 32%N (literal "deletion") eq_refl ni);
        [ | exact Hai | destruct (insertions =? 1); reflexivity
          | destruct (insertions =? 1); reflexivity ].
      rewrite (regExpExec_skips_text 32%N (literal "deletion")
                 (str (if insertions =? 1 then _ else _)))
        by (destruct (insertions =? 1); repeat constructor).
      skip_text "deletion".
      rewrite (regExpExec_finds_run 32%N (literal "deletion") nd _ []);
        [now rewrite Hnd, Hpd | exact Hrd | | ];
        destruct (deletions =? 1); reflexivity.
    + cbn [app]. rewrite <- ?app_assoc. skip_text "deletion".
      rewrite (regExpExec_finds_run 32%N (literal "deletion") nd _ []);
        [now rewrite Hnd, Hpd | exact Hrd | | ];
        destruct (deletions =? 1); reflexivity.
    + rewrite app_nil_r, <- ?app_assoc. skip_text "deletion".
      rewrite (regExpExec_skips_run 32%N (literal "deletion") eq_refl ni);
        [ | exact Hai | destruct (insertions =? 1); reflexivity
          | destruct (insertions =? 1); reflexivity ].
      rewrite <- (app_nil_r (str (if insertions =? 1 then _ else _))).
      rewrite (regExpExec_skips_text 32%N (literal "deletion"))
        by (destruct (insertions =? 1); repeat constructor).
      subst deletions. reflexivity.
    + rewrite <- ?app_assoc. skip_text "deletion".
      rewrite (regExpExec_skips_run 32%N (literal "deletion") eq_refl ni);
        [ | exact Hai | destruct (insertions =? 1); reflexivity
          | destruct (insertions =? 1); reflexivity ].
      rewrite (regExpExec_skips_text 32%N (literal "deletion")
                 (str (if insertions =? 1 then _ else _)))
        by (destruct (insertions =? 1); repeat constructor).
      skip_text "deletion".
      rewrite (regExpExec_finds_run 32%N (literal "deletion") nd _ []);
        [now rewrite Hnd, Hpd | exact Hrd | | ];
        destruct (deletions =? 1); reflexivity.
Qed.

Lemma countOf_shortstatOutput (stat : option (Z * Z * Z)) :
  wellFormedStat stat ->
  let text := trim (shortstatOutput stat) in
  (if nonEmpty text
   then GitChangesWidget.countOf GitChangesWidget.insertionPattern text
   else Whole 0) = toNumber (insertedLines stat)
  /\ (if nonEmpty text
      then GitChangesWidget.countOf GitChangesWidget.deletionPattern text
      else Whole 0) = toNumber (deletedLines stat).
Proof.
  destruct stat as [[[files insertions] deletions]|]; cbn [wellFormedStat].
  - intros (Hf & Hi & Hd).
    destruct (countOf_shortstatLine files insertions deletions Hf Hi Hd)
      as (Hne & Hins & Hdel).
    cbv zeta in *. cbn [shortstatOutput insertedLines deletedLines].
    rewrite Hne. split; assumption.
  - intros _. split; reflexivity.
Qed.

(** X18.  The changes widget decodes the lines of statistics git
    prints and adds them up.  When [git diff --shortstat] and
    [git diff --cached --shortstat] each print nothing or a line such as
    [ 3 files changed, 12 insertions(+), 4 deletions(-)] (with the
    singular forms for a count of one, and a part left out when its count
    is zero and the other is not), and the sum of the insertions and the
    sum of the deletions are below 2^53, the widget shows these two
    sums, in decimal. *)
Theorem changes_widget_adds_up_the_statistics (item : WidgetItem)
        (context : RenderContext) (shell : Shell) (ran : list JsString)
        (unstaged staged : option (Z * Z * Z)) :
  isPreview context = false ->
  shell (str "git diff --shortstat") = Normal (shortstatOutput unstaged) ->
  shell (str "git diff --cached --shortstat") = Normal (shortstatOutput staged) ->
  wellFormedStat unstaged -> wellFormedStat staged ->
  insertedLines unstaged + insertedLines staged < 2 ^ 53 ->
  deletedLines unstaged + deletedLines staged < 2 ^ 53 ->
  fst (GitChangesWidget.render item context shell ran)
  = Normal (Some (str "(+"
                  ++ decimal (insertedLines unstaged + insertedLines staged)
                  ++ str ",-"
                  ++ decimal (deletedLines unstaged + deletedLines staged)
                  ++ str ")")).
Proof.
  intros Hlive Hunstaged Hstaged Hwu Hws Hsumi Hsumd.
  destruct (countOf_shortstatOutput unstaged Hwu) as (Hiu & Hdu).
  destruct (countOf_shortstatOutput staged Hws) as (His & Hds).
  assert (0 <= insertedLines unstaged /\ 0 <= deletedLines unstaged) as [Hpiu Hpdu]
      by (destruct unstaged as [[[f i] d]|]; cbn in *; lia).
  assert (0 <= insertedLines staged /\ 0 <= deletedLines staged) as [Hpis Hpds]
      by (destruct staged as [[[f i] d]|]; cbn in *; lia).
  rewrite toNumber_small in Hiu, Hdu, His, Hds by lia.
  cbv zeta in *.
  rewrite <- (numberToString_small (insertedLines unstaged + insertedLines staged))
    by lia.
  rewrite <- (numberToString_small (deletedLines unstaged + deletedLines staged))
    by lia.
  unfold GitChangesWidget.render. rewrite Hlive.
  unfold shBind at 1.
  unfold GitChangesWidget.getGitChanges, GitChangesWidget.shortstat.
  unfold shTry, shBind, execAsync, shRet. rewrite Hunstaged, Hstaged. cbv zeta.
  destruct (nonEmpty (trim (shortstatOutput unstaged)));
    destruct (nonEmpty (trim (shortstatOutput staged)));
    repeat match goal with
           | H : Whole 0 = Whole _ |- _ => injection H as H; rewrite <- H in *; clear H
           | H : GitChangesWidget.countOf _ _ = Whole _ |- _ => rewrite H; clear H
           end;
    cbn [fst GitChangesWidget.insertions GitChangesWidget.deletions];
    repeat (progress cbn [plus]; rewrite ?toNumber_small by lia);
    repeat (f_equal; try lia).
Qed.

Lemma changes_widget_adds_up_the_statistics_witness :
  fst (GitChangesWidget.render
         {| rawValue := None; metadata := None; otherFields := [] |}
         {| isPreview := false |}
         (gitDiffShell (str " 3 files changed, 12 insertions(+), 4 deletions(-)" ++ [10%N])
                       (str " 1 file changed, 1 insertion(+)" ++ [10%N]))
         [])
  = Normal (Some (str "(+13,-4)")).
Proof.
  apply (changes_widget_adds_up_the_statistics
           {| rawValue := None; metadata := None; otherFields := [] |}
           {| isPreview := false |}
           (gitDiffShell (str " 3 files changed, 12 insertions(+), 4 deletions(-)" ++ [10%N])
                         (str " 1 file changed, 1 insertion(+)" ++ [10%N]))
           [] (Some (3, 12, 4)) (Some (1, 1, 0))).
  - reflexivity.
  - reflexivity.
  - reflexivity.
  - unfold wellFormedStat. lia.
  - unfold wellFormedStat. lia.
  - vm_compute. reflexivity.
  - vm_compute. reflexivity.
Defined.

(** Numbers past 2^53, as they are rounded and printed: ties go to the
    even significand, the shortest numeral that denotes the double is
    printed, with an exponent from 10^21 on, and 2^1024 is infinite. *)
Example large_numbers_are_rounded_doubles :
  map (fun n => numberToString (toNumber n))
      [2 ^ 53 + 1; 2 ^ 53 + 3; 2 ^ 64; 10 ^ 21 - 1; 10 ^ 23;
       123456789012345678901234567890; - (10 ^ 25); 2 ^ 1024 - 1; 2 ^ 1024]
  = map str ["9007199254740992"; "9007199254740996"; "18446744073709552000";
             "1e+21"; "1e+23"; "1.2345678901234568e+29"; "-1e+25";
             "Infinity"; "Infinity"]%string.
Proof. vm_compute. reflexivity. Qed.

(** Counts past 2^53 in the changes widget. *)
Example changes_widget_rounds_large_counts :
  let shown unstaged :=
    fst (GitChangesWidget.render
           {| rawValue := None; metadata := None; otherFields := [] |}
           {| isPreview := false |}
           (gitDiffShell unstaged []) []) in
  shown (str " 1 file changed, 9007199254740993 insertions(+)" ++ [10%N])
  = Normal (Some (str "(+9007199254740992,-0)"))
  /\ shown (str " 2 files changed, 3 insertions(+), 1000000000000000000000 deletions(-)"
            ++ [10%N])
     = Normal (Some (str "(+3,-1e+21)")).
Proof.
  cbv zeta. repeat split; vm_compute; reflexivity.
Qed.

(** ** The width of the terminal *)

(** X19.  [canDetectTerminalWidth] answers true exactly when
    [getTerminalWidth], given the same outcomes of the commands, returns
    a width; both run the same commands, and neither throws.  A width
    returned is a number greater than zero, not NaN: an integer, or
    [Infinity] when the digits read denote 2^1024 or more. *)
Theorem width_detection_agrees_with_width (shell : Shell) (ran : list JsString) :
  exists width,
    fst (getTerminalWidth shell ran) = Normal width
    /\ fst (canDetectTerminalWidth shell ran)
       = Normal (match width with Some _ => true | None => false end)
    /\ snd (canDetectTerminalWidth shell ran) = snd (getTerminalWidth shell ran)
    /\ forall parsed,
         width = Some parsed ->
         parsed = Infinite false \/ exists n, parsed = Whole n /\ 0 < n.
Proof.
  assert (forall parsed,
             isWidth parsed = true ->
             parsed = Infinite false \/ exists n, parsed = Whole n /\ 0 < n)
    as Hwidth.
  { intros [|n|[|]]; cbn [isWidth negb]; try discriminate.
    - intros Hn. right. exists n. split; [reflexivity | lia].
    - intros _. now left. }
  unfold getTerminalWidth, canDetectTerminalWidth.
  unfold shBind, shTry, execAsync, shRet.
  destruct (shell ttyCommand) as [ttyOutput|e].
  - destruct (nonEmpty (trim ttyOutput) && negb (jsStringEqb (trim ttyOutput) (str "??"))
              && negb (jsStringEqb (trim ttyOutput) (str "?"))).
    + destruct (shell (sttyCommand (trim ttyOutput))) as [widthOutput|e].
      * destruct (isWidth (parseInt (trim widthOutput))) eqn:Hfirst.
        { eexists. repeat split. intros parsed Heq. inversion Heq; subst.
          now apply Hwidth. }
        destruct (shell tputCommand) as [stdout|e];
          [destruct (isWidth (parseInt (trim stdout))) eqn:Hsecond|];
          eexists; repeat split; try discriminate.
        intros parsed Heq. inversion Heq; subst. now apply Hwidth.
      * destruct (shell tputCommand) as [stdout|e'];
          [destruct (isWidth (parseInt (trim stdout))) eqn:Hsecond|];
          eexists; repeat split; try discriminate.
        intros parsed Heq. inversion Heq; subst. now apply Hwidth.
    + destruct (shell tputCommand) as [stdout|e'];
        [destruct (isWidth (parseInt (trim stdout))) eqn:Hsecond|];
        eexists; repeat split; try discriminate.
      intros parsed Heq. inversion Heq; subst. now apply Hwidth.
  - destruct (shell tputCommand) as [stdout|e'];
      [destruct (isWidth (parseInt (trim stdout))) eqn:Hsecond|];
      eexists; repeat split; try discriminate.
    intros parsed Heq. inversion Heq; subst. now apply Hwidth.
Qed.

(** X20.  [getTerminalWidth] asks [stty] for the size only of a terminal
    that [ps] has reported.  When [ps] fails or reports nothing, [?] or
    [??], the commands run are [ps] and [tput], and [stty] is not run;
    otherwise [stty] is run on the device of the reported terminal, and
    [tput] after it or not at all. *)
Theorem size_is_read_from_a_reported_terminal_only (shell : Shell)
        (ran : list JsString) :
  let tty := reportedTty shell in
  let commands := snd (getTerminalWidth shell ran) in
  (tty = [] \/ tty = str "?" \/ tty = str "??" ->
   commands = ran ++ [ttyCommand; tputCommand])
  /\ (tty <> [] -> tty <> str "?" -> tty <> str "??" ->
      commands = ran ++ [ttyCommand; sttyCommand tty]
      \/ commands = ran ++ [ttyCommand; sttyCommand tty; tputCommand]).
Proof.
  cbv zeta. unfold reportedTty, getTerminalWidth.
  unfold shBind, shTry, execAsync, shRet.
  destruct (shell ttyCommand) as [ttyOutput|e].
  - destruct (trim ttyOutput) as [|c r] eqn:Htty.
    + cbn [nonEmpty andb]. split.
      * intros _. destruct (shell tputCommand) as [stdout|e'];
          [destruct (isWidth (parseInt (trim stdout)))|];
          cbn [snd]; now rewrite <- app_assoc.
      * intros Hne. contradiction.
    + cbn [nonEmpty andb].
      destruct (jsStringEqb (c :: r) (str "??")) eqn:Hqq.
      { apply jsStringEqb_eq in Hqq. cbn [negb andb]. split.
        - intros _. destruct (shell tputCommand) as [stdout|e'];
            [destruct (isWidth (parseInt (trim stdout)))|];
            cbn [snd]; now rewrite <- app_assoc.
        - intros _ _ Hne. contradiction. }
      destruct (jsStringEqb (c :: r) (str "?")) eqn:Hq.
      { apply jsStringEqb_eq in Hq. cbn [negb andb]. split.
        - intros _. destruct (shell tputCommand) as [stdout|e'];
            [destruct (isWidth (parseInt (trim stdout)))|];
            cbn [snd]; now rewrite <- app_assoc.
        - intros _ Hne. contradiction. }
      cbn [negb andb]. split.
      * intros [Hf | [Hf | Hf]]; [discriminate| |].
        -- apply jsStringEqb_eq in Hf. congruence.
        -- apply jsStringEqb_eq in Hf. congruence.
      * intros _ _ _.
        destruct (shell (sttyCommand (c :: r))) as [widthOutput|e];
          [destruct (isWidth (parseInt (trim widthOutput)))|].
        -- left. cbn [snd]. now rewrite <- app_assoc.
        -- right. destruct (shell tputCommand) as [stdout|e'];
             [destruct (isWidth (parseInt (trim stdout)))|];
             cbn [snd]; now rewrite <- !app_assoc.
        -- right. destruct (shell tputCommand) as [stdout|e'];
             [destruct (isWidth (parseInt (trim stdout)))|];
             cbn [snd]; now rewrite <- !app_assoc.
  - split.
    + intros _. destruct (shell tputCommand) as [stdout|e'];
        [destruct (isWidth (parseInt (trim stdout)))|];
        cbn [snd]; now rewrite <- app_assoc.
    + intros Hne. contradiction.
Qed.

(** ** The version of the package *)

Lemma digitsThen_sound (rest : JsString -> option (list JsString)) (s : JsString) :
  forall run groups,
    digitsThen rest s = Some (run, groups) ->
    exists tail, s = run ++ tail /\ rest tail = Some groups /\ isDigitRun run.
Proof.
  induction s as [|x r IH]; intros run groups; cbn [digitsThen]; [discriminate|].
  destruct (isDigit x) eqn:Hx; [|discriminate].
  destruct (digitsThen rest r) as [[more groups']|].
  - destruct (IH more groups' eq_refl) as (tail & Hr & Hrest & _ & Hall).
    intros Heq. inversion Heq; subst. exists tail.
    split; [reflexivity|]. split; [exact Hrest|].
    split; [discriminate | now constructor].
  - destruct (rest r) as [groups'|] eqn:Hrest; [|discriminate].
    intros Heq. inversion Heq; subst. exists r.
    split; [reflexivity|]. split; [exact Hrest|].
    split; [discriminate | now repeat constructor].
Qed.

Lemma digitsThen_complete (rest : JsString -> option (list JsString))
      (run tail : JsString) :
  isDigitRun run -> rest tail <> None -> digitsThen rest (run ++ tail) <> None.
Proof.
  intros [Hne Hall] Hrest. induction Hall as [|x r Hx Hr IH]; [contradiction|].
  cbn [app digitsThen]. rewrite Hx.
  destruct (digitsThen rest (r ++ tail)) as [[more groups]|] eqn:Hinner; [discriminate|].
  destruct r as [|y r'].
  - cbn [app]. destruct (rest tail); [discriminate | contradiction].
  - exfalso. apply IH; [discriminate | reflexivity].
Qed.

Lemma versionPattern_matches (s : JsString) :
  matchHere versionPattern s <> None <-> looksLikeVersion s.
Proof.
  unfold versionPattern, looksLikeVersion. cbn [matchHere]. split.
  - destruct (digitsThen _ s) as [[major groups]|] eqn:Hmajor; [|contradiction].
    intros _. apply digitsThen_sound in Hmajor.
    destruct Hmajor as (tail1 & -> & Hrest1 & Hd1).
    destruct tail1 as [|dot1 tail1]; [discriminate|].
    destruct (N.eqb_spec dot1 46) as [-> | _]; [|discriminate].
    destruct (digitsThen _ tail1) as [[minor groups2]|] eqn:Hminor; [|discriminate].
    apply digitsThen_sound in Hminor.
    destruct Hminor as (tail2 & -> & Hrest2 & Hd2).
    destruct tail2 as [|dot2 tail2]; [discriminate|].
    destruct (N.eqb_spec dot2 46) as [-> | _]; [|discriminate].
    destruct (digitsThen _ tail2) as [[patch groups3]|] eqn:Hpatch; [|discriminate].
    apply digitsThen_sound in Hpatch.
    destruct Hpatch as (rest & -> & _ & Hd3).
    exists major, minor, patch, rest. repeat split; try apply Hd1; try apply Hd2;
      try apply Hd3.
  - intros (major & minor & patch & rest & -> & Hd1 & Hd2 & Hd3).
    assert (digitsThen (fun _ : JsString => Some []) (patch ++ rest) <> None) as H3
        by (apply digitsThen_complete; [exact Hd3 | discriminate]).
    assert (digitsThen
              (fun s => match s with
                        | x :: r =>
                            if (x =? 46)%N
                            then match digitsThen (fun _ => Some []) r with
                                 | Some (captured, groups) => Some (captured :: groups)
                                 | None => None
                                 end
                            else None
                        | [] => None
                        end)
              (minor ++ 46%N :: patch ++ rest) <> None) as H2.
    { apply digitsThen_complete; [exact Hd2|]. cbn.
      destruct (digitsThen _ (patch ++ rest)) as [[c g]|]; [discriminate | contradiction]. }
    match goal with
    | |- match digitsThen ?k ?t with _ => _ end <> None =>
        assert (digitsThen k t <> None) as H1
    end.
    { apply digitsThen_complete; [exact Hd1|]. cbn.
      match goal with
      | |- match ?d with _ => _ end <> None =>
          destruct d as [[c g]|]; [discriminate | contradiction]
      end. }
    match goal with
    | |- match ?d with _ => _ end <> None =>
        destruct d as [[c g]|]; [discriminate | contradiction]
    end.
Qed.

Lemma placeholder_is_no_version : ~ looksLikeVersion (str "__PACKAGE_VERSION__").
Proof.
  intros Hv. apply versionPattern_matches in Hv. apply Hv. reflexivity.
Qed.

Lemma readOnly_firstPackageVersion (P : Package) (paths : list string) :
  readOnly (firstPackageVersion P paths) /\ neverThrows (firstPackageVersion P paths).
Proof.
  induction paths as [|p later [IHr IHn]]; cbn [firstPackageVersion].
  - split; [apply readOnly_ret | apply neverThrows_ret].
  - split.
    + apply readOnly_bind.
      * apply readOnly_tryCatch; [|apply readOnly_ret].
        destruct (existsSync P p); [|apply readOnly_ret].
        apply readOnly_bind; [apply readOnly_readFile|]. intros content.
        apply readOnly_bind; [apply readOnly_liftC|]. intros json.
        apply readOnly_bind; [apply readOnly_liftC|]. intros version.
        apply readOnly_ret.
      * intros [version|]; [apply readOnly_ret | exact IHr].
    + apply neverThrows_bind.
      * apply neverThrows_tryCatch, neverThrows_ret.
      * intros [version|]; [apply neverThrows_ret | exact IHn].
Qed.

(** X21.  [getPackageVersion] never throws and changes no file.  When
    the text put in place of [__PACKAGE_VERSION__] at build time begins
    with three runs of digits separated by dots, that text is returned
    and no file is read; the placeholder itself is not of this form.
    Otherwise the result comes from the candidate [package.json] files:
    it is the empty string when none exists, and when the first candidate
    exists, can be read and holds a JSON object, the result is the
    [version] of that object, or the empty string when it has none or
    a null one, without a look at the second candidate. *)
Theorem package_version_is_stamped_or_read (H : Host) (P : Package) (w : World) :
  let first := path_join H [dirname P; ".."; ".."; "package.json"]%string in
  (looksLikeVersion (PACKAGE_VERSION P) ->
   getPackageVersion H P w = (Normal (JStr (PACKAGE_VERSION P)), w))
  /\ ~ looksLikeVersion (str "__PACKAGE_VERSION__")
  /\ (exists version, fst (getPackageVersion H P w) = Normal version)
  /\ observes w (snd (getPackageVersion H P w))
  /\ (~ looksLikeVersion (PACKAGE_VERSION P) ->
      (forall path, existsSync P path = false) ->
      getPackageVersion H P w = (Normal (JStr []), w))
  /\ (~ looksLikeVersion (PACKAGE_VERSION P) ->
      existsSync P first = true ->
      forall content properties,
        diskFiles w !! first = Some content ->
        JSON_parse content = Normal (JObj properties) ->
        getPackageVersion H P w
        = (Normal (match lookupProp (str "version") properties with
                   | Some JUndefined | Some JNull | None => JStr []
                   | Some version => version
                   end),
           logs w [EvReadFile first])).
Proof.
  cbv zeta.
  assert (forall b : bool,
             (if b then true else false) = b) as Hif by (intros [|]; reflexivity).
  split; [|split; [exact placeholder_is_no_version|split; [|split; [|split]]]].
  - intros Hv. apply versionPattern_matches in Hv. unfold getPackageVersion.
    destruct (matchHere versionPattern (PACKAGE_VERSION P)); [reflexivity | contradiction].
  - unfold getPackageVersion.
    destruct (matchHere versionPattern (PACKAGE_VERSION P)); [now eexists|].
    unfold bind.
    destruct (proj2 (readOnly_firstPackageVersion P
                       [path_join H [dirname P; ".."; ".."; "package.json"]%string;
                        path_join H [dirname P; ".."; "package.json"]%string]) w)
      as (found & Hfound).
    destruct (firstPackageVersion P _ w) as [[[v|]|e] w1]; cbn [fst] in *;
      try discriminate; now eexists.
  - unfold getPackageVersion.
    destruct (matchHere versionPattern (PACKAGE_VERSION P)); [apply observes_refl|].
    apply (readOnly_bind (firstPackageVersion P _)).
    + apply readOnly_firstPackageVersion.
    + intros [v|]; apply readOnly_ret.
  - intros Hno Hnone. unfold getPackageVersion.
    destruct (matchHere versionPattern (PACKAGE_VERSION P)) eqn:Hm.
    { exfalso. apply Hno, versionPattern_matches. rewrite Hm. discriminate. }
    cbn [firstPackageVersion]. unfold bind, tryCatch, ret. now rewrite !Hnone.
  - intros Hno Hexists content properties Hfile Hparse. unfold getPackageVersion.
    destruct (matchHere versionPattern (PACKAGE_VERSION P)) eqn:Hm.
    { exfalso. apply Hno, versionPattern_matches. rewrite Hm. discriminate. }
    cbn [firstPackageVersion]. unfold bind at 1. unfold bind at 1.
    unfold tryCatch. rewrite Hexists.
    unfold bind at 1. unfold readFile at 1. rewrite Hfile.
    unfold bind at 1. unfold liftC at 1. rewrite Hparse.
    unfold bind at 1. unfold liftC at 1. cbn [getProp].
    rewrite logged_logs.
    destruct (lookupProp (str "version") properties) as [[| | | | | |]|];
      reflexivity.
Qed.
